(** * ESM-2 deployment notebooks: inference handlers, benchmark helper, cleanup cells

    A shallow embedding of the Python code of
    [workshops/Protein_Language_Modelling/Deploy-ESM2-to-Inf2.ipynb] and
    [workshops/Protein_Language_Modelling/Fine-Tune-ESM2-On-DeepLoc.ipynb].

    Python floats are idealised as exact rationals ([Q]); Python exceptions are
    a sum type; code that talks to the outside world (the endpoint, the wall
    clock, the random generator, the monitoring service) threads an explicit
    state whose external part is abstract. *)

From Stdlib Require Import List String Ascii Bool Arith ZArith QArith Qround Lia Lqa.
From Stdlib Require Import Permutation Sorted.
Import ListNotations.

Set Implicit Arguments.
Set Warnings "-register-all,-notation-for-abbreviation,-abstract-large-number".

(* ===================================================================== *)
(** * Part I: the embedding                                               *)
(* ===================================================================== *)

(** ** Python exceptions and the state-and-exception monad *)

Module Py.

Inductive exn : Type :=
| NameError (name : string)
| IndexError
| KeyError (key : string)
| ValueError
| TypeError
| AttributeError
| ZeroDivisionError
| JSONDecodeError
| PlainException (msg : string)      (* [raise Exception(msg)] *)
| ServiceError (code : nat)          (* raised by an external collaborator *)
| KeyboardInterrupt.                 (* a [BaseException] that is not an [Exception] *)

Inductive result (A : Type) : Type :=
| Ok (a : A)
| Raise (e : exn).
Arguments Ok {A} a.
Arguments Raise {A} e.

Definition is_raise {A} (r : result A) : bool :=
  match r with Ok _ => false | Raise _ => true end.

Definition rbind {A B} (r : result A) (k : A -> result B) : result B :=
  match r with Ok a => k a | Raise e => Raise e end.

(** A statement run against a state [S]: it returns or raises, and in both
    cases leaves a state behind. *)
Definition M (S A : Type) : Type := S -> result A * S.

Definition ret {S A} (a : A) : M S A := fun s => (Ok a, s).

Definition raise {S A} (e : exn) : M S A := fun s => (Raise e, s).

Definition bind {S A B} (m : M S A) (k : A -> M S B) : M S B :=
  fun s => match m s with
           | (Ok a, s') => k a s'
           | (Raise e, s') => (Raise e, s')
           end.

Definition lift {S A} (r : result A) : M S A := fun s => (r, s).

(** [try: body / except: handler] with a bare [except], which catches every
    exception, [BaseException]s included. *)
Definition try_except {S A} (body handler : M S A) : M S A :=
  fun s => match body s with
           | (Ok a, s') => (Ok a, s')
           | (Raise _, s') => handler s'
           end.

End Py.
Import Py.

Declare Scope py_scope.
Delimit Scope py_scope with py.
Notation "x <- m ;; k" := (bind m (fun x => k))
  (at level 61, m at next level, right associativity) : py_scope.
Notation "m ;;; k" := (bind m (fun _ => k))
  (at level 61, right associativity) : py_scope.
Notation "x <-? r ;; k" := (rbind r (fun x => k))
  (at level 61, r at next level, right associativity) : py_scope.

(** ** Python dicts as insertion-ordered association lists *)

Module Dict.

Section Dict.
Variable V : Type.

Definition dict : Type := list (string * V).

Fixpoint get (k : string) (d : dict) : option V :=
  match d with
  | [] => None
  | (k', v) :: d' => if String.eqb k k' then Some v else get k d'
  end.

Definition del (k : string) (d : dict) : dict :=
  filter (fun kv => negb (String.eqb k (fst kv))) d.

(** [d[k] = v]: overwrite in place when the key is there, append otherwise. *)
Fixpoint set (k : string) (v : V) (d : dict) : dict :=
  match d with
  | [] => [(k, v)]
  | (k', v') :: d' =>
      if String.eqb k k' then (k, v) :: d' else (k', v') :: set k v d'
  end.

Definition keys (d : dict) : list string := map fst d.
End Dict.

End Dict.

(** ** The inference script [inference.py] written by the deployment notebook *)

Module Inference.

(** What [json.loads] can return. *)
Inductive json : Type :=
| JNull
| JBool (b : bool)
| JInt (z : Z)
| JFloat (q : Q)
| JStr (s : string)
| JArr (l : list json)
| JObj (d : list (string * json)).

Definition JSON_CONTENT_TYPE : string := "application/json".

(** [input_data.pop(key, default)] by the runtime type of [input_data]:
    [dict.pop] with a default never raises; [list.pop] takes at most one
    argument; the other JSON values have no [pop] attribute.  The second
    component is [input_data] after the call (a dict is mutated in place). *)
Definition pop (input_data : json) (key : string) (default : json)
  : result json * json :=
  match input_data with
  | JObj d =>
      match Dict.get key d with
      | Some v => (Ok v, JObj (Dict.del key d))
      | None => (Ok default, input_data)
      end
  | JArr _ => (Raise TypeError, input_data)
  | _ => (Raise AttributeError, input_data)
  end.

(** [d.pop("inputs", d)] for a dict [d]: the entry, or [d] itself. *)
Definition extracted (d : list (string * json)) : json :=
  match Dict.get "inputs" d with
  | Some x => x
  | None => JObj d
  end.

(** An entry whose value is a probability. *)
Definition unit_interval (kv : string * Q) : Prop := (0 <= snd kv <= 1)%Q.

(** [r] is [v] to three decimals: the multiple of 1/1000 nearest to [v],
    and of the two nearest the even one when [v] lies half-way. *)
Definition rounded3 (v r : Q) : Prop :=
  exists z : Z,
    r = (inject_Z z / 1000)%Q /\
    (inject_Z z - (1 # 2) <= v * 1000 <= inject_Z z + (1 # 2))%Q /\
    ((v * 1000 == inject_Z z - (1 # 2) \/ v * 1000 == inject_Z z + (1 # 2))%Q ->
     Z.even z = true).

Section Handlers.
(** External collaborators of the script. *)
Variable json_loads : string -> result json.

Variable Tokenizer NeuronModel : Type.
(** [tokenizer.encode_plus(..., return_tensors="pt")]: the single row of
    [input_ids] and of [attention_mask]. *)
Variable encode_plus : Tokenizer -> json -> nat -> result (list nat * list nat).
Variable mask_token_id : Tokenizer -> nat.
Variable get_vocab : Tokenizer -> list (string * nat).
(** Calling a traced model on [(input_ids, attention_mask)]; the value is
    element [0] of the returned tuple restricted to its only batch entry:
    one row of logits per position. *)
Variable call_model : NeuronModel -> list nat -> list nat -> result (list (list Q)).
Variable sigmoid : Q -> Q.

Definition input_fn (serialized_input_data content_type : string) : result json :=
  if String.eqb content_type JSON_CONTENT_TYPE then
    (input_data <-? json_loads serialized_input_data ;;
     fst (pop input_data "inputs" input_data))%py
  else
    Raise (PlainException
             ("Requested unsupported ContentType in Accept: " ++ content_type)).

(** [round(v, 3)]: to the nearest multiple of 1/1000, ties to even. *)
Definition round_half_even (q : Q) : Z :=
  let f := Qfloor q in
  let r := (q - inject_Z f)%Q in
  match Qcompare r (1 # 2) with
  | Lt => f
  | Gt => (f + 1)%Z
  | Eq => if Z.even f then f else (f + 1)%Z
  end.

Definition round3 (v : Q) : Q :=
  (inject_Z (round_half_even (v * 1000)) / 1000)%Q.

(** [(input_ids == mask_token_id)[0].nonzero(as_tuple=True)[0]] *)
Fixpoint nonzero_from (i : nat) (mask_id : nat) (ids : list nat) : list nat :=
  match ids with
  | [] => []
  | t :: ids' =>
      if Nat.eqb t mask_id then i :: nonzero_from (S i) mask_id ids'
      else nonzero_from (S i) mask_id ids'
  end.

(** [output[0, mask_token_index]]; tensor indexing raises out of range. *)
Fixpoint index_rows (output : list (list Q)) (idx : list nat)
  : result (list (list Q)) :=
  match idx with
  | [] => Ok []
  | i :: idx' =>
      match nth_error output i with
      | None => Raise IndexError
      | Some row => (rows <-? index_rows output idx' ;; Ok (row :: rows))%py
      end
  end.

(** The dict comprehension
    [{list(tokenizer.get_vocab().keys())[idx]: round(v.item(), 3)
      for idx, v in enumerate(probs[0])}]. *)
Fixpoint comprehension (vocab_keys : list string) (idx : nat) (row : list Q)
         (acc : Dict.dict Q) : result (Dict.dict Q) :=
  match row with
  | [] => Ok acc
  | v :: row' =>
      match nth_error vocab_keys idx with
      | None => Raise IndexError
      | Some tok => comprehension vocab_keys (S idx) row' (Dict.set tok (round3 v) acc)
      end
  end.

(** What a module-level name of [inference.py] can be bound to. *)
Inductive pyobj : Type :=
| PyModule (name : string)
| PyClass (name : string)
| PyStr (s : string)
| PyFunction (name : string)
| PyModel (m : NeuronModel).

(** Resolving a name that is not a local of the running function. *)
Definition load_global (globals : Dict.dict pyobj) (name : string) : result pyobj :=
  match Dict.get name globals with
  | Some o => Ok o
  | None => Raise (NameError name)
  end.

(** [f(input_ids, attention_mask)[0]] for a module-level object [f].  Only a
    traced model accepts the two tensors; the script binds no name to one,
    and the other kinds of object are rendered as [TypeError]. *)
Definition call_global (f : pyobj) (ids attention : list nat)
  : result (list (list Q)) :=
  match f with
  | PyModel m => call_model m ids attention
  | _ => Raise TypeError
  end.

(** [predict_fn].  Its body reads the name [neuron_model], which is neither
    a parameter nor a local of the function (the model is unpacked into
    [model_bert]), so Python resolves it in the globals of the module. *)
Definition predict_fn (globals : Dict.dict pyobj)
           (input_data : json) (model_and_tokenizer : NeuronModel * Tokenizer)
  : result (Dict.dict Q) :=
  let '(model_bert, tokenizer) := model_and_tokenizer in
  let max_length := 128%nat in
  (tokenized_sequence <-? encode_plus tokenizer input_data max_length ;;
   let prediction_input := tokenized_sequence in
   neuron_model <-? load_global globals "neuron_model" ;;
   output <-? call_global neuron_model (fst prediction_input) (snd prediction_input) ;;
   let mask_token_index :=
     nonzero_from 0 (mask_token_id tokenizer) (fst tokenized_sequence) in
   mask_index_predictions <-? index_rows output mask_token_index ;;
   let probs := map (map sigmoid) mask_index_predictions in
   probs0 <-? match probs with
              | [] => Raise IndexError
              | row :: _ => Ok row
              end ;;
   comprehension (Dict.keys (get_vocab tokenizer)) 0 probs0 [])%py.

(** The names bound at module level in [inference.py], in order: its
    imports, its two constants and its four functions. *)
Definition inference_py_globals : Dict.dict pyobj :=
  [("os", PyModule "os"); ("json", PyModule "json"); ("torch", PyModule "torch");
   ("torch_neuronx", PyModule "torch_neuronx");
   ("AutoTokenizer", PyClass "transformers.AutoTokenizer");
   ("JSON_CONTENT_TYPE", PyStr JSON_CONTENT_TYPE);
   ("MODEL_ID", PyStr "facebook/esm2_t6_8M_UR50D");
   ("model_fn", PyFunction "model_fn"); ("input_fn", PyFunction "input_fn");
   ("predict_fn", PyFunction "predict_fn"); ("output_fn", PyFunction "output_fn")]%string.

End Handlers.

End Inference.

(** ** The benchmarking helpers of the deployment notebook *)

Module Bench.

(** *** Strings and lists as Python indexes them *)

(** [l[:stop]] *)
Definition slice_to {A} (l : list A) (stop : Z) : list A :=
  if (0 <=? stop)%Z then firstn (Z.to_nat stop) l
  else firstn (List.length l - Z.to_nat (- stop)) l.

(** [l[start:]] *)
Definition slice_from {A} (l : list A) (start : Z) : list A :=
  if (0 <=? start)%Z then skipn (Z.to_nat start) l
  else skipn (List.length l - Z.to_nat (- start)) l.

Definition str_slice_to (s : string) (stop : Z) : string :=
  string_of_list_ascii (slice_to (list_ascii_of_string s) stop).

(** [list(s)]: the one-character strings of [s] *)
Definition chars (s : string) : list string :=
  map (fun c => String c EmptyString) (list_ascii_of_string s).

Fixpoint replace_nth {A} (i : nat) (x : A) (l : list A) : list A :=
  match l, i with
  | [], _ => []
  | _ :: l', O => x :: l'
  | y :: l', S i' => y :: replace_nth i' x l'
  end.

(** [l[i] = x]; a negative index counts from the end. *)
Definition setitem {A} (l : list A) (i : Z) (x : A) : result (list A) :=
  let n := Z.of_nat (List.length l) in
  if ((0 <=? i) && (i <? n))%Z%bool then Ok (replace_nth (Z.to_nat i) x l)
  else if ((- n <=? i) && (i <? 0))%Z%bool then Ok (replace_nth (Z.to_nat (n + i)) x l)
  else Raise IndexError.

(** [sep.join(l)] with the empty separator *)
Definition join (l : list string) : string := String.concat "" l.

(** No character of [q] is [c0]. *)
Fixpoint avoids (c0 : ascii) (q : string) : Prop :=
  match q with
  | EmptyString => True
  | String b q' => b <> c0 /\ avoids c0 q'
  end.

(** The number of positions of [s] at which [pat] starts. *)
Fixpoint occurrences (pat s : string) : nat :=
  match s with
  | EmptyString => 0
  | String _ s' => (if String.prefix pat s then 1 else 0) + occurrences pat s'
  end.

(** *** [np.quantile] with its default (linear interpolation) method *)

Fixpoint insert_sorted (x : Q) (l : list Q) : list Q :=
  match l with
  | [] => [x]
  | y :: l' => if Qle_bool x y then x :: l else y :: insert_sorted x l'
  end.

Definition sort (l : list Q) : list Q := fold_right insert_sorted [] l.

Definition quantile (a : list Q) (q : Q) : result Q :=
  if negb (Qle_bool 0 q && Qle_bool q 1) then Raise ValueError
  else
    match sort a with
    | [] => Raise IndexError
    | (x0 :: _) as s =>
        let n := Z.of_nat (List.length s) in
        let virtual_index := (q * inject_Z (n - 1))%Q in
        let lo := Qfloor virtual_index in
        let hi := Z.min (lo + 1) (n - 1) in
        let g := (virtual_index - inject_Z lo)%Q in
        let a_lo := nth (Z.to_nat lo) s x0 in
        let a_hi := nth (Z.to_nat hi) s x0 in
        Ok (a_lo + (a_hi - a_lo) * g)%Q
    end.

(** Float division *)
Definition py_div (a b : Q) : result Q :=
  if Qeq_bool b 0 then Raise ZeroDivisionError else Ok (a / b)%Q.

(** [sum] of a list of booleans *)
Definition sum_bool (l : list bool) : Z := Z.of_nat (count_occ bool_dec l true).

(** *** Records *)

Record payload : Type := { inputs : string }.

Record datapoint : Type :=
  { SampleCount : Q; Average : Q;
    ext_p50 : Q; ext_p90 : Q; ext_p95 : Q; ext_p100 : Q }.

Record query : Type :=
  { EndpointName : string; StartTime : Q; EndTime : Q; Period : Z }.

Record metrics : Type :=
  { avg_throughput : Q; error_p : Q; p50 : Q; p90 : Q; p95 : Q }.

Record cloudwatch_report : Type :=
  { polls : nat; side_avg : Q; side_p50 : Q; side_p90 : Q; side_p95 : Q; side_p100 : Q }.

(** *** The thread pool of joblib *)

(** [pre_dispatch="2 * n_jobs"]: how many tasks may be taken from the
    generator without being finished.  With one job the tasks run in the
    calling thread, each one as soon as it is taken. *)
Definition pre_dispatch (workers : nat) : nat :=
  if Nat.eqb workers 1 then 1 else 2 * workers.

(** The pool keeps its tasks in the order in which it took them from the
    generator.  A task waits for a thread, then runs in three steps, and is
    finished; or it has raised.  A step of a thread is not interrupted, and
    between two of its steps any other thread may run. *)
Inductive slot (A T1 T2 B : Type) : Type :=
| Queued (a : A)
| Started (a : A) (t1 : T1)
| Called (t2 : T2)
| Finished (b : B)
| Failed (e : exn).
Arguments Queued {A T1 T2 B} a.
Arguments Started {A T1 T2 B} a t1.
Arguments Called {A T1 T2 B} t2.
Arguments Finished {A T1 T2 B} b.
Arguments Failed {A T1 T2 B} e.

(** [remaining]: the iterations the generator has left; [failure]: the
    first exception met, which the pool raises when it stops. *)
Record pool (A T1 T2 B : Type) : Type :=
  { remaining : nat; failure : option exn; slots : list (slot A T1 T2 B) }.

(** What can happen next: the dispatcher takes a task from the generator, a
    free thread starts the first waiting task, a busy thread runs its next
    step, or the pool stops on its failure. *)
Inductive event : Type :=
| Dispatch
| Begin (i : nat)
| Advance (i : nat)
| Stop.

Definition unfinished {A T1 T2 B} (x : slot A T1 T2 B) : bool :=
  match x with
  | Queued _ | Started _ _ | Called _ => true
  | Finished _ | Failed _ => false
  end.

Definition is_queued {A T1 T2 B} (x : slot A T1 T2 B) : bool :=
  match x with
  | Queued _ => true
  | _ => false
  end.

Definition is_busy {A T1 T2 B} (x : slot A T1 T2 B) : bool :=
  match x with
  | Started _ _ | Called _ => true
  | _ => false
  end.

(** The positions, counted from [i], of the elements that satisfy [f]. *)
Fixpoint positions {X} (f : X -> bool) (i : nat) (l : list X) : list nat :=
  match l with
  | [] => []
  | x :: l' => if f x then i :: positions f (S i) l' else positions f (S i) l'
  end.

(** The results of the finished tasks, in the order of the tasks. *)
Definition outputs {A T1 T2 B} (l : list (slot A T1 T2 B)) : list B :=
  flat_map (fun x => match x with
                     | Finished b => [b]
                     | _ => []
                     end) l.

(** The events a task still has to go through, and those of a whole run:
    four for every task that the generator has yet to give. *)
Definition slot_steps {A T1 T2 B} (x : slot A T1 T2 B) : nat :=
  match x with
  | Queued _ => 3
  | Started _ _ => 2
  | Called _ => 1
  | Finished _ | Failed _ => 0
  end.

Definition steps_left {A T1 T2 B} (p : pool A T1 T2 B) : nat :=
  4 * remaining p + list_sum (map slot_steps (slots p)).

Section Bench.

(** The world outside the notebook kernel. *)
Variable Env : Type.
(** [time.time()] and [datetime.utcnow()]: the wall clock, in seconds. *)
Variable wall_clock : Env -> Q.
Variables Predictor Response : Type.
Variable endpoint_name : Predictor -> string.
(** One invocation of a hosted endpoint: it answers or raises, and the
    world moves on (the clock included). *)
Variable invoke_endpoint : Predictor -> payload -> Env -> result Response * Env.
(** The state of the [random] module: its next raw draw and its successor. *)
Variable Gen : Type.
Variable raw : Gen -> nat.
Variable advance : Gen -> Gen.
(** The global [uniref]: the shuffled text column of the dataset. *)
Variable uniref : list string.
(** joblib's view of the machine, and the interleaving of the pool's
    threads: what happens at step [k] of a parallel run is the possible
    event number [sched k] (modulo the number of possible events). *)
Variable cpu_count : nat.
Variable sched : nat -> nat.
(** The monitoring service: the [Datapoints] of the answer to the [k]-th
    [get_metric_statistics] call for a query. *)
Variable cloudwatch : query -> nat -> list datapoint.

(** [sent] is a ghost trace: every payload handed to an endpoint, in the
    order of submission, with whether that invocation raised. *)
Record state : Type :=
  { env : Env; gen : Gen; sent : list (payload * bool) }.

Inductive result_field : Type :=
| Returned (r : Response)
| EmptyList.

Record latency_record : Type :=
  { latency : Q; error : bool; result_ : result_field }.

(** The [result] entry of the record for an outcome of the call. *)
Definition outcome_field (r : result Response) : result_field :=
  match r with
  | Ok x => Returned x
  | Raise _ => EmptyList
  end.

Definition time_time : M state Q :=
  fun s => (Ok (wall_clock (env s)), s).

(** [predictor.predict(data)] *)
Definition predict (predictor : Predictor) (data : payload) : M state Response :=
  fun s =>
    let '(r, e') := invoke_endpoint predictor data (env s) in
    (r, {| env := e'; gen := gen s; sent := sent s ++ [(data, is_raise r)] |}).

Definition inference_latency (model : payload -> M state Response) (inputs : payload)
  : M state latency_record :=
  (let error := false in
   start <- time_time ;;
   outcome <- try_except
                (results <- model inputs ;; ret (error, Returned results))
                (let error := true in
                 let results := EmptyList in
                 ret (error, results)) ;;
   now <- time_time ;;
   ret {| latency := now - start; error := fst outcome; result_ := snd outcome |})%py.

(** The three steps of [inference_latency] between which another thread of
    the pool can run: reading the clock, the guarded call, and reading the
    clock again to build the record. *)
Definition latency_begin (inputs : payload) : M state Q :=
  (let error := false in
   start <- time_time ;;
   ret start)%py.

Definition latency_call (model : payload -> M state Response) (inputs : payload)
           (start : Q) : M state (Q * (bool * result_field)) :=
  (let error := false in
   outcome <- try_except
                (results <- model inputs ;; ret (error, Returned results))
                (let error := true in
                 let results := EmptyList in
                 ret (error, results)) ;;
   ret (start, outcome))%py.

Definition latency_return (called : Q * (bool * result_field)) : M state latency_record :=
  (let '(start, outcome) := called in
   now <- time_time ;;
   ret {| latency := now - start; error := fst outcome; result_ := snd outcome |})%py.

(** [random]: a draw below [n], [random.choice] and [random.randint]. *)
Definition randbelow (n : nat) : M state nat :=
  fun s => (Ok (raw (gen s) mod n)%nat,
            {| env := env s; gen := advance (gen s); sent := sent s |}).

Definition random_choice {A} (population : list A) : M state A :=
  match population with
  | [] => raise IndexError
  | x :: _ => (k <- randbelow (List.length population) ;; ret (nth k population x))%py
  end.

Definition random_randint (a b : Z) : M state Z :=
  if (b <? a)%Z then raise ValueError
  else (k <- randbelow (Z.to_nat (b - a + 1)) ;; ret (a + Z.of_nat k)%Z)%py.

(** The state after [n] draws, and the element of [uniref] that
    [random.choice] picks in a state. *)
Definition advanced (n : nat) (s : state) : state :=
  {| env := env s; gen := Nat.iter n advance (gen s); sent := sent s |}.

Definition drawn (s : state) : option string :=
  nth_error uniref (raw (gen s) mod List.length uniref).

Definition random_sequence (max_length : Z) : M state string :=
  (seq <- random_choice uniref ;;
   let seq := chars (str_slice_to seq max_length) in
   i <- random_randint 0 (Z.of_nat (List.length seq) - 1) ;;
   seq <- lift (setitem seq i "<mask>"%string) ;;
   let seq := join seq in
   ret seq)%py.

(** *** joblib's [Parallel(n_jobs, prefer="threads")] *)

Definition effective_n_jobs (n_jobs : Z) : result nat :=
  if (n_jobs =? 0)%Z then Raise ValueError
  else if (n_jobs <? 0)%Z
       then Ok (Nat.max (Z.to_nat (Z.of_nat cpu_count + 1 + n_jobs)) 1)
       else Ok (Z.to_nat n_jobs).

(** The argument tuples that the generator expression yields when it is
    consumed to its end. *)
Fixpoint generate {A} (n : nat) (item : M state A) : M state (list A) :=
  match n with
  | O => ret []
  | S n' => (x <- item ;; xs <- generate n' item ;; ret (x :: xs))%py
  end.

Section Pool.
Variables A T1 T2 B : Type.
(** The next argument tuple of the generator, and the three steps of the
    task function. *)
Variable item : M state A.
Variable phase1 : A -> M state T1.
Variable phase2 : A -> T1 -> M state T2.
Variable phase3 : T2 -> M state B.
Variable workers : nat.

Definition set_slot (i : nat) (x : slot A T1 T2 B) (p : pool A T1 T2 B)
  : pool A T1 T2 B :=
  {| remaining := remaining p; failure := failure p;
     slots := replace_nth i x (slots p) |}.

(** After an exception nothing more is taken from the generator. *)
Definition failed (e : exn) (p : pool A T1 T2 B) : pool A T1 T2 B :=
  {| remaining := 0;
     failure := match failure p with
                | Some e0 => Some e0
                | None => Some e
                end;
     slots := slots p |}.

Definition enabled (p : pool A T1 T2 B) : list event :=
  ((if ((0 <? remaining p)
        && (List.length (positions unfinished 0 (slots p)) <? pre_dispatch workers))%nat%bool
    then [Dispatch] else [])
   ++ match positions is_queued 0 (slots p) with
      | i :: _ =>
          if (List.length (positions is_busy 0 (slots p)) <? workers)%nat
          then [Begin i] else []
      | [] => []
      end
   ++ map Advance (positions is_busy 0 (slots p))
   ++ match failure p with
      | Some _ => [Stop]
      | None => []
      end)%list.

(** One step of one thread. *)
Definition step_slot {T} (i : nat) (p : pool A T1 T2 B) (run : M state T)
           (next : T -> slot A T1 T2 B) : state -> pool A T1 T2 B * state :=
  fun s =>
    match run s with
    | (Ok t, s') => (set_slot i (next t) p, s')
    | (Raise e, s') => (failed e (set_slot i (Failed e) p), s')
    end.

Definition perform (ev : event) (p : pool A T1 T2 B)
  : state -> pool A T1 T2 B * state :=
  fun s =>
    match ev with
    | Dispatch =>
        match remaining p with
        | O => (p, s)
        | S r =>
            match item s with
            | (Ok a, s') =>
                ({| remaining := r; failure := failure p;
                    slots := slots p ++ [Queued a] |}, s')
            | (Raise e, s') => (failed e p, s')
            end
        end
    | Begin i =>
        match nth_error (slots p) i with
        | Some (Queued a) => step_slot i p (phase1 a) (Started a) s
        | _ => (p, s)
        end
    | Advance i =>
        match nth_error (slots p) i with
        | Some (Started a t1) => step_slot i p (phase2 a t1) Called s
        | Some (Called t2) => step_slot i p (phase3 t2) Finished s
        | _ => (p, s)
        end
    | Stop => (p, s)
    end.

(** The end of the run: the first exception, or the results in the order
    of the tasks. *)
Definition finish (p : pool A T1 T2 B) : M state (list B) :=
  match failure p with
  | Some e => raise e
  | None => ret (outputs (slots p))
  end.

(** The run of the pool from its step number [step].  Every event but
    [Stop] brings a task nearer to its end, so that [fuel] bounds the run. *)
Fixpoint pool_run (fuel step : nat) (p : pool A T1 T2 B) : M state (list B) :=
  match fuel with
  | O => finish p
  | S fuel' =>
      match enabled p with
      | [] => finish p
      | (ev0 :: _) as possible =>
          match nth (sched step mod List.length possible) possible ev0 with
          | Stop => finish p
          | ev => fun s => let '(p', s') := perform ev p s in
                           pool_run fuel' (S step) p' s'
          end
      end
  end.

End Pool.

(** [Parallel(n_jobs=..., prefer="threads")] applied to a generator of [n]
    delayed calls of a task function that runs in the three steps [phase1],
    [phase2] and [phase3].  The generator is consumed while the tasks run;
    [4 * n] events bring [n] tasks to their end, and one more stops the
    pool. *)
Definition Parallel {A T1 T2 B} (n_jobs : Z)
           (phase1 : A -> M state T1) (phase2 : A -> T1 -> M state T2)
           (phase3 : T2 -> M state B)
           (n : nat) (arguments : M state A) : M state (list B) :=
  (workers <- lift (effective_n_jobs n_jobs) ;;
   pool_run arguments phase1 phase2 phase3 workers (4 * n + 1) 0
            {| remaining := n; failure := None; slots := [] |})%py.

(** *** [benchmark] *)

(** The argument tuple of one iteration: [{"inputs": random_sequence()}]. *)
Definition next_request : M state payload :=
  (seq <- random_sequence 128 ;; ret {| inputs := seq |})%py.

(** The parallel clients. *)
Definition benchmark_requests (predictor : Predictor)
           (number_of_clients number_of_runs : Z) : M state (list latency_record) :=
  Parallel number_of_clients
           latency_begin (latency_call (predict predictor)) latency_return
           (Z.to_nat number_of_runs)
           next_request.

(** *** A parallel run as the endpoint sees it *)

(** The invocations of a run in the order in which the endpoint gets them:
    the trace that they leave and the environment after the last one. *)
Fixpoint invocations (predictor : Predictor) (calls : list payload) (e : Env)
  : list (payload * bool) * Env :=
  match calls with
  | [] => ([], e)
  | p :: calls' =>
      let '(r, e') := invoke_endpoint predictor p e in
      let '(trace, e'') := invocations predictor calls' e' in
      ((p, is_raise r) :: trace, e'')
  end.

(** The environment once the first [j] of them are made. *)
Definition env_after (predictor : Predictor) (calls : list payload) (e : Env) (j : nat)
  : Env :=
  snd (invocations predictor (firstn j calls) e).

(** The record of the request [p] that is invocation number [j], from a
    thread that read the clock after [b] invocations and again after [c]. *)
Definition measured (predictor : Predictor) (calls : list payload) (e : Env)
           (b j c : nat) (p : payload) : latency_record :=
  let r := fst (invoke_endpoint predictor p (env_after predictor calls e j)) in
  {| latency := wall_clock (env_after predictor calls e c)
                - wall_clock (env_after predictor calls e b);
     error := is_raise r;
     result_ := outcome_field r |}.

(** What holds of task number [i] of a run of the clients that started in
    the environment [e0], when the generator has yielded [tasks] and the
    endpoint has got [calls], each with the number of its task. *)
Definition slot_known (predictor : Predictor) (e0 : Env) (tasks : list payload)
           (calls : list (nat * payload)) (i : nat)
           (x : slot payload Q (Q * (bool * result_field)) latency_record) : Prop :=
  match x with
  | Queued a =>
      nth_error tasks i = Some a /\ ~ In i (map fst calls)
  | Started a start =>
      nth_error tasks i = Some a /\ ~ In i (map fst calls) /\
      exists b, (b <= List.length calls)%nat /\
                start = wall_clock (env_after predictor (map snd calls) e0 b)
  | Called called =>
      exists a j b,
        nth_error tasks i = Some a /\ nth_error calls j = Some (i, a) /\ (b <= j)%nat /\
        called = (wall_clock (env_after predictor (map snd calls) e0 b),
                  (let r := fst (invoke_endpoint predictor a
                                   (env_after predictor (map snd calls) e0 j)) in
                   (is_raise r, outcome_field r)))
  | Finished record =>
      exists a j b c,
        nth_error tasks i = Some a /\ nth_error calls j = Some (i, a) /\
        (b <= j < c)%nat /\ (c <= List.length calls)%nat /\
        record = measured predictor (map snd calls) e0 b j c a
  | Failed _ => False
  end.

(** What holds of the pool of clients and of the state at every step of a
    run that started in [s0] for [n] requests. *)
Record pool_known (predictor : Predictor) (s0 : state) (n : nat)
       (tasks : list payload) (calls : list (nat * payload))
       (p : pool payload Q (Q * (bool * result_field)) latency_record)
       (s : state) : Prop :=
  { known_tasks :
      exists sg, generate (List.length (slots p)) next_request s0 = (Ok tasks, sg) /\
                 (failure p = None -> gen s = gen sg);
    known_total :
      (List.length (slots p) + remaining p <= n)%nat /\
      (failure p = None -> (List.length (slots p) + remaining p)%nat = n);
    known_failure :
      forall e, failure p = Some e ->
                remaining p = 0%nat /\ (List.length (slots p) < n)%nat /\
                exists sg, generate (S (List.length (slots p))) next_request s0
                           = (Raise e, sg);
    known_env : env s = snd (invocations predictor (map snd calls) (env s0));
    known_sent :
      sent s = (sent s0 ++ fst (invocations predictor (map snd calls) (env s0)))%list;
    known_calls :
      NoDup (map fst calls) /\
      Forall (fun c => nth_error tasks (fst c) = Some (snd c)) calls;
    known_slots :
      forall i x, nth_error (slots p) i = Some x ->
                  slot_known predictor (env s0) tasks calls i x }.

Definition latencies (results : list latency_record) : list Q := map latency results.
Definition errors (results : list latency_record) : list bool := map error results.

(** The three reported percentiles, in milliseconds. *)
Definition percentiles (latencies : list Q) : result (Q * Q * Q) :=
  (p50 <-? quantile (slice_from latencies (-10000)) (50 # 100) ;;
   let p50 := (p50 * 1000)%Q in
   p90 <-? quantile (slice_from latencies (-10000)) (95 # 100) ;;
   let p90 := (p90 * 1000)%Q in
   p95 <-? quantile (slice_from latencies (-10000)) (99 # 100) ;;
   let p95 := (p95 * 1000)%Q in
   Ok (p50, p90, p95))%py.

Definition compute_metrics (avg_throughput : Q) (results : list latency_record)
  : result metrics :=
  let latencies := latencies results in
  let errors := errors results in
  (ratio <-? py_div (inject_Z (sum_bool errors)) (inject_Z (Z.of_nat (List.length errors))) ;;
   let error_p := (ratio * 100)%Q in
   ps <-? percentiles latencies ;;
   let '(p50, p90, p95) := ps in
   Ok {| avg_throughput := avg_throughput; error_p := error_p;
         p50 := p50; p90 := p90; p95 := p95 |})%py.

(** The polling loop, started at its [k]-th query: [None] when [fuel]
    iterations did not reach the end of the loop. *)
Fixpoint poll_loop (q : query) (fuel k : nat) : option cloudwatch_report :=
  match fuel with
  | O => None
  | S fuel' =>
      (* time.sleep(30) *)
      let model_latency_metrics := cloudwatch q k in
      match model_latency_metrics with
      | dp :: _ =>
          Some {| polls := S k;
                  side_avg := Average dp / 1000;
                  side_p50 := ext_p50 dp / 1000;
                  side_p90 := ext_p90 dp / 1000;
                  side_p95 := ext_p95 dp / 1000;
                  side_p100 := ext_p100 dp / 1000 |}
      | [] => poll_loop q fuel' (S k)
      end
  end.

(** Seconds slept by the loop when it ends after [polls r] queries. *)
Definition seconds_waited (r : cloudwatch_report) : Z := 30 * Z.of_nat (polls r).

Definition benchmark (fuel : nat) (predictor : Predictor)
           (number_of_clients number_of_runs : Z)
  : M state (metrics * option cloudwatch_report) :=
  (t_start <- time_time ;;
   let total := Z.of_nat (Z.to_nat number_of_runs) in
   cw_start <- time_time ;;
   results <- benchmark_requests predictor number_of_clients number_of_runs ;;
   t_now <- time_time ;;
   avg_throughput <- lift (py_div (inject_Z total) (t_now - t_start)) ;;
   cw_end <- time_time ;;
   m <- lift (compute_metrics avg_throughput results) ;;
   let cw_end := (cw_end + 300)%Q in
   let factor := Qceiling ((cw_end - cw_start) / 60) in
   let period := (factor * 60)%Z in
   let q := {| EndpointName := endpoint_name predictor;
               StartTime := cw_start; EndTime := cw_end; Period := period |} in
   ret (m, poll_loop q fuel 0))%py.

End Bench.

End Bench.

(** ** The cleanup cells of the two notebooks *)

Module Cleanup.

Section Cleanup.
Variable Cloud : Type.
Variable Predictor : Type.
(** [predictor.delete_endpoint()] against the hosting service. *)
Variable delete_endpoint_call : Predictor -> Cloud -> result unit * Cloud.

(** The kernel's namespace (which predictors the earlier cells managed to
    bind), the hosting service, and a ghost trace of the endpoints whose
    deletion was attempted. *)
Record state : Type :=
  { namespace : Dict.dict Predictor; cloud : Cloud; attempted : list Predictor }.

Definition load_name (name : string) : M state Predictor :=
  fun s => match Dict.get name (namespace s) with
           | Some p => (Ok p, s)
           | None => (Raise (NameError name), s)
           end.

Definition delete_endpoint (p : Predictor) : M state unit :=
  fun s =>
    let '(r, c') := delete_endpoint_call p (cloud s) in
    (r, {| namespace := namespace s; cloud := c'; attempted := attempted s ++ [p] |}).

Definition pass : M state unit := ret tt.

(** Last cell of [Deploy-ESM2-to-Inf2.ipynb]. *)
Definition cleanup_deploy : M state unit :=
  try_except
    (inf2_predictor <- load_name "inf2_predictor" ;;
     delete_endpoint inf2_predictor ;;;
     g5_predictor <- load_name "g5_predictor" ;;
     delete_endpoint g5_predictor)%py
    pass.

(** Last cell of [Fine-Tune-ESM2-On-DeepLoc.ipynb]. *)
Definition cleanup_finetune : M state unit :=
  try_except
    (predictor <- load_name "predictor" ;;
     delete_endpoint predictor)%py
    pass.

End Cleanup.

End Cleanup.

(** ** The interpolation inside [np.quantile] *)

Module Interpolation.

(** The value [quantile] reads off a sorted sample [s] at a fractional
    index; [x0] is the head of [s]. *)
Definition interpolate (s : list Q) (x0 : Q) (virtual_index : Q) : Q :=
  let n := Z.of_nat (List.length s) in
  let lo := Qfloor virtual_index in
  let hi := Z.min (lo + 1) (n - 1) in
  let g := (virtual_index - inject_Z lo)%Q in
  let a_lo := nth (Z.to_nat lo) s x0 in
  let a_hi := nth (Z.to_nat hi) s x0 in
  (a_lo + (a_hi - a_lo) * g)%Q.

End Interpolation.

(** ** The query that [benchmark] sends to the monitoring service *)


Module Monitoring.
Import Bench.

(** The number of submissions recorded in a trace whose invocation raised. *)
Definition raised (trace : list (payload * bool)) : nat :=
  count_occ bool_dec (map snd trace) true.

(** [cw_end += timedelta(minutes=5)], then the period: the elapsed seconds
    rounded up to a multiple of 60. *)
Definition metric_period (cw_start cw_end : Q) : Z :=
  let cw_end := (cw_end + 300)%Q in
  let factor := Qceiling ((cw_end - cw_start) / 60) in
  (factor * 60)%Z.

Definition metric_query (name : string) (cw_start cw_end : Q) : query :=
  {| EndpointName := name;
     StartTime := cw_start;
     EndTime := (cw_end + 300)%Q;
     Period := metric_period cw_start cw_end |}.

End Monitoring.

(** ** The data cells of the fine-tuning notebook *)

Module FineTune.

(** A row of the DeepLoc frame once the two unused columns are dropped and
    [Membrane] is cast to an integer; [Locations] stands for the location
    label columns. *)
Record raw_row : Type :=
  { Sequence : string; Kingdom : string; Membrane : Z; Locations : list Z }.

Record row : Type :=
  { seq_ : string; kingdom_ : string; membrane_ : Z }.

(** [Series.between(left, right)], both ends included. *)
Definition between (left right x : nat) : bool :=
  (left <=? x)%nat && (x <=? right)%nat.

(** [df[df["Sequence"].apply(lambda x: len(x)).between(100, 512)]] *)
Definition length_filter (df : list raw_row) : list raw_row :=
  filter (fun r => between 100 512 (String.length (Sequence r))) df.

(** [df[["Sequence", "Kingdom", "Membrane"]]] *)
Definition select_features (df : list raw_row) : list row :=
  map (fun r => {| seq_ := Sequence r; kingdom_ := Kingdom r; membrane_ := Membrane r |}) df.

(** [df.groupby("Membrane")["Membrane"].transform("count")]: for each row,
    the number of rows of its group. *)
Definition group_count (df : list row) (m : Z) : nat :=
  List.length (filter (fun r => Z.eqb (membrane_ r) m) df).

Definition transform_count (df : list row) : list nat :=
  map (fun r => group_count df (membrane_ r)) df.

(** [weights = 1.0 / ...] *)
Definition weights (df : list row) : list Q :=
  map (fun c => (1 / inject_Z (Z.of_nat c))%Q) (transform_count df).

(** The frame handed to [df.sample], with its weights. *)
Definition prepared (df : list raw_row) : list row * list Q :=
  let df := length_filter df in
  let df := select_features df in
  (df, weights df).

(** The total weight of the rows of one group. *)
Fixpoint group_weight (m : Z) (df : list row) (w : list Q) : Q :=
  match df, w with
  | r :: df', x :: w' =>
      ((if Z.eqb (membrane_ r) m then x else 0) + group_weight m df' w')%Q
  | _, _ => 0%Q
  end.

(** A column of a batch of examples or of an encoding. *)
Inductive column : Type :=
| Texts (l : list string)
| Ints (l : list Z)
| Ids (l : list (list nat)).

(** [d[key]] on a dict *)
Definition getitem {V} (d : Dict.dict V) (key : string) : result V :=
  match Dict.get key d with
  | Some v => Ok v
  | None => Raise (KeyError key)
  end.

(** [l[i]] on a list or a dataset; a negative index counts from the end. *)
Definition list_getitem {A} (l : list A) (i : Z) : result A :=
  let n := Z.of_nat (List.length l) in
  let k := if (i <? 0)%Z then (n + i)%Z else i in
  if ((0 <=? k) && (k <? n))%Z%bool then
    match nth_error l (Z.to_nat k) with
    | Some x => Ok x
    | None => Raise IndexError
    end
  else Raise IndexError.

Section FineTune.
(** [tokenizer(text, truncation=True, max_length=max_length)]: the encoding,
    a dict of columns. *)
Variable tokenizer : column -> nat -> result (Dict.dict column).

Definition preprocess_data (examples : Dict.dict column) (max_length : nat)
  : result (Dict.dict column) :=
  (text <-? getitem examples "Sequence" ;;
   encoding <-? tokenizer text max_length ;;
   labels <-? getitem examples "Membrane" ;;
   let encoding := Dict.set "labels" labels encoding in
   Ok encoding)%py.

(** The cell that shows one record of the encoded training split:
    [random_idx = random.randint(3, len(train))], then [train[random_idx]]. *)
Variables Env Gen : Type.
Variable raw : Gen -> nat.
Variable advance : Gen -> Gen.

Definition view_example {A} (train : list A) : M (Bench.state Env Gen) (Z * A) :=
  (random_idx <- Bench.random_randint raw advance 3 (Z.of_nat (List.length train)) ;;
   example <- lift (list_getitem train random_idx) ;;
   ret (random_idx, example))%py.

End FineTune.

End FineTune.

(** ** Concrete environments, used to run the definitions *)

Module Samples.
Import Bench.
Local Open Scope string_scope.

(** An endpoint that answers while the wall clock is set back by two
    seconds, and one that answers while it advances by a quarter second. *)
Definition stepped_back (p : unit) (d : payload) (e : Q) : result nat * Q :=
  (Ok 7%nat, (e - 2)%Q).

Definition quarter_second (p : unit) (d : payload) (e : Q) : result nat * Q :=
  (Ok 7%nat, (e + (1 # 4))%Q).

Definition at_five : Bench.state Q unit := {| env := 5%Q; gen := tt; sent := [] |}.

(** A table standing for [json.loads] on three request bodies. *)
Definition dq : string := String (ascii_of_nat 34) EmptyString.

Definition body_inputs : string :=
  "{" ++ dq ++ "inputs" ++ dq ++ ": " ++ dq ++ "MK<mask>V" ++ dq ++ "}".

Definition body_other_key : string :=
  "{" ++ dq ++ "sequence" ++ dq ++ ": " ++ dq ++ "MKV" ++ dq ++ "}".

Definition body_array : string := "[1]".

Definition loads_table (body : string) : result Inference.json :=
  if String.eqb body body_inputs
  then Ok (Inference.JObj [("inputs", Inference.JStr "MK<mask>V")])
  else if String.eqb body body_other_key
  then Ok (Inference.JObj [("sequence", Inference.JStr "MKV")])
  else if String.eqb body body_array
  then Ok (Inference.JArr [Inference.JInt 1])
  else Raise JSONDecodeError.

(** A toy tokenizer: character codes, cut or padded (with 1) to the length. *)
Definition toy_encode_plus (t : unit) (text : Inference.json) (max_length : nat)
  : result (list nat * list nat) :=
  match text with
  | Inference.JStr s =>
      let ids := map nat_of_ascii (list_ascii_of_string s) in
      Ok (firstn max_length (ids ++ repeat 1%nat max_length),
          firstn max_length (map (fun _ => 1%nat) ids ++ repeat 0%nat max_length))
  | _ => Raise ValueError
  end.

Definition toy_call_model (m : unit) (ids attention : list nat)
  : result (list (list Q)) :=
  Ok (map (fun _ => [0; 1; 0]%Q) ids).

(** A monitoring service whose third answer is the first with a datapoint. *)
Definition one_datapoint : datapoint :=
  {| SampleCount := 3; Average := 2500; ext_p50 := 2000; ext_p90 := 4000;
     ext_p95 := 4500; ext_p100 := 5000 |}.

Definition third_answer (q : query) (k : nat) : list datapoint :=
  if (k <? 2)%nat then [] else [one_datapoint].

Definition never_ready (q : query) (k : nat) : list datapoint := [].

Definition sample_query : query :=
  {| EndpointName := "esm2-inf2"; StartTime := 0; EndTime := 360; Period := 360 |}.

(** A hosting service that refuses to delete the endpoint called "inf2". *)
Definition refuse_inf2 (p : string) (c : nat) : result unit * nat :=
  if String.eqb p "inf2" then (Raise (ServiceError 400), S c) else (Ok tt, S c).

Definition delete_any (p : string) (c : nat) : result unit * nat := (Ok tt, S c).

Definition both_deployed : Cleanup.state nat string :=
  {| Cleanup.namespace := [("inf2_predictor", "inf2"); ("g5_predictor", "g5")];
     Cleanup.cloud := 0%nat; Cleanup.attempted := [] |}.

(** A random generator that counts: raw draws 0, 1, 2, ... *)
Definition counter_raw (g : nat) : nat := g.
Definition counter_advance (g : nat) : nat := S g.

Definition gen_at (g : nat) : Bench.state unit nat :=
  {| env := tt; gen := g; sent := [] |}.

(** An endpoint that fails every second invocation, on a clock that ticks
    once per invocation; a two-sequence dataset; a pool whose workers
    finish out of order. *)
Definition tick_clock (e : nat) : Q := inject_Z (Z.of_nat e).

Definition flaky_endpoint (p : unit) (d : payload) (e : nat) : result nat * nat :=
  (if Nat.even e then Ok 7%nat else Raise (ServiceError 500), S e).

Definition two_sequences : list string := ["MKTAYIAK"; "GHIK"].

Definition out_of_order (k : nat) : nat := S k.

(** An endpoint that always answers, on the clock that ticks once per
    invocation, and a dataset whose third sequence is empty. *)
Definition always_answers (p : unit) (d : payload) (e : nat) : result nat * nat :=
  (Ok 7%nat, S e).

Definition third_empty : list string := ["MKV"; "MKV"; ""].

(** An interleaving of two threads in which the second request overtakes
    the first, and the third is started before the first is answered. *)
Definition overlapping (k : nat) : nat := nth k [0; 0; 1; 1; 2; 2]%nat 0%nat.

Definition fresh : Bench.state nat nat := {| env := 0%nat; gen := 4%nat; sent := [] |}.

Definition three_requests : list payload :=
  [{| inputs := "MKTAY<mask>AK" |}; {| inputs := "MKTAYIA<mask>" |};
   {| inputs := "M<mask>TAYIAK" |}].

Definition after_three : Bench.state nat nat :=
  {| env := 0%nat; gen := 10%nat; sent := [] |}.

(** Kernels in which only some of the predictors were deployed. *)
Definition only_g5 : Cleanup.state nat string :=
  {| Cleanup.namespace := [("g5_predictor", "g5")];
     Cleanup.cloud := 0%nat; Cleanup.attempted := [] |}.

Definition only_inf2 : Cleanup.state nat string :=
  {| Cleanup.namespace := [("inf2_predictor", "inf2")];
     Cleanup.cloud := 0%nat; Cleanup.attempted := [] |}.

(** A small masked-language setting: six tokens, a tokenizer that knows the
    mask token, a model with one row of six logits per position, and a step in
    place of the sigmoid. *)
Definition small_vocab : list (string * nat) :=
  [("<cls>", 0); ("<pad>", 1); ("<eos>", 2); ("<mask>", 3); ("A", 4); ("K", 5)]%nat.

Fixpoint mask_scan (fuel : nat) (s : string) : list nat :=
  match fuel with
  | O => []
  | S fuel' =>
      match s with
      | EmptyString => []
      | String c s' =>
          if String.prefix "<mask>" s
          then 3%nat :: mask_scan fuel' (substring 5 (String.length s') s')
          else (4 + nat_of_ascii c mod 2)%nat :: mask_scan fuel' s'
      end
  end.

Definition mask_encode_plus (t : unit) (text : Inference.json) (max_length : nat)
  : result (list nat * list nat) :=
  match text with
  | Inference.JStr s =>
      let ids := (0%nat :: mask_scan (String.length s) s ++ [2%nat])%list in
      Ok (firstn max_length (ids ++ repeat 1%nat max_length),
          firstn max_length (map (fun _ => 1%nat) ids ++ repeat 0%nat max_length))
  | _ => Raise ValueError
  end.

Definition small_model (m : unit) (ids attention : list nat) : result (list (list Q)) :=
  Ok (map (fun i => [inject_Z (Z.of_nat i) - 3; 0; 1; -1; 2; -2]%Q) ids).

Definition step (x : Q) : Q := if Qle_bool 0 x then 3 # 4 else 1 # 4.

Definition kernel_globals : Dict.dict (Inference.pyobj unit) :=
  [("neuron_model", Inference.PyModel tt)].

(** A few rows of the localization frame, and a tokenizer for batches that
    gives every text its length as only id. *)
Definition short_row : FineTune.raw_row :=
  {| FineTune.Sequence := "MKV"; FineTune.Kingdom := "Metazoa";
     FineTune.Membrane := 1; FineTune.Locations := [0; 1]%Z |}.

Definition long_row (membrane : Z) : FineTune.raw_row :=
  {| FineTune.Sequence := string_of_list_ascii (repeat "A"%char 100);
     FineTune.Kingdom := "Fungi";
     FineTune.Membrane := membrane; FineTune.Locations := [1; 0]%Z |}.

Definition small_frame : list FineTune.raw_row :=
  [long_row 0; short_row; long_row 1; long_row 0].

(** Rows at and just outside the two bounds of the length filter. *)
Definition sized_row (n : nat) (membrane : Z) : FineTune.raw_row :=
  {| FineTune.Sequence := string_of_list_ascii (repeat "A"%char n);
     FineTune.Kingdom := "Fungi";
     FineTune.Membrane := membrane; FineTune.Locations := [1; 0]%Z |}.

Definition bounds_frame : list FineTune.raw_row :=
  [sized_row 99 0; sized_row 100 0; sized_row 512 1; sized_row 513 1].

Definition length_tokenizer (text : FineTune.column) (max_length : nat)
  : result (Dict.dict FineTune.column) :=
  match text with
  | FineTune.Texts l =>
      Ok [("input_ids", FineTune.Ids (map (fun s => [Nat.min max_length (String.length s)]) l));
          ("attention_mask", FineTune.Ids (map (fun _ => [1%nat]) l))]
  | _ => Raise ValueError
  end.

Definition small_batch : Dict.dict FineTune.column :=
  [("Sequence", FineTune.Texts ["MKV"; "MKTAYIAK"]);
   ("Kingdom", FineTune.Texts ["Metazoa"; "Fungi"]);
   ("Membrane", FineTune.Ints [1; 0]%Z)].

End Samples.

(* ===================================================================== *)
(** * Part II: properties                                                 *)
(* ===================================================================== *)

Import Bench Samples.

Local Open Scope string_scope.
Local Open Scope nat_scope.
Unset Implicit Arguments.

Ltac run_py :=
  repeat (cbv beta iota delta
            [bind ret raise lift try_except rbind fst snd time_time] in *; cbn [fst snd] in *).

(** ** Percentiles reported by [benchmark] *)

Module PercentileFacts.

(** What the three reported numbers are, for any list of latencies. *)
Lemma percentiles_unfold (l : list Q) (q50 q95 q99 : Q) :
  quantile (slice_from l (-10000)) (50 # 100) = Ok q50 ->
  quantile (slice_from l (-10000)) (95 # 100) = Ok q95 ->
  quantile (slice_from l (-10000)) (99 # 100) = Ok q99 ->
  percentiles l = Ok (q50 * 1000, q95 * 1000, q99 * 1000)%Q.
Proof.
  intros H50 H95 H99. unfold percentiles. rewrite H50, H95, H99. reflexivity.
Qed.

Lemma slice_from_short {A} (l : list A) (n : Z) :
  (Z.of_nat (List.length l) <= n)%Z -> slice_from l (- n) = l.
Proof.
  intros H. unfold slice_from.
  destruct (0 <=? - n)%Z eqn:E.
  - apply Z.leb_le in E.
    assert (List.length l = 0%nat) by lia.
    destruct l; [now rewrite skipn_nil | discriminate].
  - rewrite Z.opp_involutive.
    replace (List.length l - Z.to_nat n)%nat with 0%nat by lia. reflexivity.
Qed.

(** Up to ten thousand latencies the slice is the whole list. *)
Lemma percentiles_short (l : list Q) (q50 q95 q99 : Q) :
  (Z.of_nat (List.length l) <= 10000)%Z ->
  quantile l (50 # 100) = Ok q50 ->
  quantile l (95 # 100) = Ok q95 ->
  quantile l (99 # 100) = Ok q99 ->
  percentiles l = Ok (q50 * 1000, q95 * 1000, q99 * 1000)%Q.
Proof.
  intros Hlen H50 H95 H99. apply percentiles_unfold;
    change (-10000)%Z with (Z.opp 10000); rewrite slice_from_short; assumption.
Qed.

(** C1 (the code's own labels against its constants): a run of two requests
    with latencies of 1 s and 2 s.  The value printed as the 50th percentile
    is the 0.50 quantile in milliseconds (1500), but the value printed as
    the 90th percentile is 1950, the 0.95 quantile, where the 0.90 quantile
    is 1900, and the value printed as the 95th percentile is 1990, the 0.99
    quantile, where the 0.95 quantile is 1950. *)
Theorem percentiles_two_requests :
  exists p50 p90 p95 q50 q90 q95 : Q,
    percentiles [1; 2]%Q = Ok (p50, p90, p95) /\
    quantile [1; 2]%Q (50 # 100) = Ok q50 /\
    quantile [1; 2]%Q (90 # 100) = Ok q90 /\
    quantile [1; 2]%Q (95 # 100) = Ok q95 /\
    (p50 == q50 * 1000 /\ p50 == 1500)%Q /\
    (q90 * 1000 == 1900 /\ p90 == 1950 /\ ~ p90 == q90 * 1000)%Q /\
    (q95 * 1000 == 1950 /\ p95 == 1990 /\ ~ p95 == q95 * 1000)%Q.
Proof.
  do 6 eexists.
  split; [vm_compute; reflexivity |].
  split; [vm_compute; reflexivity |].
  split; [vm_compute; reflexivity |].
  split; [vm_compute; reflexivity |].
  repeat split; try (vm_compute; reflexivity);
    intro H; vm_compute in H; discriminate.
Qed.

End PercentileFacts.

(** ** [inference_latency] *)

Module LatencyFacts.

Section LatencyFacts.
Variables Env Gen Response : Type.
Variable wall_clock : Env -> Q.

Local Notation state := (Bench.state Env Gen).
Local Notation inference_latency := (@Bench.inference_latency Env wall_clock Response Gen).

(** One run of [inference_latency], whatever the callable does. *)
Lemma inference_latency_run (model : payload -> M state Response) inputs s :
  inference_latency model inputs s =
    (Ok {| latency := wall_clock (env (snd (model inputs s))) - wall_clock (env s);
           error := is_raise (fst (model inputs s));
           result_ := outcome_field (fst (model inputs s)) |},
     snd (model inputs s)).
Proof.
  unfold Bench.inference_latency. run_py.
  destruct (model inputs s) as [[r | e] s']; reflexivity.
Qed.

(** C2, amended: [inference_latency] never raises.  When the call raises
    the record has [error] set and the empty list as result; when it
    returns, [error] is clear and the result is the call's.  The latency
    is the difference of the two clock readings, and it is non-negative
    when the second reading is not below the first. *)
Theorem inference_latency_never_raises (model : payload -> M state Response) inputs s :
  exists rec,
    inference_latency model inputs s = (Ok rec, snd (model inputs s)) /\
    (forall r, fst (model inputs s) = Ok r ->
               error rec = false /\ result_ rec = Returned r) /\
    (forall e, fst (model inputs s) = Raise e ->
               error rec = true /\ result_ rec = EmptyList Response) /\
    latency rec = (wall_clock (env (snd (model inputs s))) - wall_clock (env s))%Q /\
    (wall_clock (env s) <= wall_clock (env (snd (model inputs s))) ->
     0 <= latency rec)%Q.
Proof.
  eexists. split; [apply inference_latency_run |].
  cbn [latency error result_].
  repeat split.
  - rewrite H. reflexivity.
  - rewrite H. reflexivity.
  - rewrite H. reflexivity.
  - rewrite H. reflexivity.
  - intros Hle. unfold Qminus. rewrite <- Qle_minus_iff. exact Hle.
Qed.

End LatencyFacts.

(** C2 as stated fails: a call that succeeds while the clock is set back is
    measured with a negative latency. *)
Lemma inference_latency_clock_set_back :
  exists rec s',
    Bench.inference_latency (fun e : Q => e) (predict stepped_back tt)
                            {| inputs := "MK<mask>V" |} at_five = (Ok rec, s') /\
    error rec = false /\ (latency rec < 0)%Q.
Proof.
  do 2 eexists. split; [vm_compute; reflexivity |].
  split; [reflexivity | reflexivity].
Qed.

Lemma inference_latency_never_raises_witness :
  exists rec,
    fst (Bench.inference_latency (fun e : Q => e) (predict quarter_second tt)
                                 {| inputs := "MK<mask>V" |} at_five) = Ok rec /\
    (0 <= latency rec)%Q.
Proof.
  destruct (inference_latency_never_raises _ _ _ (fun e : Q => e) (predict quarter_second tt)
              {| inputs := "MK<mask>V" |} at_five) as (rec & Hrun & _ & _ & _ & Hpos).
  exists rec. split.
  - rewrite Hrun. reflexivity.
  - apply Hpos. vm_compute. discriminate.
Defined.

End LatencyFacts.

(** ** Association lists as dicts *)

Module DictFacts.

Section DictFacts.
Variable V : Type.
Implicit Types (d : Dict.dict V) (k : string).

Lemma get_del_same k d : Dict.get k (Dict.del k d) = None.
Proof.
  induction d as [| [k' v] d IH]; [reflexivity |].
  unfold Dict.del in *. cbn [filter fst].
  destruct (String.eqb k k') eqn:E; cbn [negb]; [exact IH |].
  cbn [Dict.get]. rewrite E. exact IH.
Qed.

Lemma get_del_other k k' d :
  k' <> k -> Dict.get k' (Dict.del k d) = Dict.get k' d.
Proof.
  intros Hne. induction d as [| [k0 v] d IH]; [reflexivity |].
  unfold Dict.del in *. cbn [filter fst].
  destruct (String.eqb k k0) eqn:E; cbn [negb Dict.get].
  - apply String.eqb_eq in E. subst k0.
    destruct (String.eqb k' k) eqn:E'; [apply String.eqb_eq in E'; contradiction |].
    exact IH.
  - rewrite IH. reflexivity.
Qed.

Lemma del_absent k d : Dict.get k d = None -> Dict.del k d = d.
Proof.
  induction d as [| [k' v] d IH]; [reflexivity |].
  cbn [Dict.get]. unfold Dict.del in *. cbn [filter fst].
  destruct (String.eqb k k'); [discriminate |].
  intros H. cbn [negb]. now rewrite IH.
Qed.
End DictFacts.

End DictFacts.

(** ** The handlers of [inference.py] *)

Module InferenceFacts.
Import Inference.

Section InferenceFacts.
Variable json_loads : string -> result json.
Variables Tokenizer NeuronModel : Type.
Variable encode_plus : Tokenizer -> json -> nat -> result (list nat * list nat).
Variable mask_token_id : Tokenizer -> nat.
Variable get_vocab : Tokenizer -> list (string * nat).
Variable call_model : NeuronModel -> list nat -> list nat -> result (list (list Q)).
Variable sigmoid : Q -> Q.

Local Notation input_fn := (Inference.input_fn json_loads).
Local Notation predict_fn :=
  (Inference.predict_fn encode_plus mask_token_id get_vocab call_model sigmoid).

(** The script binds no global called [neuron_model]. *)
Lemma neuron_model_unbound :
  load_global (inference_py_globals NeuronModel) "neuron_model"
  = Raise (NameError "neuron_model").
Proof. reflexivity. Qed.

(** In the script as written [predict_fn] stops at the read of
    [neuron_model], unless the tokenizer has raised before. *)
Lemma predict_fn_in_script input_data mt :
  predict_fn (inference_py_globals NeuronModel) input_data mt =
    match encode_plus (snd mt) input_data 128 with
    | Ok _ => Raise (NameError "neuron_model")
    | Raise e => Raise e
    end.
Proof.
  destruct mt as [m t]. unfold Inference.predict_fn. cbn [snd].
  destruct (encode_plus t input_data 128) as [tok | e]; reflexivity.
Qed.

(** C3 on the code: for a body [{"inputs": s}], [input_fn] extracts [s],
    but [predict_fn] applied to [s] in [inference.py] returns no mapping:
    it raises, with [NameError] for [neuron_model] as soon as the
    tokenizer accepts [s]. *)
Theorem predict_fn_raises_name_error body s mt :
  json_loads body = Ok (JObj [("inputs", JStr s)]) ->
  input_fn body JSON_CONTENT_TYPE = Ok (JStr s) /\
  is_raise (predict_fn (inference_py_globals NeuronModel) (JStr s) mt) = true /\
  (forall tok, encode_plus (snd mt) (JStr s) 128 = Ok tok ->
               predict_fn (inference_py_globals NeuronModel) (JStr s) mt
               = Raise (NameError "neuron_model")).
Proof.
  intros Hbody. split; [| split].
  - unfold Inference.input_fn.
    rewrite String.eqb_refl, Hbody. reflexivity.
  - rewrite predict_fn_in_script.
    destruct (encode_plus (snd mt) (JStr s) 128); reflexivity.
  - intros tok Htok. rewrite predict_fn_in_script, Htok. reflexivity.
Qed.

(** C9, amended: when the parsed body is an object without the key
    ["inputs"], [input_fn] returns that object, untouched; when the key is
    there it returns its value, and the object loses that entry and no
    other; when the parsed body is an array the [pop] call raises
    [TypeError], and when it is any other value that is not an object the
    call raises [AttributeError]; in both cases the parsed value is left as
    it was. *)
Theorem input_fn_pop_default body v :
  json_loads body = Ok v ->
  match v with
  | JObj d =>
      match Dict.get "inputs" d with
      | None =>
          input_fn body JSON_CONTENT_TYPE = Ok (JObj d) /\
          snd (pop v "inputs" v) = JObj d
      | Some x =>
          input_fn body JSON_CONTENT_TYPE = Ok x /\
          exists d', snd (pop v "inputs" v) = JObj d' /\
                     Dict.get "inputs" d' = None /\
                     forall k, k <> "inputs" -> Dict.get k d' = Dict.get k d
      end
  | JArr _ =>
      input_fn body JSON_CONTENT_TYPE = Raise TypeError /\
      snd (pop v "inputs" v) = v
  | JNull | JBool _ | JInt _ | JFloat _ | JStr _ =>
      input_fn body JSON_CONTENT_TYPE = Raise AttributeError /\
      snd (pop v "inputs" v) = v
  end.
Proof.
  intros Hbody. unfold Inference.input_fn.
  rewrite String.eqb_refl, Hbody. cbn [rbind].
  destruct v; try (split; reflexivity).
  unfold pop.
  destruct (Dict.get "inputs" d) as [x |] eqn:Hget; cbn [fst snd].
  - split; [reflexivity |].
    exists (Dict.del "inputs" d). split; [reflexivity |]. split.
    + apply DictFacts.get_del_same.
    + intros k Hk. now apply DictFacts.get_del_other.
  - split; reflexivity.
Qed.

End InferenceFacts.

(** C9 as stated fails on a parsed value that is not an object: for the body
    [[1]] nothing is returned, [list.pop] rejects the two arguments. *)
Lemma input_fn_array_raises :
  loads_table body_array = Ok (JArr [JInt 1]) /\
  Inference.input_fn loads_table body_array JSON_CONTENT_TYPE = Raise TypeError /\
  Inference.input_fn loads_table body_array JSON_CONTENT_TYPE <> Ok (JArr [JInt 1]).
Proof.
  split; [reflexivity |]. split; [reflexivity | discriminate].
Qed.

Lemma input_fn_pop_default_witness :
  Inference.input_fn loads_table body_other_key JSON_CONTENT_TYPE
  = Ok (JObj [("sequence", JStr "MKV")]).
Proof.
  assert (H : loads_table body_other_key = Ok (JObj [("sequence", JStr "MKV")]))
    by reflexivity.
  exact (proj1 (input_fn_pop_default loads_table body_other_key _ H)).
Defined.

Lemma predict_fn_raises_name_error_witness :
  Inference.predict_fn toy_encode_plus (fun _ => 32%nat) (fun _ => [])
                       toy_call_model (fun x => x)
                       (inference_py_globals unit) (JStr "MK<mask>V") (tt, tt)
  = Raise (NameError "neuron_model").
Proof.
  assert (H : loads_table body_inputs = Ok (JObj [("inputs", JStr "MK<mask>V")]))
    by reflexivity.
  destruct (predict_fn_raises_name_error loads_table _ _ toy_encode_plus
              (fun _ => 32%nat) (fun _ => []) toy_call_model (fun x => x)
              body_inputs _ (tt, tt) H)
    as (_ & _ & Hname).
  eapply Hname. reflexivity.
Defined.

End InferenceFacts.

(** ** [predict_fn] with its model in scope *)

Module PredictFacts.
Import Inference.

Lemma round_half_even_bounds (q : Q) (n : Z) :
  (0 <= q)%Q -> (q <= inject_Z n)%Q -> (0 <= round_half_even q <= n)%Z.
Proof.
  intros H0 Hn.
  assert (Hf0 : (0 <= Qfloor q)%Z).
  { rewrite <- (Qfloor_Z 0). now apply Qfloor_resp_le. }
  assert (Hfn : (Qfloor q <= n)%Z).
  { rewrite <- (Qfloor_Z n). now apply Qfloor_resp_le. }
  assert (Hup : (inject_Z (Qfloor q) < q)%Q -> (Qfloor q + 1 <= n)%Z).
  { intros Hlt. assert (Hz : (Qfloor q < n)%Z); [| lia].
    rewrite Zlt_Qlt. eapply Qlt_le_trans; eassumption. }
  unfold round_half_even.
  destruct (Qcompare_spec (q - inject_Z (Qfloor q)) (1 # 2)) as [He | Hl | Hg].
  - destruct (Z.even (Qfloor q)); [lia |].
    split; [lia |]. apply Hup. lra.
  - lia.
  - split; [lia |]. apply Hup. lra.
Qed.

(** Rounding to three decimals keeps a probability a probability. *)
Lemma round3_unit (v : Q) : (0 <= v <= 1)%Q -> (0 <= round3 v <= 1)%Q.
Proof.
  intros [H0 H1]. unfold round3.
  destruct (round_half_even_bounds (v * 1000) 1000) as [Hz0 Hz1].
  - lra.
  - change (inject_Z 1000) with 1000%Q. lra.
  - rewrite Zle_Qle in Hz0, Hz1.
    change (inject_Z 1000) with 1000%Q in Hz1. change (inject_Z 0) with 0%Q in Hz0.
    split.
    + apply Qle_shift_div_l; [reflexivity | lra].
    + apply Qle_shift_div_r; [reflexivity | lra].
Qed.

Lemma set_fresh {V} (k : string) (v : V) (d : Dict.dict V) :
  ~ In k (Dict.keys d) -> Dict.set k v d = (d ++ [(k, v)])%list.
Proof.
  induction d as [| [k' v'] d IH]; intros Hfresh; [reflexivity |].
  cbn [Dict.set app]. destruct (String.eqb_spec k k') as [-> | _].
  - exfalso. apply Hfresh. now left.
  - rewrite IH; [reflexivity |]. intros Hin. apply Hfresh. now right.
Qed.

Lemma firstn_snoc {A} : forall (l : list A) (i : nat) (x : A),
  nth_error l i = Some x -> firstn (S i) l = (firstn i l ++ [x])%list.
Proof.
  induction l as [| y l IH]; intros [| i] x Hx; try discriminate.
  - now injection Hx as ->.
  - cbn [firstn app]. f_equal. now apply IH.
Qed.

Lemma nodup_not_in_firstn {A} : forall (l : list A) (i : nat) (x : A),
  NoDup l -> nth_error l i = Some x -> ~ In x (firstn i l).
Proof.
  induction l as [| y l IH]; intros [| i] x Hnd Hx; try discriminate.
  - intros [].
  - inversion Hnd as [| ? ? Hy Hnd']; subst. cbn [firstn nth_error] in *.
    intros [-> | Hin].
    + apply Hy. eapply nth_error_In; eassumption.
    + eapply IH; eassumption.
Qed.

Lemma skipn_cons_nth {A} : forall (l : list A) (i : nat) (x : A),
  nth_error l i = Some x -> skipn i l = x :: skipn (S i) l.
Proof.
  induction l as [| y l IH]; intros [| i] x Hx; try discriminate.
  - now injection Hx as ->.
  - cbn [skipn nth_error] in *. now apply IH.
Qed.

Lemma in_split_first (x : nat) : forall l : list nat,
  In x l -> exists before after, l = (before ++ x :: after)%list /\ ~ In x before.
Proof.
  induction l as [| y l IH]; intros Hin; [contradiction |].
  destruct (Nat.eq_dec y x) as [-> | Hne].
  - exists [], l. split; [reflexivity | intros []].
  - destruct Hin as [-> | Hin]; [contradiction |].
    destruct (IH Hin) as (before & after & -> & Hnot).
    exists (y :: before), after. split; [reflexivity |].
    intros [Heq | Hb]; [contradiction | now apply Hnot].
Qed.

(** [round_half_even] is the nearest integer, the even one at a tie. *)
Lemma round_half_even_spec (q : Q) :
  (inject_Z (round_half_even q) - (1 # 2) <= q <= inject_Z (round_half_even q) + (1 # 2))%Q /\
  ((q == inject_Z (round_half_even q) - (1 # 2) \/
    q == inject_Z (round_half_even q) + (1 # 2))%Q ->
   Z.even (round_half_even q) = true).
Proof.
  pose proof (Qfloor_le q) as Hlo. pose proof (Qlt_floor q) as Hhi.
  rewrite inject_Z_plus in Hhi. change (inject_Z 1) with 1%Q in Hhi.
  unfold round_half_even.
  destruct (Qcompare_spec (q - inject_Z (Qfloor q)) (1 # 2)) as [He | Hl | Hg].
  - destruct (Z.even (Qfloor q)) eqn:Heven.
    + split; [lra | intros _; exact Heven].
    + rewrite inject_Z_plus. change (inject_Z 1) with 1%Q.
      split; [lra |]. intros _.
      change (Qfloor q + 1)%Z with (Z.succ (Qfloor q)).
      rewrite Z.even_succ, <- Z.negb_even, Heven. reflexivity.
  - split; [lra |]. intros [H | H]; lra.
  - rewrite inject_Z_plus. change (inject_Z 1) with 1%Q.
    split; [lra |]. intros [H | H]; lra.
Qed.

Lemma round3_rounded (v : Q) : rounded3 v (round3 v).
Proof.
  exists (round_half_even (v * 1000)). split; [reflexivity |].
  apply round_half_even_spec.
Qed.

Section PredictFacts.
Variables Tokenizer NeuronModel : Type.
Variable encode_plus : Tokenizer -> json -> nat -> result (list nat * list nat).
Variable mask_token_id : Tokenizer -> nat.
Variable get_vocab : Tokenizer -> list (string * nat).
Variable call_model : NeuronModel -> list nat -> list nat -> result (list (list Q)).
Variable sigmoid : Q -> Q.

(** The comprehension appends one entry per value of the row: the token at
    the position of the value, with the value rounded. *)
Lemma comprehension_spec (vocab_keys : list string) :
  NoDup vocab_keys ->
  forall (probs : list Q) (idx : nat) (acc : Dict.dict Q),
    idx + List.length probs <= List.length vocab_keys ->
    Dict.keys acc = firstn idx vocab_keys ->
    comprehension vocab_keys idx probs acc
    = Ok (acc ++ combine (skipn idx vocab_keys) (map round3 probs))%list.
Proof.
  intros Hnd. induction probs as [| v probs IH]; intros idx acc Hlen Hkeys.
  - cbn [map comprehension]. rewrite combine_nil, app_nil_r. reflexivity.
  - cbn [map comprehension List.length] in *.
    destruct (nth_error vocab_keys idx) as [tok |] eqn:Htok;
      [| apply nth_error_None in Htok; lia].
    rewrite set_fresh by (rewrite Hkeys; now apply nodup_not_in_firstn).
    rewrite IH.
    + rewrite (skipn_cons_nth _ _ _ Htok). cbn [combine].
      rewrite <- app_assoc. reflexivity.
    + lia.
    + unfold Dict.keys in *. rewrite map_app, Hkeys. cbn [map fst].
      symmetry. now apply firstn_snoc.
Qed.

Lemma nonzero_from_bounds (mask_id : nat) : forall (ids : list nat) (i : nat),
  Forall (fun j => i <= j < i + List.length ids) (nonzero_from i mask_id ids) /\
  (In mask_id ids -> nonzero_from i mask_id ids <> []).
Proof.
  induction ids as [| t ids IH]; intros i; [split; [constructor | intros []] |].
  destruct (IH (S i)) as [Hall Hne]. cbn [nonzero_from List.length]. split.
  - assert (Hall' : Forall (fun j => i <= j < i + S (List.length ids))
                           (nonzero_from (S i) mask_id ids)).
    { eapply Forall_impl; [| exact Hall]. cbn. intros j Hj. lia. }
    destruct (Nat.eqb t mask_id); [constructor; [lia | exact Hall'] | exact Hall'].
  - intros [-> | Hin].
    + rewrite Nat.eqb_refl. discriminate.
    + destruct (Nat.eqb t mask_id); [discriminate | now apply Hne].
Qed.

Lemma index_rows_ok (output : list (list Q)) : forall idx : list nat,
  Forall (fun j => j < List.length output) idx ->
  exists rows, index_rows output idx = Ok rows /\
               List.length rows = List.length idx /\
               Forall (fun row => In row output) rows.
Proof.
  induction idx as [| i idx IH]; intros Hall; [exists []; repeat split; constructor |].
  inversion Hall as [| ? ? Hi Hall']; subst.
  destruct (IH Hall') as (rows & Hrows & Hlen & Hin).
  cbn [index_rows].
  destruct (nth_error output i) as [row |] eqn:Hrow;
    [| apply nth_error_None in Hrow; lia].
  exists (row :: rows). rewrite Hrows. cbn. split; [reflexivity |].
  split; [now rewrite Hlen |]. constructor; [| exact Hin].
  eapply nth_error_In; eassumption.
Qed.

(** Without a mask token among the input ids there is no row to read. *)
Lemma predict_fn_without_mask (globals : Dict.dict (pyobj NeuronModel))
      (m model_bert : NeuronModel) (tokenizer : Tokenizer) (input_data : json)
      (ids attention : list nat) (output : list (list Q)) :
  Dict.get "neuron_model" globals = Some (PyModel m) ->
  encode_plus tokenizer input_data 128 = Ok (ids, attention) ->
  call_model m ids attention = Ok output ->
  nonzero_from 0 (mask_token_id tokenizer) ids = [] ->
  predict_fn encode_plus mask_token_id get_vocab call_model sigmoid
             globals input_data (model_bert, tokenizer) = Raise IndexError.
Proof.
  intros Hglobal Htok Hcall Hnone.
  unfold predict_fn, load_global. rewrite Htok. cbn [rbind fst snd].
  rewrite Hglobal. cbn [rbind call_global]. rewrite Hcall. cbn [rbind].
  rewrite Hnone. reflexivity.
Qed.

End PredictFacts.

End PredictFacts.

(** ** The polling loop of [benchmark] *)

Module PollFacts.

Section PollFacts.
Variable cloudwatch : query -> nat -> list datapoint.
Variable q : query.

Local Notation poll_loop := (Bench.poll_loop cloudwatch q).

(** While the answers are empty the loop goes on to the next query. *)
Lemma poll_loop_skip fuel k :
  cloudwatch q k = [] -> poll_loop (S fuel) k = poll_loop fuel (S k).
Proof. intros H. cbn [Bench.poll_loop]. now rewrite H. Qed.

Lemma poll_loop_from fuel : forall k j,
  (forall i, k <= i < k + j -> cloudwatch q i = []) ->
  cloudwatch q (k + j) <> [] ->
  j < fuel ->
  exists r, poll_loop fuel k = Some r /\ polls r = S (k + j).
Proof.
  induction fuel as [| fuel IH]; intros k j Hempty Hdata Hfuel; [lia |].
  destruct j as [| j].
  - rewrite Nat.add_0_r in *. cbn [Bench.poll_loop].
    destruct (cloudwatch q k) as [| dp rest]; [contradiction |].
    eexists. split; reflexivity.
  - rewrite poll_loop_skip by (apply Hempty; lia).
    destruct (IH (S k) j) as (r & Hr & Hp).
    + intros i Hi. apply Hempty. lia.
    + now replace (S k + j) with (k + S j) by lia.
    + lia.
    + exists r. split; [exact Hr |]. rewrite Hp. f_equal. lia.
Qed.

Lemma poll_loop_out_of_fuel fuel : forall k,
  (forall i, k <= i < k + fuel -> cloudwatch q i = []) ->
  poll_loop fuel k = None.
Proof.
  induction fuel as [| fuel IH]; intros k Hempty; [reflexivity |].
  rewrite poll_loop_skip by (apply Hempty; lia).
  apply IH. intros i Hi. apply Hempty. lia.
Qed.

Lemma poll_loop_some fuel : forall k r,
  poll_loop fuel k = Some r ->
  k < polls r <= k + fuel /\
  cloudwatch q (polls r - 1) <> [] /\
  forall i, k <= i < polls r - 1 -> cloudwatch q i = [].
Proof.
  induction fuel as [| fuel IH]; intros k r Hrun; [discriminate |].
  cbn [Bench.poll_loop] in Hrun.
  destruct (cloudwatch q k) as [| dp rest] eqn:Hk.
  - apply IH in Hrun. destruct Hrun as (Hb & Hd & He).
    split; [lia |]. split; [exact Hd |].
    intros i Hi. destruct (Nat.eq_dec i k) as [-> | Hne]; [exact Hk |].
    apply He. lia.
  - injection Hrun as <-. cbn [polls].
    split; [lia |]. split.
    + replace (S k - 1) with k by lia. rewrite Hk. discriminate.
    + intros i Hi. lia.
Qed.

(** C6: the loop ends at the first answer that has a datapoint, having
    slept thirty seconds before each query; it is still polling as long as
    the answers are empty; and when no answer ever has a datapoint it does
    not end, whatever the number of iterations allowed. *)
Theorem poll_loop_ends_at_first_datapoint :
  (forall n,
      (forall i, i < n -> cloudwatch q i = []) ->
      cloudwatch q n <> [] ->
      (forall fuel, fuel <= n -> poll_loop fuel 0 = None) /\
      (forall fuel, n < fuel ->
         exists r, poll_loop fuel 0 = Some r /\ polls r = S n /\
                   seconds_waited r = (30 * (Z.of_nat n + 1))%Z)) /\
  (forall fuel r,
      poll_loop fuel 0 = Some r ->
      cloudwatch q (polls r - 1) <> [] /\
      forall i, i < polls r - 1 -> cloudwatch q i = []) /\
  ((forall i, cloudwatch q i = []) -> forall fuel, poll_loop fuel 0 = None).
Proof.
  split; [| split].
  - intros n Hempty Hdata. split.
    + intros fuel Hfuel. apply poll_loop_out_of_fuel.
      intros i Hi. apply Hempty. lia.
    + intros fuel Hfuel.
      destruct (poll_loop_from fuel 0 n) as (r & Hr & Hp);
        [intros i Hi; apply Hempty; lia | exact Hdata | exact Hfuel |].
      exists r. cbn [Nat.add] in Hp. split; [exact Hr |]. split; [exact Hp |].
      unfold seconds_waited. rewrite Hp. lia.
  - intros fuel r Hrun. apply poll_loop_some in Hrun.
    destruct Hrun as (_ & Hd & He). split; [exact Hd |].
    intros i Hi. apply He. lia.
  - intros Hnever fuel. apply poll_loop_out_of_fuel. intros i _. apply Hnever.
Qed.

End PollFacts.

Lemma poll_loop_ends_at_first_datapoint_witness :
  (exists r, Bench.poll_loop third_answer sample_query 5 0 = Some r /\ polls r = 3) /\
  Bench.poll_loop third_answer sample_query 2 0 = None /\
  (forall fuel, Bench.poll_loop never_ready sample_query fuel 0 = None).
Proof.
  assert (Hempty : forall i, i < 2 -> third_answer sample_query i = []).
  { intros i Hi. unfold third_answer.
    destruct (Nat.ltb_spec i 2) as [_ | Hge]; [reflexivity | lia]. }
  assert (Hdata : third_answer sample_query 2 <> []) by discriminate.
  destruct (proj1 (poll_loop_ends_at_first_datapoint third_answer sample_query)
              2 Hempty Hdata) as [Hbefore Hafter].
  split; [| split].
  - destruct (Hafter 5) as (r & Hr & Hp & _); [lia |]. exists r. split; assumption.
  - apply Hbefore. lia.
  - apply (proj2 (proj2 (poll_loop_ends_at_first_datapoint never_ready sample_query))).
    reflexivity.
Defined.

End PollFacts.

(** ** The cleanup cells *)

Module CleanupFacts.
Import Cleanup.

Section CleanupFacts.
Variables Cloud Predictor : Type.
Variable delete_endpoint_call : Predictor -> Cloud -> result unit * Cloud.

Local Notation state := (Cleanup.state Cloud Predictor).
Local Notation cleanup_deploy := (Cleanup.cleanup_deploy delete_endpoint_call).
Local Notation cleanup_finetune := (Cleanup.cleanup_finetune delete_endpoint_call).
Local Notation delete_endpoint := (Cleanup.delete_endpoint delete_endpoint_call).

Lemma try_except_pass (body : M state unit) s :
  fst (try_except body (@pass Cloud Predictor) s) = Ok tt.
Proof.
  unfold try_except, pass, ret.
  destruct (body s) as [[[] | e] s']; reflexivity.
Qed.

(** C7: whatever the deletion calls do, and whether or not the predictors
    are bound, neither cleanup cell raises. *)
Theorem cleanup_never_raises (s : state) :
  fst (cleanup_deploy s) = Ok tt /\ fst (cleanup_finetune s) = Ok tt.
Proof.
  split.
  - unfold Cleanup.cleanup_deploy. apply try_except_pass.
  - unfold Cleanup.cleanup_finetune. apply try_except_pass.
Qed.

(** C8: in the cell that deletes both endpoints, when the deletion of the
    inf2 endpoint raises, the deletion of the g5 endpoint is not
    attempted; it is attempted, right after, exactly when the first
    deletion returns. *)
Theorem cleanup_deploy_first_failure_skips_second (s : state) inf2 g5 :
  Dict.get "inf2_predictor" (namespace s) = Some inf2 ->
  Dict.get "g5_predictor" (namespace s) = Some g5 ->
  (forall e, fst (delete_endpoint_call inf2 (cloud s)) = Raise e ->
             attempted (snd (cleanup_deploy s)) = (attempted s ++ [inf2])%list /\
             cloud (snd (cleanup_deploy s)) = snd (delete_endpoint_call inf2 (cloud s))) /\
  (fst (delete_endpoint_call inf2 (cloud s)) = Ok tt ->
   attempted (snd (cleanup_deploy s)) = (attempted s ++ [inf2; g5])%list).
Proof.
  intros Hinf2 Hg5.
  unfold Cleanup.cleanup_deploy, try_except, bind, load_name, Cleanup.delete_endpoint,
    pass, ret.
  rewrite Hinf2.
  destruct (delete_endpoint_call inf2 (cloud s)) as [[[] | e1] c1] eqn:H1;
    cbn [fst snd namespace cloud attempted].
  - split; [intros e He; discriminate |]. intros _.
    rewrite Hg5. cbn [fst snd namespace cloud attempted].
    destruct (delete_endpoint_call g5 c1) as [[[] | e2] c2];
      cbn [snd attempted]; rewrite <- app_assoc; reflexivity.
  - split; [| intros He; discriminate]. intros e _. split; reflexivity.
Qed.

End CleanupFacts.

Lemma cleanup_deploy_first_failure_skips_second_witness :
  attempted (snd (Cleanup.cleanup_deploy refuse_inf2 both_deployed)) = ["inf2"] /\
  attempted (snd (Cleanup.cleanup_deploy delete_any both_deployed)) = ["inf2"; "g5"].
Proof.
  split.
  - exact (proj1 (proj1 (cleanup_deploy_first_failure_skips_second
                           _ _ refuse_inf2 both_deployed _ _ eq_refl eq_refl)
                        (ServiceError 400) eq_refl)).
  - exact (proj2 (cleanup_deploy_first_failure_skips_second
                    _ _ delete_any both_deployed _ _ eq_refl eq_refl) eq_refl).
Defined.

End CleanupFacts.

(** ** Strings: joining, cutting, counting occurrences *)

Module StringFacts.

Lemma append_empty_r (s : string) : s ++ "" = s.
Proof. induction s as [| a s IH]; [reflexivity |]. cbn. now rewrite IH. Qed.

Lemma append_assoc (a b c : string) : (a ++ b) ++ c = a ++ (b ++ c).
Proof. induction a as [| x a IH]; [reflexivity |]. cbn. now rewrite IH. Qed.

Lemma length_append (a b : string) :
  String.length (a ++ b) = String.length a + String.length b.
Proof. induction a as [| x a IH]; [reflexivity |]. cbn. now rewrite IH. Qed.

Lemma join_cons (x : string) (l : list string) : join (x :: l) = x ++ join l.
Proof.
  unfold join. destruct l as [| y l]; cbn [String.concat].
  - now rewrite append_empty_r.
  - reflexivity.
Qed.

Lemma chars_cons (a : ascii) (s : string) :
  chars (String a s) = String a "" :: chars s.
Proof. reflexivity. Qed.

Lemma join_chars (s : string) : join (chars s) = s.
Proof.
  induction s as [| a s IH]; [reflexivity |].
  rewrite chars_cons, join_cons, IH. reflexivity.
Qed.

Lemma length_chars (s : string) : List.length (chars s) = String.length s.
Proof.
  induction s as [| a s IH]; [reflexivity |].
  rewrite chars_cons. cbn. now rewrite IH.
Qed.

(** Writing [m] over the [k]-th character and joining. *)
Lemma join_replace_nth (m : string) : forall (t : string) (k : nat),
  k < String.length t ->
  exists pre c suf,
    t = pre ++ String c suf /\ String.length pre = k /\
    join (replace_nth k m (chars t)) = pre ++ m ++ suf.
Proof.
  induction t as [| a t IH]; intros k Hk; [cbn in Hk; lia |].
  destruct k as [| k].
  - exists "", a, t. rewrite chars_cons. cbn [replace_nth].
    rewrite join_cons, join_chars. repeat split.
  - destruct (IH k) as (pre & c & suf & Ht & Hlen & Hjoin); [cbn in Hk; lia |].
    exists (String a pre), c, suf. rewrite chars_cons. cbn [replace_nth].
    rewrite join_cons, Hjoin. cbn. rewrite Hlen, <- Ht. repeat split.
Qed.

Lemma length_string_of_list_ascii (l : list ascii) :
  String.length (string_of_list_ascii l) = List.length l.
Proof. induction l as [| a l IH]; [reflexivity |]. cbn. now rewrite IH. Qed.

Lemma string_of_list_ascii_app (l1 l2 : list ascii) :
  string_of_list_ascii (l1 ++ l2) = string_of_list_ascii l1 ++ string_of_list_ascii l2.
Proof. induction l1 as [| a l IH]; [reflexivity |]. cbn. now rewrite IH. Qed.

(** [s[:stop]] for a non-negative [stop] is a prefix of [s] of the length
    one expects. *)
Lemma str_slice_to_prefix (s : string) (stop : Z) :
  (0 <= stop)%Z ->
  String.length (str_slice_to s stop) = Nat.min (Z.to_nat stop) (String.length s) /\
  exists rest, s = str_slice_to s stop ++ rest.
Proof.
  intros Hstop. unfold str_slice_to, slice_to.
  destruct (Z.leb_spec 0 stop) as [_ | Hneg]; [| lia].
  split.
  - rewrite length_string_of_list_ascii, length_firstn.
    now rewrite <- (length_string_of_list_ascii (list_ascii_of_string s)),
      string_of_list_ascii_of_string.
  - exists (string_of_list_ascii (skipn (Z.to_nat stop) (list_ascii_of_string s))).
    rewrite <- string_of_list_ascii_app, firstn_skipn.
    now rewrite string_of_list_ascii_of_string.
Qed.

(** Occurrences of a pattern whose first character does not come back in
    the rest of it. *)
Section Occurrences.
Variable c0 : ascii.
Variable q0 : string.

Hypothesis q0_avoids : avoids c0 q0.

Local Notation pat := (String c0 q0).

Lemma prefix_head_mismatch (b : ascii) (s : string) :
  b <> c0 -> String.prefix pat (String b s) = false.
Proof.
  intros Hb. cbn [String.prefix].
  destruct (ascii_dec c0 b) as [-> | _]; [contradiction | reflexivity].
Qed.

(** Past characters that are not [c0], no occurrence starts. *)
Lemma occurrences_skip (q s : string) :
  avoids c0 q -> occurrences pat (q ++ s) = occurrences pat s.
Proof.
  induction q as [| b q IH]; intros Hq; [reflexivity |].
  destruct Hq as [Hb Hq]. cbn [append occurrences].
  rewrite prefix_head_mismatch by exact Hb. now rewrite IH.
Qed.

(** A match of a [c0]-free pattern that runs into a [c0] fits before it. *)
Lemma prefix_before (q : string) : forall (u x rest : string),
  avoids c0 q ->
  String.prefix q (u ++ String c0 rest) = true ->
  String.prefix q (u ++ x) = true.
Proof.
  induction q as [| b q IH]; intros u x rest Hq Hpre.
  - destruct (u ++ x); reflexivity.
  - destruct Hq as [Hb Hq]. destruct u as [| a u].
    + cbn [append String.prefix] in Hpre.
      destruct (ascii_dec b c0) as [-> | _]; [contradiction | discriminate].
    + cbn [append String.prefix] in *.
      destruct (ascii_dec b a) as [_ | _]; [| discriminate].
      now apply IH with (rest := rest).
Qed.

Lemma occurrences_zero_cons (a : ascii) (s : string) :
  occurrences pat (String a s) = 0 ->
  String.prefix pat (String a s) = false /\ occurrences pat s = 0.
Proof.
  cbn [occurrences].
  destruct (String.prefix pat (String a s)); [discriminate |].
  intros H. split; [reflexivity | exact H].
Qed.

(** Writing the pattern over one character of a text that is free of it
    leaves exactly one occurrence. *)
Lemma occurrences_overwrite : forall (pre : string) (c : ascii) (suf : string),
  occurrences pat (pre ++ String c suf) = 0 ->
  occurrences pat (pre ++ pat ++ suf) = 1.
Proof.
  induction pre as [| a pre IH]; intros c suf Hfree.
  - cbn [append] in *. apply occurrences_zero_cons in Hfree.
    destruct Hfree as [_ Hsuf].
    change (String c0 (q0 ++ suf)) with (pat ++ suf).
    cbn [occurrences append].
    assert (Hhere : String.prefix pat (String c0 (q0 ++ suf)) = true).
    { cbn [String.prefix].
      destruct (ascii_dec c0 c0) as [_ | Hne]; [| contradiction].
      clear. induction q0 as [| b q IHq]; [destruct suf; reflexivity |].
      cbn [append String.prefix].
      destruct (ascii_dec b b) as [_ | Hne]; [exact IHq | contradiction]. }
    rewrite Hhere, occurrences_skip by exact q0_avoids. now rewrite Hsuf.
  - cbn [append] in *. apply occurrences_zero_cons in Hfree.
    destruct Hfree as [Hhead Htail].
    cbn [occurrences]. rewrite (IH c suf Htail).
    destruct (String.prefix pat (String a (pre ++ String c0 (q0 ++ suf)))) eqn:Hpre;
      [| reflexivity].
    exfalso. cbn [String.prefix] in Hpre, Hhead.
    destruct (ascii_dec c0 a) as [_ | _]; [| discriminate].
    apply prefix_before with (x := String c suf) in Hpre; [| exact q0_avoids].
    congruence.
Qed.
End Occurrences.

Lemma mask_tail_avoids : avoids "<"%char "mask>".
Proof. cbn. repeat split; discriminate. Qed.

Lemma occurrences_mask (pre : string) (c : ascii) (suf : string) :
  occurrences "<mask>" (pre ++ String c suf) = 0 ->
  occurrences "<mask>" (pre ++ "<mask>" ++ suf) = 1.
Proof. apply occurrences_overwrite. exact mask_tail_avoids. Qed.

End StringFacts.

(** ** [random_sequence] *)

Module RandomSequenceFacts.
Import StringFacts.

Section RandomSequenceFacts.
Variables Env Gen : Type.
Variable raw : Gen -> nat.
Variable advance : Gen -> Gen.
Variable uniref : list string.

Local Notation state := (Bench.state Env Gen).
Local Notation random_sequence := (@Bench.random_sequence Env Gen raw advance uniref).

Local Notation advanced := (@Bench.advanced Env Gen advance).
Local Notation drawn := (@Bench.drawn Env Gen raw uniref).

Lemma random_choice_run (s : state) (src : string) :
  drawn s = Some src ->
  random_choice raw advance uniref s = (Ok src, advanced 1 s).
Proof.
  unfold Bench.drawn, random_choice. intros Hsrc.
  destruct uniref as [| x rest];
    [destruct (raw (gen s) mod _) in Hsrc; discriminate |].
  unfold bind, randbelow, ret.
  rewrite (nth_error_nth _ _ x Hsrc). reflexivity.
Qed.

(** One run of [random_sequence], by the length of the cut sequence. *)
Lemma random_sequence_run (max_length : Z) (s : state) (src : string) :
  drawn s = Some src ->
  let cut := str_slice_to src max_length in
  random_sequence max_length s =
    match String.length cut with
    | O => (Raise ValueError, advanced 1 s)
    | S _ =>
        (Ok (join (replace_nth (raw (advance (gen s)) mod String.length cut)
                               "<mask>" (chars cut))),
         advanced 2 s)
    end.
Proof.
  intros Hsrc cut. unfold Bench.random_sequence, bind.
  rewrite (random_choice_run s src Hsrc). fold cut.
  rewrite length_chars. unfold random_randint.
  destruct (String.length cut) as [| n] eqn:Hlen.
  - reflexivity.
  - destruct (Z.ltb_spec (Z.of_nat (S n) - 1) 0) as [Hneg | _]; [lia |].
    unfold bind, randbelow, ret, lift.
    replace (Z.to_nat (Z.of_nat (S n) - 1 - 0 + 1)) with (S n) by lia.
    unfold Bench.advanced, Nat.iter. cbn [nat_rect gen env sent].
    set (k := raw (advance (gen s)) mod S n).
    assert (Hk : k < S n) by (apply Nat.mod_upper_bound; lia).
    unfold setitem. rewrite length_chars, Hlen.
    replace ((0 <=? 0 + Z.of_nat k)%Z && (0 + Z.of_nat k <? Z.of_nat (S n))%Z)
      with true
      by (symmetry; apply andb_true_intro; split;
          [apply Z.leb_le | apply Z.ltb_lt]; lia).
    replace (Z.to_nat (0 + Z.of_nat k)) with k by lia.
    reflexivity.
Qed.

(** C10, amended: when the drawn sequence is not empty and [max_length] is
    at least 1, the value is the sequence cut to its first [max_length]
    characters (fewer if it is shorter) with one character replaced by
    ["<mask>"]; its length is that of the cut sequence, minus one, plus
    six; and it contains ["<mask>"] exactly once when the cut sequence did
    not contain it.  When the drawn sequence is empty the index draw has
    an empty range and the function raises. *)
Theorem random_sequence_masks_one_character (max_length : Z) (s : state) (src : string) :
  drawn s = Some src ->
  let cut := str_slice_to src max_length in
  (src <> "" -> (1 <= max_length)%Z ->
   String.length cut = Nat.min (Z.to_nat max_length) (String.length src) /\
   (exists rest, src = cut ++ rest) /\
   exists pre c suf,
     cut = pre ++ String c suf /\
     fst (random_sequence max_length s) = Ok (pre ++ "<mask>" ++ suf) /\
     String.length (pre ++ "<mask>" ++ suf) = String.length cut - 1 + 6 /\
     (occurrences "<mask>" cut = 0 ->
      occurrences "<mask>" (pre ++ "<mask>" ++ suf) = 1)) /\
  (src = "" -> fst (random_sequence max_length s) = Raise ValueError).
Proof.
  intros Hsrc cut. pose proof (random_sequence_run max_length s src Hsrc) as Hrun.
  cbv zeta in Hrun. fold cut in Hrun. split.
  - intros Hne Hmax.
    destruct (str_slice_to_prefix src max_length) as [Hlen Hrest]; [lia |].
    fold cut in Hlen, Hrest.
    split; [exact Hlen |]. split; [exact Hrest |].
    assert (Hpos : 0 < String.length cut).
    { rewrite Hlen. destruct src; [contradiction |]. cbn [String.length]. lia. }
    destruct (String.length cut) as [| n] eqn:Hn; [lia |].
    destruct (join_replace_nth "<mask>" cut (raw (advance (gen s)) mod S n))
      as (pre & c & suf & Hcut & _ & Hjoin).
    { rewrite Hn. apply Nat.mod_upper_bound. lia. }
    exists pre, c, suf. split; [exact Hcut |]. split.
    { rewrite Hrun. cbn [fst]. now rewrite Hjoin. }
    split.
    { rewrite <- Hn. rewrite Hcut. rewrite !length_append. cbn [String.length]. lia. }
    intros Hfree. apply occurrences_mask with (c := c). now rewrite <- Hcut.
  - intros ->. rewrite Hrun.
    replace cut with "".
    + reflexivity.
    + unfold cut, str_slice_to, slice_to. cbn [list_ascii_of_string List.length].
      destruct (0 <=? max_length)%Z; now rewrite firstn_nil.
Qed.

End RandomSequenceFacts.

(** C10 as stated fails: a sequence that is not empty makes the function
    raise when [max_length] is 0, and a sequence that already contains
    ["<mask>"] comes back with two of them. *)
Lemma random_sequence_needs_room_and_clean_source :
  fst (Bench.random_sequence counter_raw counter_advance ["MKV"] 0 (gen_at 0))
  = Raise ValueError /\
  fst (Bench.random_sequence counter_raw counter_advance ["<mask>A"] 128 (gen_at 5))
  = Ok "<mask><mask>" /\
  occurrences "<mask>" "<mask><mask>" = 2.
Proof. repeat split. Qed.

Lemma random_sequence_masks_one_character_witness :
  (exists pre c suf,
      "MKTAY" = pre ++ String c suf /\
      fst (Bench.random_sequence counter_raw counter_advance ["MKTAYIAK"; "GHIK"] 5
                                 (gen_at 4))
      = Ok (pre ++ "<mask>" ++ suf) /\
      occurrences "<mask>" (pre ++ "<mask>" ++ suf) = 1) /\
  fst (Bench.random_sequence counter_raw counter_advance ["MKTAYIAK"; ""] 5 (gen_at 5))
  = Raise ValueError.
Proof.
  split.
  - destruct (random_sequence_masks_one_character unit nat counter_raw counter_advance
                ["MKTAYIAK"; "GHIK"] 5 (gen_at 4) "MKTAYIAK" eq_refl) as [Hmask _].
    destruct Hmask as (_ & _ & pre & c & suf & Hcut & Hrun & _ & Hone);
      [discriminate | lia |].
    exists pre, c, suf. split; [exact Hcut |]. split; [exact Hrun |].
    apply Hone. reflexivity.
  - exact (proj2 (random_sequence_masks_one_character unit nat counter_raw counter_advance
                    ["MKTAYIAK"; ""] 5 (gen_at 5) "" eq_refl) eq_refl).
Defined.

End RandomSequenceFacts.

(** ** The parallel clients of [benchmark] *)

Module ListFacts.

Lemma map_pair_combine {A B C} (f : A -> B) (g : A -> C) (l : list A) :
  map (fun t => (f t, g t)) l = combine (map f l) (map g l).
Proof. induction l as [| x l IH]; [reflexivity |]. cbn. now rewrite IH. Qed.

Lemma map_fst_combine_same {A B} : forall (l1 : list A) (l2 : list B),
  List.length l1 = List.length l2 -> map fst (combine l1 l2) = l1.
Proof.
  induction l1 as [| x l1 IH]; intros [| y l2] Hlen; try discriminate; [reflexivity |].
  cbn. rewrite IH; [reflexivity | now injection Hlen].
Qed.

Lemma length_combine_same {A B} : forall (l1 : list A) (l2 : list B),
  List.length l1 = List.length l2 -> List.length (combine l1 l2) = List.length l1.
Proof.
  induction l1 as [| x l1 IH]; intros [| y l2] Hlen; try discriminate; [reflexivity |].
  cbn. rewrite IH; [reflexivity | now injection Hlen].
Qed.

Lemma nth_error_app_some {A} (l l' : list A) (i : nat) (x : A) :
  nth_error l i = Some x -> nth_error (l ++ l') i = Some x.
Proof.
  intros H. rewrite nth_error_app1; [exact H |].
  apply nth_error_Some. congruence.
Qed.

Lemma nth_error_snoc {A} (l : list A) (x : A) :
  nth_error (l ++ [x]) (List.length l) = Some x.
Proof. rewrite nth_error_app2 by lia. now rewrite Nat.sub_diag. Qed.

Lemma nth_error_snoc_inv {A} (l : list A) (x y : A) (i : nat) :
  nth_error (l ++ [x]) i = Some y ->
  nth_error l i = Some y \/ (i = List.length l /\ y = x).
Proof.
  intros H. destruct (Nat.lt_ge_cases i (List.length l)) as [Hlt | Hge].
  - left. now rewrite nth_error_app1 in H.
  - right. rewrite nth_error_app2 in H by exact Hge.
    destruct (i - List.length l) as [| k] eqn:Hk.
    + cbn in H. injection H as <-. split; [lia | reflexivity].
    + cbn in H. destruct k; discriminate.
Qed.

Lemma length_replace_nth {A} (x : A) : forall (l : list A) (i : nat),
  List.length (replace_nth i x l) = List.length l.
Proof.
  induction l as [| y l IH]; intros [| i]; cbn [replace_nth List.length];
    try reflexivity.
  now rewrite IH.
Qed.

Lemma nth_error_replace_nth_same {A} (x : A) : forall (l : list A) (i : nat),
  i < List.length l -> nth_error (replace_nth i x l) i = Some x.
Proof.
  induction l as [| y l IH]; intros [| i] Hi; cbn [List.length] in Hi; try lia.
  - reflexivity.
  - cbn [replace_nth nth_error]. apply IH. lia.
Qed.

Lemma nth_error_replace_nth_other {A} (x : A) : forall (l : list A) (i j : nat),
  i <> j -> nth_error (replace_nth i x l) j = nth_error l j.
Proof.
  induction l as [| y l IH]; intros [| i] [| j] Hij; cbn [replace_nth nth_error];
    try reflexivity; try contradiction.
  apply IH. lia.
Qed.

Lemma list_sum_replace_nth {A} (w : A -> nat) (x y : A) : forall (l : list A) (i : nat),
  nth_error l i = Some x ->
  list_sum (map w (replace_nth i y l)) + w x = list_sum (map w l) + w y.
Proof.
  induction l as [| z l IH]; intros [| i] Hi; try discriminate.
  - injection Hi as ->. cbn. lia.
  - cbn [replace_nth map nth_error] in *. specialize (IH i Hi).
    unfold list_sum in *. cbn [fold_right]. lia.
Qed.

Lemma positions_in {X} (f : X -> bool) : forall (l : list X) (k i : nat),
  In i (positions f k l) ->
  exists x, k <= i /\ nth_error l (i - k) = Some x /\ f x = true.
Proof.
  induction l as [| y l IH]; intros k i Hin; [contradiction |].
  cbn [positions] in Hin.
  assert (Hrest : In i (positions f (S k) l) ->
                  exists x, k <= i /\ nth_error (y :: l) (i - k) = Some x /\ f x = true).
  { intros H. destruct (IH (S k) i H) as (x & Hk & Hx & Hf).
    exists x. split; [lia |]. split; [| exact Hf].
    replace (i - k) with (S (i - S k)) by lia. exact Hx. }
  destruct (f y) eqn:Hy; [| now apply Hrest].
  destruct Hin as [<- | Hin]; [| now apply Hrest].
  exists y. split; [lia |]. rewrite Nat.sub_diag. split; [reflexivity | exact Hy].
Qed.

Lemma positions_nil {X} (f : X -> bool) : forall (l : list X) (k : nat),
  positions f k l = [] -> Forall (fun x => f x = false) l.
Proof.
  induction l as [| y l IH]; intros k H; [constructor |].
  cbn [positions] in H. destruct (f y) eqn:Hy; [discriminate |].
  constructor; [exact Hy | now apply (IH (S k))].
Qed.

(** The list made of the values of a function on [0 .. n-1]. *)
Lemma map_seq_nth_error {A} (l : list A) (f : nat -> A) :
  (forall i x, nth_error l i = Some x -> f i = x) ->
  map f (seq 0 (List.length l)) = l.
Proof.
  induction l as [| y l IH] using rev_ind; intros Hf; [reflexivity |].
  rewrite length_app. cbn [List.length]. rewrite Nat.add_1_r, seq_S, map_app.
  cbn [map Nat.add]. f_equal.
  - apply IH. intros i x Hx. apply Hf. now apply nth_error_app_some.
  - f_equal. apply Hf. apply nth_error_snoc.
Qed.

End ListFacts.

Module BenchmarkFacts.
Import ListFacts.

Section BenchmarkFacts.
Variables Env Predictor Response Gen : Type.
Variable wall_clock : Env -> Q.
Variable invoke_endpoint : Predictor -> payload -> Env -> result Response * Env.
Variable raw : Gen -> nat.
Variable advance : Gen -> Gen.
Variable uniref : list string.
Variable cpu_count : nat.
Variable sched : nat -> nat.
Variable endpoint_name : Predictor -> string.
Variable cloudwatch : query -> nat -> list datapoint.
Variable predictor : Predictor.

Local Notation state := (Bench.state Env Gen).
Local Notation record := (Bench.latency_record Response).
Local Notation next_request := (@Bench.next_request Env Gen raw advance uniref).
Local Notation benchmark_requests :=
  (Bench.benchmark_requests wall_clock invoke_endpoint raw advance uniref
                            cpu_count sched predictor).
Local Notation predict := (Bench.predict invoke_endpoint (Gen := Gen) predictor).
Local Notation latency_begin := (Bench.latency_begin wall_clock (Gen := Gen)).
Local Notation latency_call := (Bench.latency_call predict).
Local Notation latency_return :=
  (Bench.latency_return wall_clock (Response := Response) (Gen := Gen)).
Local Notation clients := (pool payload Q (Q * (bool * result_field Response)) record).
Local Notation task := (slot payload Q (Q * (bool * result_field Response)) record).
Local Notation invocations := (Bench.invocations invoke_endpoint predictor).
Local Notation env_after := (Bench.env_after invoke_endpoint predictor).
Local Notation measured := (Bench.measured wall_clock invoke_endpoint predictor).
Local Notation slot_known := (Bench.slot_known wall_clock invoke_endpoint predictor).
Local Notation pool_known :=
  (Bench.pool_known wall_clock invoke_endpoint raw advance uniref predictor).
Local Notation perform :=
  (Bench.perform next_request latency_begin latency_call latency_return).
Local Notation pool_run :=
  (Bench.pool_run sched next_request latency_begin latency_call latency_return).

(** *** The three steps of a client call *)

(** Run one after the other, the steps are [inference_latency]. *)
Lemma inference_latency_steps (model : payload -> M state Response)
      (inputs : payload) (s : state) :
  Bench.inference_latency wall_clock model inputs s
  = (start <- latency_begin inputs ;;
     called <- Bench.latency_call model inputs start ;;
     latency_return called)%py s.
Proof.
  unfold Bench.inference_latency, Bench.latency_begin, Bench.latency_call,
    Bench.latency_return, bind, ret, time_time, try_except.
  destruct (model inputs s) as [[r | e] s']; reflexivity.
Qed.

Lemma latency_begin_run (a : payload) (s : state) :
  latency_begin a s = (Ok (wall_clock (env s)), s).
Proof. reflexivity. Qed.

Lemma latency_call_run (a : payload) (start : Q) (s : state) :
  latency_call a start s
  = (Ok (start, (is_raise (fst (invoke_endpoint predictor a (env s))),
                 outcome_field (fst (invoke_endpoint predictor a (env s))))),
     {| env := snd (invoke_endpoint predictor a (env s));
        gen := gen s;
        sent := (sent s ++ [(a, is_raise (fst (invoke_endpoint predictor a (env s))))])%list |}).
Proof.
  unfold Bench.latency_call, Bench.predict, bind, ret, try_except.
  destruct (invoke_endpoint predictor a (env s)) as [[r | e] e']; reflexivity.
Qed.

Lemma latency_return_run (called : Q * (bool * result_field Response)) (s : state) :
  latency_return called s
  = (Ok {| latency := wall_clock (env s) - fst called;
           error := fst (snd called);
           result_ := snd (snd called) |}, s).
Proof. destruct called as [start outcome]. reflexivity. Qed.

(** *** The invocations of a run *)

Lemma invocations_snoc (p : payload) : forall (calls : list payload) (e : Env),
  invocations (calls ++ [p]) e
  = ((fst (invocations calls e)
      ++ [(p, is_raise (fst (invoke_endpoint predictor p (snd (invocations calls e)))))])%list,
     snd (invoke_endpoint predictor p (snd (invocations calls e)))).
Proof.
  induction calls as [| q calls IH]; intros e; cbn [app Bench.invocations fst snd].
  - destruct (invoke_endpoint predictor p e) as [r e']. reflexivity.
  - destruct (invoke_endpoint predictor q e) as [r e']. rewrite IH.
    destruct (invocations calls e') as [trace e'']. reflexivity.
Qed.

Lemma length_invocations : forall (calls : list payload) (e : Env),
  List.length (fst (invocations calls e)) = List.length calls.
Proof.
  induction calls as [| q calls IH]; intros e; [reflexivity |].
  cbn [Bench.invocations]. destruct (invoke_endpoint predictor q e) as [r e'].
  specialize (IH e'). destruct (invocations calls e') as [trace e''].
  cbn [fst List.length] in *. now rewrite IH.
Qed.

Lemma env_after_app (calls more : list payload) (e : Env) (j : nat) :
  j <= List.length calls -> env_after (calls ++ more) e j = env_after calls e j.
Proof.
  intros Hj. unfold Bench.env_after. rewrite firstn_app.
  replace (j - List.length calls) with 0 by lia. cbn [firstn]. now rewrite app_nil_r.
Qed.

Lemma env_after_all (calls : list payload) (e : Env) :
  env_after calls e (List.length calls) = snd (invocations calls e).
Proof. unfold Bench.env_after. now rewrite firstn_all. Qed.

Lemma measured_app (calls more : list payload) (e : Env) (b j c : nat) (p : payload) :
  b <= List.length calls -> j <= List.length calls -> c <= List.length calls ->
  measured (calls ++ more) e b j c p = measured calls e b j c p.
Proof.
  intros Hb Hj Hc. unfold Bench.measured. now rewrite !env_after_app by assumption.
Qed.

(** The entry that invocation number [j] leaves in the trace. *)
Lemma nth_error_invocations : forall (calls : list payload) (e : Env) (j : nat) (p : payload),
  nth_error calls j = Some p ->
  nth_error (fst (invocations calls e)) j
  = Some (p, is_raise (fst (invoke_endpoint predictor p (env_after calls e j)))).
Proof.
  induction calls as [| q calls IH]; intros e [| j] p Hp; try discriminate.
  - injection Hp as ->. unfold Bench.env_after. cbn [firstn Bench.invocations snd].
    destruct (invoke_endpoint predictor p e) as [r e'].
    destruct (invocations calls e') as [trace e'']. reflexivity.
  - cbn [nth_error] in Hp. specialize (IH (snd (invoke_endpoint predictor q e)) j p Hp).
    unfold Bench.env_after in *. cbn [firstn Bench.invocations].
    destruct (invoke_endpoint predictor q e) as [r e']. cbn [snd] in IH.
    destruct (invocations calls e') as [trace e''].
    destruct (invocations (firstn j calls) e') as [trace' e3].
    cbn [fst snd nth_error] in *. exact IH.
Qed.

(** *** The generator of requests *)

(** [random_sequence] touches nothing but the random generator. *)
Lemma next_request_frame (s : state) :
  env (snd (next_request s)) = env s /\ sent (snd (next_request s)) = sent s.
Proof.
  unfold Bench.next_request, Bench.random_sequence, bind, random_choice.
  destruct uniref as [| x rest]; [split; reflexivity |].
  unfold bind, randbelow, ret, random_randint.
  match goal with |- context [(?b <? ?a)%Z] => destruct (b <? a)%Z end;
    [split; reflexivity |].
  unfold bind, randbelow, ret, lift.
  match goal with |- context [setitem ?l ?i ?x] => destruct (setitem l i x) end;
    split; reflexivity.
Qed.

(** And it reads nothing else. *)
Lemma next_request_gen (s1 s2 : state) :
  gen s1 = gen s2 ->
  fst (next_request s1) = fst (next_request s2) /\
  gen (snd (next_request s1)) = gen (snd (next_request s2)).
Proof.
  intros Hgen.
  unfold Bench.next_request, Bench.random_sequence, bind, random_choice.
  destruct uniref as [| x rest]; [split; [reflexivity | exact Hgen] |].
  unfold bind, randbelow, ret, random_randint. rewrite Hgen.
  match goal with |- context [(?b <? ?a)%Z] => destruct (b <? a)%Z end;
    [split; reflexivity |].
  unfold bind, randbelow, ret, lift. cbn [gen].
  match goal with |- context [setitem ?l ?i ?x] => destruct (setitem l i x) end;
    split; reflexivity.
Qed.

Lemma generate_succ {A} (n : nat) (item : M state A) (s : state) :
  generate (S n) item s =
    match item s with
    | (Ok x, s1) =>
        match generate n item s1 with
        | (Ok xs, s2) => (Ok (x :: xs), s2)
        | (Raise e, s2) => (Raise e, s2)
        end
    | (Raise e, s1) => (Raise e, s1)
    end.
Proof.
  cbn [generate]. unfold bind, ret.
  destruct (item s) as [[x | e] s1]; [| reflexivity].
  destruct (generate n item s1) as [[xs | e] s2]; reflexivity.
Qed.

(** One more item after [n] of them. *)
Lemma generate_snoc {A} (item : M state A) : forall (n : nat) (s sg : state) (l : list A),
  generate n item s = (Ok l, sg) ->
  generate (S n) item s =
    match item sg with
    | (Ok x, sg') => (Ok (l ++ [x])%list, sg')
    | (Raise e, sg') => (Raise e, sg')
    end.
Proof.
  induction n as [| n IH]; intros s sg l Hgen.
  - cbn in Hgen. injection Hgen as <- <-. rewrite generate_succ. cbn [generate].
    unfold ret. destruct (item s) as [[x | e] s1]; reflexivity.
  - rewrite generate_succ in Hgen. rewrite generate_succ.
    destruct (item s) as [[x | e] s1]; [| discriminate].
    destruct (generate n item s1) as [[xs | e] s2] eqn:Hn; [| discriminate].
    injection Hgen as <- <-. rewrite (IH s1 s2 xs Hn).
    destruct (item s2) as [[y | e] s3]; reflexivity.
Qed.

(** A generator that yields [n] items yields the first [k] of them. *)
Lemma generate_fewer {A} (item : M state A) : forall (n k : nat) (s sn : state) (l : list A),
  generate n item s = (Ok l, sn) -> k <= n ->
  exists sk, generate k item s = (Ok (firstn k l), sk).
Proof.
  induction n as [| n IH]; intros k s sn l Hgen Hk.
  - replace k with 0 by lia. cbn in *. injection Hgen as <- <-. now exists s.
  - destruct k as [| k]; [now exists s |].
    rewrite generate_succ in Hgen. rewrite generate_succ.
    destruct (item s) as [[x | e] s1]; [| discriminate].
    destruct (generate n item s1) as [[xs | e] s2] eqn:Hn; [| discriminate].
    injection Hgen as <- <-.
    destruct (IH k s1 s2 xs Hn) as (sk & Hsk); [lia |].
    exists sk. rewrite Hsk. reflexivity.
Qed.

Lemma generate_frame : forall (n : nat) (s : state),
  env (snd (generate n next_request s)) = env s /\
  sent (snd (generate n next_request s)) = sent s /\
  forall tasks, fst (generate n next_request s) = Ok tasks -> List.length tasks = n.
Proof.
  induction n as [| n IH]; intros s.
  - cbn. repeat split. intros tasks H. now injection H as <-.
  - rewrite generate_succ.
    destruct (next_request_frame s) as [He Hs].
    destruct (next_request s) as [[a | e] s1]; cbn [snd] in He, Hs.
    + destruct (IH s1) as (He1 & Hs1 & Hlen).
      destruct (generate n next_request s1) as [[tasks | e] s2];
        cbn [fst snd] in *.
      * split; [congruence | split; [congruence |]].
        intros l Hl. injection Hl as <-. cbn. now rewrite (Hlen tasks).
      * split; [congruence | split; [congruence |]].
        intros l Hl. discriminate.
    + cbn [fst snd]. split; [assumption | split; [assumption |]].
      intros l Hl. discriminate.
Qed.

(** On a dataset that is not empty and has no empty sequence the
    generator does not raise. *)
Lemma next_request_ok (s : state) :
  uniref <> [] -> Forall (fun x => x <> "") uniref ->
  exists a s1, next_request s = (Ok a, s1).
Proof.
  intros Hne Hall.
  assert (Hlt : raw (gen s) mod List.length uniref < List.length uniref).
  { apply Nat.mod_upper_bound. destruct uniref; [contradiction | discriminate]. }
  destruct (nth_error uniref (raw (gen s) mod List.length uniref)) as [src |] eqn:Hsrc;
    [| apply nth_error_None in Hsrc; lia].
  assert (Hsrc_ne : src <> "").
  { apply nth_error_In in Hsrc. rewrite Forall_forall in Hall. now apply Hall. }
  unfold Bench.next_request, bind.
  rewrite (RandomSequenceFacts.random_sequence_run _ _ raw advance uniref 128 s src Hsrc).
  destruct (StringFacts.str_slice_to_prefix src 128) as [Hlen _]; [lia |].
  destruct (String.length (str_slice_to src 128)) as [| n] eqn:Hn.
  - exfalso. destruct src; [contradiction |]. cbn [String.length] in Hlen. lia.
  - do 2 eexists. reflexivity.
Qed.

Lemma generate_ok (n : nat) :
  uniref <> [] -> Forall (fun x => x <> "") uniref ->
  forall s : state, exists tasks s1, generate n next_request s = (Ok tasks, s1).
Proof.
  intros Hne Hall. induction n as [| n IH]; intros s.
  - now exists [], s.
  - destruct (next_request_ok s Hne Hall) as (a & s1 & Ha).
    destruct (IH s1) as (tasks & s2 & Htasks).
    exists (a :: tasks), s2. now rewrite generate_succ, Ha, Htasks.
Qed.

Lemma effective_n_jobs_nonzero (n_jobs : Z) :
  n_jobs <> 0%Z -> exists w, effective_n_jobs cpu_count n_jobs = Ok w /\ 1 <= w.
Proof.
  intros Hn. unfold effective_n_jobs.
  destruct (Z.eqb_spec n_jobs 0) as [-> | _]; [contradiction |].
  destruct (Z.ltb_spec n_jobs 0) as [Hneg | Hpos]; eexists; (split; [reflexivity | lia]).
Qed.

(** *** The pool of clients, step by step *)

Lemma call_index_bound (tasks : list payload) (calls : list (nat * payload)) :
  Forall (fun c => nth_error tasks (fst c) = Some (snd c)) calls ->
  forall i, In i (map fst calls) -> i < List.length tasks.
Proof.
  intros Hall i Hin. apply in_map_iff in Hin. destruct Hin as ([i' a] & <- & Hin).
  rewrite Forall_forall in Hall. specialize (Hall _ Hin). cbn [fst snd] in *.
  apply nth_error_Some. congruence.
Qed.

Lemma slot_known_more_tasks (e0 : Env) (tasks more : list payload)
      (calls : list (nat * payload)) (i : nat) (x : task) :
  slot_known e0 tasks calls i x -> slot_known e0 (tasks ++ more) calls i x.
Proof.
  destruct x as [a | a start | called | rec | e]; cbn [Bench.slot_known].
  - intros (Ha & Hnot). split; [now apply nth_error_app_some | exact Hnot].
  - intros (Ha & Hnot & Hb). split; [now apply nth_error_app_some |]. now split.
  - intros (a & j & b & Ha & Hrest). exists a, j, b.
    split; [now apply nth_error_app_some | exact Hrest].
  - intros (a & j & b & c & Ha & Hrest). exists a, j, b, c.
    split; [now apply nth_error_app_some | exact Hrest].
  - intros [].
Qed.

Lemma slot_known_more_calls (e0 : Env) (tasks : list payload)
      (calls : list (nat * payload)) (i0 : nat) (a0 : payload) (i : nat) (x : task) :
  i <> i0 ->
  slot_known e0 tasks calls i x -> slot_known e0 tasks (calls ++ [(i0, a0)]) i x.
Proof.
  intros Hne.
  assert (Hnot : ~ In i (map fst calls) -> ~ In i (map fst calls ++ map fst [(i0, a0)])).
  { intros Hnot Hin. rewrite in_app_iff in Hin. cbn in Hin.
    destruct Hin as [Hin | [Heq | []]]; [now apply Hnot | now apply Hne]. }
  assert (Hlen : List.length (map snd calls) = List.length calls) by apply length_map.
  destruct x as [a | a start | called | rec | e]; cbn [Bench.slot_known];
    rewrite ?map_app, ?length_app; cbn [List.length].
  - intros (Ha & Hn). split; [exact Ha | now apply Hnot].
  - intros (Ha & Hn & b & Hb & Hstart). split; [exact Ha |].
    split; [now apply Hnot |].
    exists b. split; [lia |]. rewrite env_after_app by lia. exact Hstart.
  - intros (a & j & b & Ha & Hj & Hb & Hcalled).
    assert (Hjlt : j < List.length calls) by (apply nth_error_Some; congruence).
    exists a, j, b. split; [exact Ha |]. split; [now apply nth_error_app_some |].
    split; [exact Hb |]. rewrite !env_after_app by lia. exact Hcalled.
  - intros (a & j & b & c & Ha & Hj & Hb & Hc & Hrec).
    exists a, j, b, c. split; [exact Ha |]. split; [now apply nth_error_app_some |].
    split; [exact Hb |]. split; [lia |]. rewrite measured_app by lia. exact Hrec.
  - intros [].
Qed.

(** Whatever happens next, what is known of the pool stays true, of the
    requests generated and of the invocations made by then. *)
Lemma perform_known (s0 : state) (n : nat) (ev : event)
      (tasks : list payload) (calls : list (nat * payload)) (p : clients) (s : state) :
  pool_known s0 n tasks calls p s ->
  exists tasks' calls',
    pool_known s0 n tasks' calls' (fst (perform ev p s)) (snd (perform ev p s)).
Proof.
  intros K.
  assert (Hsame : exists tasks' calls', pool_known s0 n tasks' calls' p s)
    by (now exists tasks, calls).
  destruct K as [(sg & Hgen & Hg) [Htot Htot'] Kf Ke Ks [Hnd Hcalls] Ksl].
  assert (Hlen : List.length tasks = List.length (slots p)).
  { destruct (generate_frame (List.length (slots p)) s0) as (_ & _ & H).
    rewrite Hgen in H. now apply H. }
  assert (Hmap : List.length (map snd calls) = List.length calls) by apply length_map.
  assert (Hnow : env s = env_after (map snd calls) (env s0) (List.length calls)).
  { rewrite <- Hmap, env_after_all. exact Ke. }
  destruct ev as [| i | i |]; unfold Bench.perform; cbn [fst snd].
  - (* the dispatcher *)
    destruct (remaining p) as [| r] eqn:Hrem; [exact Hsame |].
    assert (Hnone : failure p = None).
    { destruct (failure p) as [e |] eqn:F; [| reflexivity].
      destruct (Kf e eq_refl) as (H0 & _). congruence. }
    specialize (Hg Hnone). specialize (Htot' Hnone).
    destruct (next_request_gen s sg Hg) as [Hfst Hgen'].
    destruct (next_request_frame s) as [Hfe Hfs].
    pose proof (generate_snoc next_request _ _ _ _ Hgen) as Hsnoc.
    destruct (next_request s) as [[a | e] s1]; destruct (next_request sg) as [[a' | e'] sg1];
      cbn [fst snd] in *; try discriminate.
    + injection Hfst as <-. exists (tasks ++ [a])%list, calls.
      constructor; cbn [slots remaining failure]; rewrite ?length_app; cbn [List.length].
      * exists sg1. rewrite Nat.add_1_r. split; [exact Hsnoc | intros _; exact Hgen'].
      * split; [lia | intros _; lia].
      * intros e He. congruence.
      * congruence.
      * congruence.
      * split; [exact Hnd |]. eapply Forall_impl; [| exact Hcalls].
        intros c Hc. now apply nth_error_app_some.
      * intros i x Hx. apply nth_error_snoc_inv in Hx. destruct Hx as [Hx | [-> ->]].
        -- apply slot_known_more_tasks. now apply Ksl.
        -- cbn [Bench.slot_known]. split.
           ++ rewrite <- Hlen. apply nth_error_snoc.
           ++ intros Hin. apply (call_index_bound _ _ Hcalls) in Hin. lia.
    + injection Hfst as <-. exists tasks, calls.
      constructor; unfold Bench.failed; cbn [slots remaining failure]; rewrite ?Hnone.
      * exists sg. split; [exact Hgen | discriminate].
      * split; [lia | discriminate].
      * intros e0 He0. injection He0 as <-. split; [reflexivity |]. split; [lia |].
        exists sg1. exact Hsnoc.
      * congruence.
      * congruence.
      * now split.
      * exact Ksl.
  - (* a thread takes the first waiting task and reads the clock *)
    destruct (nth_error (slots p) i) as [[a | a start | called | rec | e] |] eqn:Hi;
      try exact Hsame.
    unfold Bench.step_slot. rewrite latency_begin_run. cbn [fst snd].
    exists tasks, calls.
    constructor; unfold Bench.set_slot; cbn [slots remaining failure];
      rewrite ?length_replace_nth; try assumption.
    + now exists sg.
    + now split.
    + now split.
    + intros i' x Hx. destruct (Nat.eq_dec i i') as [<- | Hne].
      * rewrite nth_error_replace_nth_same in Hx by (apply nth_error_Some; congruence).
        injection Hx as <-. specialize (Ksl i _ Hi). cbn [Bench.slot_known] in *.
        destruct Ksl as (Ha & Hnot). split; [exact Ha |]. split; [exact Hnot |].
        exists (List.length calls). split; [lia | now rewrite Hnow].
      * rewrite nth_error_replace_nth_other in Hx by exact Hne. now apply Ksl.
  - (* a thread runs its next step *)
    destruct (nth_error (slots p) i) as [[a | a start | called | rec | e] |] eqn:Hi;
      try exact Hsame.
    + (* the call *)
      unfold Bench.step_slot. rewrite latency_call_run. cbn [fst snd].
      specialize (Ksl i _ Hi) as Ki. cbn [Bench.slot_known] in Ki.
      destruct Ki as (Ha & Hnot & b & Hb & Hstart).
      exists tasks, (calls ++ [(i, a)])%list.
      assert (Hinv := invocations_snoc a (map snd calls) (env s0)).
      rewrite <- Ke in Hinv.
      constructor; unfold Bench.set_slot; cbn [slots remaining failure env gen sent];
        rewrite ?length_replace_nth, ?map_app; cbn [map snd fst]; rewrite ?Hinv; cbn [fst snd].
      * now exists sg.
      * now split.
      * exact Kf.
      * reflexivity.
      * rewrite Ks, app_assoc. reflexivity.
      * split.
        -- apply NoDup_app; [exact Hnd | repeat constructor; intros [] | ].
           intros x Hx [<- | []]. now apply Hnot.
        -- apply Forall_app. split; [exact Hcalls |]. now repeat constructor.
      * intros i' x Hx. destruct (Nat.eq_dec i i') as [<- | Hne].
        -- rewrite nth_error_replace_nth_same in Hx by (apply nth_error_Some; congruence).
           injection Hx as <-. cbn [Bench.slot_known].
           exists a, (List.length calls), b. split; [exact Ha |].
           split; [apply nth_error_snoc |]. split; [exact Hb |].
           rewrite map_app. cbn [map snd]. rewrite !env_after_app by lia.
           rewrite <- Hnow, <- Hstart. reflexivity.
        -- rewrite nth_error_replace_nth_other in Hx by exact Hne.
           apply slot_known_more_calls; [lia | now apply Ksl].
    + (* the record *)
      unfold Bench.step_slot. rewrite latency_return_run. cbn [fst snd].
      specialize (Ksl i _ Hi) as Ki. cbn [Bench.slot_known] in Ki.
      destruct Ki as (a & j & b & Ha & Hj & Hb & Hcalled).
      assert (Hjlt : j < List.length calls) by (apply nth_error_Some; congruence).
      exists tasks, calls.
      constructor; unfold Bench.set_slot; cbn [slots remaining failure];
        rewrite ?length_replace_nth; try assumption.
      * now exists sg.
      * now split.
      * now split.
      * intros i' x Hx. destruct (Nat.eq_dec i i') as [<- | Hne].
        -- rewrite nth_error_replace_nth_same in Hx by (apply nth_error_Some; congruence).
           injection Hx as <-. cbn [Bench.slot_known].
           exists a, j, b, (List.length calls). split; [exact Ha |].
           split; [exact Hj |]. split; [lia |]. split; [lia |].
           unfold Bench.measured. rewrite <- Hnow, Hcalled. reflexivity.
        -- rewrite nth_error_replace_nth_other in Hx by exact Hne. now apply Ksl.
  - exact Hsame.
Qed.

(** *** The length of a run *)

Lemma enabled_in (workers : nat) (p : clients) (ev : event) :
  In ev (enabled workers p) ->
  match ev with
  | Dispatch => 0 < remaining p
  | Begin i => exists a, nth_error (slots p) i = Some (Queued a)
  | Advance i => exists x, nth_error (slots p) i = Some x /\ is_busy x = true
  | Stop => failure p <> None
  end.
Proof.
  unfold Bench.enabled. rewrite !in_app_iff. intros [H | [H | [H | H]]].
  - destruct ((0 <? remaining p) && _)%bool eqn:Hc; [| contradiction].
    destruct H as [<- | []]. apply andb_true_iff in Hc. now apply Nat.ltb_lt.
  - destruct (positions is_queued 0 (slots p)) as [| i rest] eqn:Hq; [contradiction |].
    destruct (_ <? workers); [| contradiction]. destruct H as [<- | []].
    destruct (positions_in is_queued (slots p) 0 i) as (x & _ & Hx & Hf);
      [rewrite Hq; now left |].
    rewrite Nat.sub_0_r in Hx. destruct x; try discriminate. now exists a.
  - apply in_map_iff in H. destruct H as (i & <- & Hin).
    destruct (positions_in is_busy (slots p) 0 i Hin) as (x & _ & Hx & Hf).
    rewrite Nat.sub_0_r in Hx. now exists x.
  - destruct (failure p); [| contradiction]. destruct H as [<- | []]. discriminate.
Qed.

(** Every event but the last brings the run nearer to its end. *)
Lemma perform_steps (workers : nat) (ev : event) (p : clients) (s : state) :
  In ev (enabled workers p) -> ev <> Stop ->
  steps_left (fst (perform ev p s)) < steps_left p.
Proof.
  intros Hin Hstop. apply enabled_in in Hin.
  destruct ev as [| i | i |]; unfold Bench.perform, steps_left.
  - destruct (remaining p) as [| r]; [lia |].
    destruct (next_request s) as [[a | e] s1];
      unfold Bench.failed; cbn [fst remaining slots].
    + rewrite map_app, list_sum_app. cbn. lia.
    + lia.
  - destruct Hin as (a & Ha). rewrite Ha.
    unfold Bench.step_slot. rewrite latency_begin_run.
    unfold Bench.set_slot. cbn [fst remaining slots].
    pose proof (list_sum_replace_nth slot_steps (Queued a)
                  (Started a (wall_clock (env s))) (slots p) i Ha) as H.
    cbn [slot_steps] in H. lia.
  - destruct Hin as (x & Hx & Hbusy). rewrite Hx.
    destruct x as [a | a start | called | rec | e]; try discriminate;
      unfold Bench.step_slot.
    + rewrite latency_call_run. unfold Bench.set_slot. cbn [fst remaining slots].
      match goal with
      | |- context [replace_nth i ?y (slots p)] =>
          pose proof (list_sum_replace_nth slot_steps (Started a start) y (slots p) i Hx) as H
      end.
      cbn [slot_steps] in H. lia.
    + rewrite latency_return_run. unfold Bench.set_slot. cbn [fst remaining slots].
      match goal with
      | |- context [replace_nth i ?y (slots p)] =>
          pose proof (list_sum_replace_nth slot_steps (Called called) y (slots p) i Hx) as H
      end.
      cbn [slot_steps] in H. lia.
  - contradiction.
Qed.

Lemma positions_none {X} (f : X -> bool) : forall (l : list X) (k : nat),
  Forall (fun x => f x = false) l -> positions f k l = [].
Proof.
  induction l as [| y l IH]; intros k Hall; [reflexivity |].
  inversion Hall as [| ? ? Hy Hl]; subst. cbn [positions]. rewrite Hy. now apply IH.
Qed.

(** With nothing left to do the run is at its end. *)
Lemma enabled_nil (workers : nat) (p : clients) :
  1 <= workers -> enabled workers p = [] -> steps_left p = 0.
Proof.
  intros Hw Hnil. unfold Bench.enabled in Hnil.
  apply app_eq_nil in Hnil. destruct Hnil as [Hd Hnil].
  apply app_eq_nil in Hnil. destruct Hnil as [Hb Hnil].
  apply app_eq_nil in Hnil. destruct Hnil as [Ha _].
  apply map_eq_nil in Ha. rewrite Ha in Hb. cbn [List.length] in Hb.
  assert (Hq : positions is_queued 0 (slots p) = []).
  { destruct (positions is_queued 0 (slots p)); [reflexivity |].
    destruct (Nat.ltb_spec 0 workers); [discriminate | lia]. }
  apply positions_nil in Ha, Hq.
  assert (Hall : Forall (fun x : task => unfinished x = false /\ slot_steps x = 0) (slots p)).
  { rewrite Forall_forall in *. intros x Hx. specialize (Ha x Hx). specialize (Hq x Hx).
    destruct x; try discriminate; split; reflexivity. }
  assert (Hu : positions unfinished 0 (slots p) = []).
  { apply positions_none. eapply Forall_impl; [| exact Hall]. now intros x [H _]. }
  rewrite Hu in Hd. cbn [List.length] in Hd.
  assert (Hpre : (0 <? pre_dispatch workers) = true).
  { apply Nat.ltb_lt. unfold pre_dispatch. destruct (Nat.eqb workers 1); lia. }
  rewrite Hpre, andb_true_r in Hd.
  assert (Hrem : remaining p = 0).
  { destruct (Nat.ltb_spec 0 (remaining p)); [discriminate | lia]. }
  unfold steps_left. rewrite Hrem. cbn [Nat.mul Nat.add].
  clear - Hall. induction Hall as [| x l [_ Hx] _ IH]; [reflexivity |].
  cbn [map]. change (list_sum (slot_steps x :: map slot_steps l))
    with (slot_steps x + list_sum (map slot_steps l)). lia.
Qed.

(** A run of the pool ends, and what is known of the pool holds at its
    end; unless the pool stops on a failure, no task is left unfinished. *)
Lemma pool_run_known (workers : nat) (s0 : state) (n : nat) :
  1 <= workers ->
  forall (fuel step : nat) (p : clients) (s : state)
         (tasks : list payload) (calls : list (nat * payload)),
    pool_known s0 n tasks calls p s ->
    steps_left p <= fuel ->
    exists p' s' tasks' calls',
      pool_run workers fuel step p s = Bench.finish p' s' /\
      pool_known s0 n tasks' calls' p' s' /\
      (failure p' = None -> steps_left p' = 0).
Proof.
  intros Hw. induction fuel as [| fuel IH]; intros step p s tasks calls K Hfuel.
  - exists p, s, tasks, calls. split; [reflexivity |]. split; [exact K | intros _; lia].
  - cbn [Bench.pool_run].
    destruct (enabled workers p) as [| ev0 rest] eqn:Hen.
    { exists p, s, tasks, calls. split; [reflexivity |]. split; [exact K |].
      intros _. now apply (enabled_nil workers). }
    assert (Hstep : forall ev, In ev (enabled workers p) -> ev <> Stop ->
              exists p' s' tasks' calls',
                (let '(p1, s1) := perform ev p s in pool_run workers fuel (S step) p1 s1)
                = Bench.finish p' s' /\
                pool_known s0 n tasks' calls' p' s' /\
                (failure p' = None -> steps_left p' = 0)).
    { intros ev Hin Hstop.
      destruct (perform_known s0 n ev tasks calls p s K) as (tasks1 & calls1 & K1).
      pose proof (perform_steps workers ev p s Hin Hstop) as Hless.
      destruct (perform ev p s) as [p1 s1]. cbn [fst snd] in *.
      apply (IH (S step) p1 s1 tasks1 calls1 K1). lia. }
    assert (Hin : In (nth (sched step mod List.length (ev0 :: rest)) (ev0 :: rest) ev0)
                     (enabled workers p)).
    { rewrite Hen. apply nth_In. apply Nat.mod_upper_bound. discriminate. }
    destruct (nth (sched step mod List.length (ev0 :: rest)) (ev0 :: rest) ev0)
      as [| i | i |].
    + apply Hstep; [exact Hin | discriminate].
    + apply Hstep; [exact Hin | discriminate].
    + apply Hstep; [exact Hin | discriminate].
    + exists p, s, tasks, calls. split; [reflexivity |]. split; [exact K |].
      intros Hnone. apply enabled_in in Hin. contradiction.
Qed.

(** The pool at the start of a run. *)
Lemma pool_known_start (s : state) (n : nat) :
  pool_known s n [] [] {| remaining := n; failure := None; slots := [] |} s.
Proof.
  constructor; cbn [slots remaining failure List.length map Bench.invocations fst snd].
  - exists s. split; reflexivity.
  - split; [lia | intros _; lia].
  - discriminate.
  - reflexivity.
  - now rewrite app_nil_r.
  - split; constructor.
  - intros [| i] x Hx; discriminate.
Qed.

(** The run of the parallel clients, for a pool that has a worker. *)
Lemma benchmark_requests_known (number_of_clients number_of_runs : Z) (s : state) :
  number_of_clients <> 0%Z ->
  exists p s' tasks calls,
    benchmark_requests number_of_clients number_of_runs s = Bench.finish p s' /\
    pool_known s (Z.to_nat number_of_runs) tasks calls p s' /\
    (failure p = None -> steps_left p = 0).
Proof.
  intros Hclients.
  destruct (effective_n_jobs_nonzero number_of_clients Hclients) as (w & Hw & Hw1).
  unfold Bench.benchmark_requests, Parallel, bind, lift. rewrite Hw.
  apply (pool_run_known w s (Z.to_nat number_of_runs) Hw1 _ 0 _ s [] []).
  - apply pool_known_start.
  - unfold steps_left. cbn [remaining slots map list_sum fold_right]. lia.
Qed.

(** *** The end of a run *)

Lemma outputs_finished (l : list task) :
  (forall i x, nth_error l i = Some x -> exists b, x = Finished b) ->
  List.length (outputs l) = List.length l /\
  forall i b, nth_error l i = Some (Finished b) -> nth_error (outputs l) i = Some b.
Proof.
  induction l as [| x l IH]; intros Hall.
  - split; [reflexivity |]. intros [| i] b H; discriminate.
  - destruct (Hall 0 x eq_refl) as (b0 & ->).
    destruct IH as [Hlen Hnth]; [intros i x Hx; now apply (Hall (S i)) |].
    unfold outputs in *. cbn [flat_map app List.length]. split; [now rewrite Hlen |].
    intros [| i] b Hb; cbn [nth_error] in *; [congruence | now apply Hnth].
Qed.

Lemma steps_left_zero (p : clients) :
  steps_left p = 0 ->
  remaining p = 0 /\ forall i x, nth_error (slots p) i = Some x -> slot_steps x = 0.
Proof.
  unfold steps_left. intros H. split; [lia |].
  assert (Hsum : list_sum (map slot_steps (slots p)) = 0) by lia.
  clear H. revert Hsum. induction (slots p) as [| y l IH]; intros Hsum [| i] x Hx;
    try discriminate;
    change (list_sum (map slot_steps (y :: l)))
      with (slot_steps y + list_sum (map slot_steps l)) in Hsum.
  - injection Hx as <-. lia.
  - apply (IH ltac:(lia) i x Hx).
Qed.

(** A run that does not stop on a failure has generated every request and
    invoked the endpoint once for every one; the record of a request is
    the one measured around its own invocation. *)
Lemma pool_known_end (s0 : state) (n : nat) (tasks : list payload)
      (calls : list (nat * payload)) (p : clients) (s' : state) :
  pool_known s0 n tasks calls p s' ->
  failure p = None ->
  steps_left p = 0 ->
  (exists sg, generate n next_request s0 = (Ok tasks, sg)) /\
  List.length tasks = n /\
  Bench.finish p s' = (Ok (outputs (slots p)), s') /\
  List.length (outputs (slots p)) = n /\
  Permutation (map fst calls) (seq 0 n) /\
  forall i a, nth_error tasks i = Some a ->
    exists j b c,
      nth_error calls j = Some (i, a) /\ b <= j < c /\ c <= n /\
      nth_error (outputs (slots p)) i = Some (measured (map snd calls) (env s0) b j c a).
Proof.
  intros [(sg & Hgen & _) [_ Htot] _ _ _ [Hnd Hcalls] Ksl] Hnone Hzero.
  specialize (Htot Hnone).
  destruct (steps_left_zero p Hzero) as [Hrem Hsteps]. rewrite Hrem, Nat.add_0_r in Htot.
  rewrite Htot in Hgen.
  assert (Hlen : List.length tasks = n).
  { destruct (generate_frame n s0) as (_ & _ & H). rewrite Hgen in H. now apply H. }
  assert (Hfin : forall i x, nth_error (slots p) i = Some x ->
                   exists a j b c,
                     x = Finished (measured (map snd calls) (env s0) b j c a) /\
                     nth_error tasks i = Some a /\ nth_error calls j = Some (i, a) /\
                     b <= j < c /\ c <= List.length calls).
  { intros i x Hx. specialize (Hsteps i x Hx). specialize (Ksl i x Hx).
    destruct x as [a | a start | called | rec | e]; try discriminate; [| contradiction].
    cbn [Bench.slot_known] in Ksl. destruct Ksl as (a & j & b & c & Ha & Hj & Hb & Hc & ->).
    now exists a, j, b, c. }
  destruct (outputs_finished (slots p)) as [Hout Hnth].
  { intros i x Hx. destruct (Hfin i x Hx) as (a & j & b & c & -> & _). now eexists. }
  assert (Hperm : Permutation (map fst calls) (seq 0 n)).
  { apply NoDup_Permutation; [exact Hnd | apply seq_NoDup |].
    intros i. rewrite in_seq. split.
    - intros Hin. apply (call_index_bound _ _ Hcalls) in Hin. lia.
    - intros [_ Hi]. cbn [Nat.add] in Hi.
      destruct (nth_error (slots p) i) as [x |] eqn:Hx;
        [| apply nth_error_None in Hx; lia].
      destruct (Hfin i x Hx) as (a & j & b & c & _ & _ & Hj & _).
      apply nth_error_In in Hj. now apply (in_map fst) in Hj. }
  split; [now exists sg |]. split; [exact Hlen |].
  split; [unfold Bench.finish; now rewrite Hnone |].
  split; [congruence |]. split; [exact Hperm |].
  intros i a Ha.
  destruct (nth_error (slots p) i) as [x |] eqn:Hx.
  2:{ apply nth_error_None in Hx.
      assert (i < List.length tasks) by (apply nth_error_Some; congruence). lia. }
  destruct (Hfin i x Hx) as (a' & j & b & c & -> & Ha' & Hj & Hb & Hc).
  assert (a' = a) by congruence. subst a'.
  exists j, b, c. split; [exact Hj |]. split; [exact Hb |]. split.
  - apply Permutation_length in Hperm. rewrite length_map, length_seq in Hperm. lia.
  - now apply Hnth.
Qed.

(** A generator that yields every request leaves the pool without failure. *)
Lemma pool_known_no_failure (s0 sn : state) (n : nat) (all tasks : list payload)
      (calls : list (nat * payload)) (p : clients) (s' : state) :
  generate n next_request s0 = (Ok all, sn) ->
  pool_known s0 n tasks calls p s' ->
  failure p = None.
Proof.
  intros Hall K. destruct (failure p) as [e |] eqn:Hf; [| reflexivity].
  destruct (known_failure K Hf) as (_ & Hlt & sg & Hraise).
  destruct (generate_fewer next_request n (S (List.length (slots p))) s0 sn all Hall)
    as (sk & Hok); [lia |].
  congruence.
Qed.

(** A list read through a list of positions. *)
Lemma map_positions {A B} (f : nat -> B) :
  forall (idx : list A) (g : A -> nat) (target : list B),
    List.length target = List.length idx ->
    (forall j x, nth_error idx j = Some x -> nth_error target j = Some (f (g x))) ->
    target = map (fun x => f (g x)) idx.
Proof.
  induction idx as [| x idx IH]; intros g [| y target] Hlen Hnth; try discriminate.
  - reflexivity.
  - cbn [map]. f_equal.
    + specialize (Hnth 0 x eq_refl). cbn in Hnth. congruence.
    + apply IH; [now injection Hlen |]. intros j z Hz. apply (Hnth (S j) z Hz).
Qed.

(** The run of the parallel clients once it is known that the generator
    yields every request: the submissions are, up to their order, the
    requests, each with the error flag of its record. *)
Lemma benchmark_requests_run (number_of_clients number_of_runs : Z)
      (s s1 : state) (tasks : list payload) :
  number_of_clients <> 0%Z ->
  generate (Z.to_nat number_of_runs) next_request s = (Ok tasks, s1) ->
  exists results new s',
    benchmark_requests number_of_clients number_of_runs s = (Ok results, s') /\
    List.length tasks = Z.to_nat number_of_runs /\
    List.length results = List.length tasks /\
    sent s' = (sent s ++ new)%list /\
    Permutation new (combine tasks (errors results)).
Proof.
  intros Hclients Hgen.
  destruct (benchmark_requests_known number_of_clients number_of_runs s Hclients)
    as (p & s' & tasks' & calls & Hrun & K & Hend).
  pose proof (pool_known_no_failure _ _ _ _ _ _ _ _ Hgen K) as Hnone.
  destruct (pool_known_end _ _ _ _ _ _ K Hnone (Hend Hnone))
    as ((sg & Hgen') & Hlen & Hfin & Hout & Hperm & Hrec).
  assert (tasks' = tasks) by congruence. subst tasks'.
  exists (outputs (slots p)), (fst (invocations (map snd calls) (env s))), s'.
  split; [now rewrite Hrun |]. split; [exact Hlen |]. split; [congruence |].
  split; [apply (known_sent K) |].
  set (results := outputs (slots p)) in *.
  set (d := {| inputs := "" |}).
  set (f := fun i => (nth i tasks d, nth i (errors results) false)).
  assert (Hnew : fst (invocations (map snd calls) (env s)) = map (fun c => f (fst c)) calls).
  { apply map_positions; [now rewrite length_invocations, length_map |].
    intros j [i a] Hj. cbn [fst].
    destruct (known_calls K) as [_ Hcalls]. rewrite Forall_forall in Hcalls.
    pose proof (Hcalls _ (nth_error_In _ _ Hj)) as Ha. cbn [fst snd] in Ha.
    destruct (Hrec i a Ha) as (j' & b & c & Hj' & _ & _ & Hres).
    assert (j' = j).
    { destruct (known_calls K) as [Hnd _].
      apply (proj1 (NoDup_nth_error (map fst calls)) Hnd).
      - rewrite length_map. apply nth_error_Some. congruence.
      - rewrite !nth_error_map, Hj, Hj'. reflexivity. }
    subst j'.
    rewrite (nth_error_invocations (map snd calls) (env s) j a)
      by (rewrite nth_error_map, Hj; reflexivity).
    unfold f. f_equal. f_equal.
    - symmetry. now apply nth_error_nth.
    - symmetry. apply nth_error_nth. unfold errors. rewrite nth_error_map, Hres.
      reflexivity. }
  assert (Hcomb : combine tasks (errors results) = map f (seq 0 (Z.to_nat number_of_runs))).
  { symmetry. rewrite <- Hlen.
    rewrite <- (length_combine_same tasks (errors results))
      by (unfold errors; rewrite length_map; congruence).
    apply map_seq_nth_error. intros i [a flag] Hi. unfold f.
    apply (nth_error_nth _ _ (d, false)) in Hi. rewrite combine_nth in Hi; [exact Hi |].
    unfold errors. rewrite length_map. congruence. }
  rewrite Hnew, Hcomb, <- (map_map fst f). now apply Permutation_map.
Qed.

Lemma benchmark_requests_without_runs (number_of_clients number_of_runs : Z) (s : state) :
  number_of_clients <> 0%Z ->
  (number_of_runs <= 0)%Z ->
  benchmark_requests number_of_clients number_of_runs s = (Ok [], s).
Proof.
  intros Hclients Hruns.
  destruct (effective_n_jobs_nonzero number_of_clients Hclients) as (w & Hw & _).
  unfold Bench.benchmark_requests, Parallel.
  replace (Z.to_nat number_of_runs) with 0 by lia.
  unfold bind, lift. rewrite Hw. reflexivity.
Qed.

Lemma finish_state (p : clients) (s : state) : snd (Bench.finish p s) = s.
Proof. unfold Bench.finish. destruct (failure p); reflexivity. Qed.

Lemma finish_returns (p : clients) (s : state) (results : list record) :
  fst (Bench.finish p s) = Ok results -> failure p = None.
Proof. unfold Bench.finish. destruct (failure p); [discriminate | reflexivity]. Qed.

(** X5: a run without requests never reaches the report: the throughput or the
    error percentage divides by zero. *)
Lemma benchmark_without_runs (fuel : nat) (number_of_clients number_of_runs : Z)
      (s : state) :
  number_of_clients <> 0%Z ->
  (number_of_runs <= 0)%Z ->
  fst (Bench.benchmark wall_clock endpoint_name invoke_endpoint raw advance uniref
                       cpu_count sched cloudwatch fuel predictor
                       number_of_clients number_of_runs s)
  = Raise ZeroDivisionError.
Proof.
  intros Hclients Hruns.
  unfold Bench.benchmark, bind, time_time.
  rewrite (benchmark_requests_without_runs _ _ s Hclients Hruns).
  unfold lift, py_div.
  destruct (Qeq_bool (wall_clock (env s) - wall_clock (env s)) 0); reflexivity.
Qed.

(** C4, amended: with at least one client and a non-negative number of
    runs, on a dataset that is not empty and has no empty sequence, the
    generator yields [number_of_runs] requests, the endpoint is invoked
    [number_of_runs] times, once for every request, and the run returns one
    record per request: the latency list and the error list have length
    [number_of_runs], and their entries at position [i] are those of the
    request generated at position [i], whatever the order in which the
    endpoint got the requests.  The latency is the difference of two
    readings of the clock, one at or before the invocation of the request
    and one after it, and the error flag tells whether that invocation
    raised. *)
Theorem benchmark_requests_one_record_per_request
        (number_of_clients number_of_runs : Z) (s : state) :
  (1 <= number_of_clients)%Z ->
  (0 <= number_of_runs)%Z ->
  uniref <> [] ->
  Forall (fun x => x <> "") uniref ->
  exists tasks sg results calls s',
    generate (Z.to_nat number_of_runs) next_request s = (Ok tasks, sg) /\
    benchmark_requests number_of_clients number_of_runs s = (Ok results, s') /\
    Z.of_nat (List.length tasks) = number_of_runs /\
    Z.of_nat (List.length (latencies results)) = number_of_runs /\
    Z.of_nat (List.length (errors results)) = number_of_runs /\
    Permutation (map fst calls) (seq 0 (Z.to_nat number_of_runs)) /\
    sent s' = (sent s ++ fst (invocations (map snd calls) (env s)))%list /\
    Z.of_nat (List.length (fst (invocations (map snd calls) (env s)))) = number_of_runs /\
    env s' = snd (invocations (map snd calls) (env s)) /\
    forall i a,
      nth_error tasks i = Some a ->
      exists j b c,
        nth_error calls j = Some (i, a) /\
        b <= j < c /\ c <= Z.to_nat number_of_runs /\
        nth_error results i = Some (measured (map snd calls) (env s) b j c a) /\
        nth_error (latencies results) i
        = Some (wall_clock (env_after (map snd calls) (env s) c)
                - wall_clock (env_after (map snd calls) (env s) b))%Q /\
        nth_error (errors results) i
        = Some (is_raise (fst (invoke_endpoint predictor a
                                 (env_after (map snd calls) (env s) j)))) /\
        nth_error (fst (invocations (map snd calls) (env s))) j
        = Some (a, is_raise (fst (invoke_endpoint predictor a
                                    (env_after (map snd calls) (env s) j)))).
Proof.
  intros Hclients Hruns Hne Hall.
  destruct (generate_ok (Z.to_nat number_of_runs) Hne Hall s) as (tasks & sg & Hgen).
  destruct (benchmark_requests_known number_of_clients number_of_runs s)
    as (p & s' & tasks' & calls & Hrun & K & Hend); [lia |].
  pose proof (pool_known_no_failure _ _ _ _ _ _ _ _ Hgen K) as Hnone.
  destruct (pool_known_end _ _ _ _ _ _ K Hnone (Hend Hnone))
    as ((sg' & Hgen') & Hlen & Hfin & Hout & Hperm & Hrec).
  assert (tasks' = tasks) by congruence. subst tasks'.
  assert (Hcalls : List.length calls = Z.to_nat number_of_runs).
  { apply Permutation_length in Hperm. now rewrite length_map, length_seq in Hperm. }
  exists tasks, sg, (outputs (slots p)), calls, s'.
  split; [exact Hgen |]. split; [now rewrite Hrun |].
  unfold latencies at 1, errors at 1. rewrite !length_map, length_invocations, length_map.
  split; [lia |]. split; [lia |]. split; [lia |]. split; [exact Hperm |].
  split; [apply (known_sent K) |]. split; [lia |]. split; [apply (known_env K) |].
  intros i a Ha. destruct (Hrec i a Ha) as (j & b & c & Hj & Hb & Hc & Hres).
  exists j, b, c. split; [exact Hj |]. split; [exact Hb |]. split; [exact Hc |].
  split; [exact Hres |]. unfold latencies, errors. rewrite !nth_error_map, Hres.
  split; [reflexivity |]. split; [reflexivity |].
  apply nth_error_invocations. now rewrite nth_error_map, Hj.
Qed.

(** C5: in every run of the parallel clients, whether it returns or
    raises, the invocations of the endpoint made during the run are those of
    requests that the generator had yielded, and no request is invoked
    twice; when the run returns, every request was generated and invoked
    once, and the error flag of its record tells whether that one
    invocation raised. *)
Theorem benchmark_never_retries
        (number_of_clients number_of_runs : Z) (s : state) :
  exists k tasks sg calls,
    k <= Z.to_nat number_of_runs /\
    generate k next_request s = (Ok tasks, sg) /\
    NoDup (map fst calls) /\
    Forall (fun c => nth_error tasks (fst c) = Some (snd c)) calls /\
    sent (snd (benchmark_requests number_of_clients number_of_runs s))
    = (sent s ++ fst (invocations (map snd calls) (env s)))%list /\
    forall results,
      fst (benchmark_requests number_of_clients number_of_runs s) = Ok results ->
      k = Z.to_nat number_of_runs /\
      List.length results = k /\
      Permutation (map fst calls) (seq 0 k) /\
      forall j i a,
        nth_error calls j = Some (i, a) ->
        exists raised,
          raised = is_raise (fst (invoke_endpoint predictor a
                                    (env_after (map snd calls) (env s) j))) /\
          nth_error (fst (invocations (map snd calls) (env s))) j = Some (a, raised) /\
          nth_error (errors results) i = Some raised.
Proof.
  destruct (Z.eq_dec number_of_clients 0) as [-> | Hclients].
  - exists 0, [], s, []. cbn [map Bench.invocations fst snd].
    split; [lia |]. split; [reflexivity |]. split; [constructor |].
    split; [constructor |]. split; [now rewrite app_nil_r |].
    intros results H. discriminate.
  - destruct (benchmark_requests_known number_of_clients number_of_runs s Hclients)
      as (p & s' & tasks & calls & Hrun & K & Hend).
    destruct (known_tasks K) as (sg & Hgen & _).
    destruct (known_calls K) as [Hnd Hcalls].
    exists (List.length (slots p)), tasks, sg, calls.
    split; [destruct (known_total K); lia |]. split; [exact Hgen |].
    split; [exact Hnd |]. split; [exact Hcalls |]. rewrite Hrun, finish_state.
    split; [apply (known_sent K) |].
    intros results Hres. pose proof (finish_returns _ _ _ Hres) as Hnone.
    destruct (pool_known_end _ _ _ _ _ _ K Hnone (Hend Hnone))
      as (_ & Hlen & Hfin & Hout & Hperm & Hrec).
    rewrite Hfin in Hres. cbn [fst] in Hres. injection Hres as <-.
    assert (Hk : List.length (slots p) = Z.to_nat number_of_runs).
    { destruct (generate_frame (List.length (slots p)) s) as (_ & _ & H).
      rewrite Hgen in H. specialize (H tasks eq_refl). congruence. }
    rewrite Hk. split; [reflexivity |]. split; [exact Hout |]. split; [exact Hperm |].
    intros j i a Hj. eexists. split; [reflexivity |].
    split; [apply nth_error_invocations; now rewrite nth_error_map, Hj |].
    rewrite Forall_forall in Hcalls.
    pose proof (Hcalls _ (nth_error_In _ _ Hj)) as Ha. cbn [fst snd] in Ha.
    destruct (Hrec i a Ha) as (j' & b & c & Hj' & _ & _ & Hrecord).
    assert (j' = j).
    { apply (proj1 (NoDup_nth_error (map fst calls)) Hnd).
      - rewrite length_map. apply nth_error_Some. congruence.
      - rewrite !nth_error_map, Hj, Hj'. reflexivity. }
    subst j'. unfold errors. rewrite nth_error_map, Hrecord. reflexivity.
Qed.

End BenchmarkFacts.

(** C4 as stated fails on a dataset with an empty sequence, and on an empty
    dataset: generating the first request raises, no request is issued and
    no list is returned.  And with two clients the endpoint can get the
    requests in another order than they were generated in. *)
Lemma benchmark_requests_needs_sequences :
  Bench.benchmark_requests tick_clock flaky_endpoint counter_raw counter_advance
                           [""] 4 out_of_order tt 1 1 fresh
  = (Raise ValueError, {| env := 0; gen := 5; sent := [] |}) /\
  Bench.benchmark_requests tick_clock flaky_endpoint counter_raw counter_advance
                           [] 4 out_of_order tt 1 1 fresh
  = (Raise IndexError, fresh) /\
  fst (generate 3 (Bench.next_request counter_raw counter_advance two_sequences) fresh)
  = Ok three_requests /\
  map fst (sent (snd (Bench.benchmark_requests tick_clock flaky_endpoint counter_raw
                        counter_advance two_sequences 4 overlapping tt 2 3 fresh)))
  = [{| inputs := "MKTAYIA<mask>" |}; {| inputs := "MKTAY<mask>AK" |};
     {| inputs := "M<mask>TAYIAK" |}].
Proof. repeat split; vm_compute; reflexivity. Qed.

(** Two clients overlap: the first request is answered after the second,
    and is measured over both invocations. *)
Example overlapping_clients :
  fst (Bench.benchmark_requests tick_clock always_answers counter_raw counter_advance
                                two_sequences 4 overlapping tt 2 3 fresh)
  = Ok [{| latency := 2; error := false; result_ := Returned 7%nat |};
        {| latency := 1; error := false; result_ := Returned 7%nat |};
        {| latency := 2; error := false; result_ := Returned 7%nat |}].
Proof. vm_compute. reflexivity. Qed.

(** One client runs the requests one after the other. *)
Example one_client :
  fst (Bench.benchmark_requests tick_clock always_answers counter_raw counter_advance
                                two_sequences 4 overlapping tt 1 3 fresh)
  = Ok [{| latency := 1; error := false; result_ := Returned 7%nat |};
        {| latency := 1; error := false; result_ := Returned 7%nat |};
        {| latency := 1; error := false; result_ := Returned 7%nat |}].
Proof. vm_compute. reflexivity. Qed.

(** The generator is consumed while the clients run: when it raises on its
    second request, the first may have been sent already. *)
Example generator_raises_late :
  Bench.benchmark_requests tick_clock always_answers counter_raw counter_advance
                           third_empty 4 (fun k => match k with O => O | _ => 1%nat end)
                           tt 2 3 {| env := 0%nat; gen := 0%nat; sent := [] |}
  = (Raise ValueError,
     {| env := 1%nat; gen := 3%nat; sent := [({| inputs := "M<mask>V" |}, false)] |}).
Proof. vm_compute. reflexivity. Qed.

Lemma benchmark_requests_one_record_per_request_witness :
  exists results s',
    Bench.benchmark_requests tick_clock flaky_endpoint counter_raw counter_advance
                             two_sequences 4 overlapping tt 2 3 fresh
    = (Ok results, s') /\
    List.length (latencies results) = 3 /\ List.length (errors results) = 3 /\
    List.length (sent s') = 3.
Proof.
  destruct (benchmark_requests_one_record_per_request
              nat unit nat nat tick_clock flaky_endpoint counter_raw counter_advance
              two_sequences 4 overlapping tt 2 3 fresh)
    as (tasks & sg & results & calls & s' & _ & Hrun & _ & Hlat & Herr & _ & Hsent & Hlen & _).
  - lia.
  - lia.
  - discriminate.
  - repeat constructor; discriminate.
  - exists results, s'. split; [exact Hrun |]. split; [lia |]. split; [lia |].
    rewrite Hsent. cbn [sent fresh app]. lia.
Defined.

Lemma benchmark_never_retries_witness :
  exists k tasks calls,
    fst (generate k (Bench.next_request counter_raw counter_advance two_sequences) fresh)
    = Ok tasks /\
    NoDup (map fst calls) /\
    Forall (fun c => nth_error tasks (fst c) = Some (snd c)) calls /\
    sent (snd (Bench.benchmark_requests tick_clock flaky_endpoint counter_raw
                 counter_advance two_sequences 4 overlapping tt 2 3 fresh))
    = fst (Bench.invocations flaky_endpoint tt (map snd calls) 0%nat).
Proof.
  destruct (benchmark_never_retries
              nat unit nat nat tick_clock flaky_endpoint counter_raw counter_advance
              two_sequences 4 overlapping tt 2 3 fresh)
    as (k & tasks & sg & calls & _ & Hgen & Hnd & Hcalls & Hsent & _).
  exists k, tasks, calls. rewrite Hgen. split; [reflexivity |].
  split; [exact Hnd |]. split; [exact Hcalls | exact Hsent].
Defined.

End BenchmarkFacts.

(** ** Quantiles and the reported percentiles *)

Module QuantileFacts.
Import Interpolation.

Lemma Qle_bool_false (x y : Q) : Qle_bool x y = false -> (y <= x)%Q.
Proof.
  intros H. apply Qlt_le_weak, Qnot_le_lt. intros Hle.
  apply Qle_bool_iff in Hle. congruence.
Qed.

Lemma insert_sorted_in (x y : Q) (l : list Q) :
  In y (insert_sorted x l) <-> y = x \/ In y l.
Proof.
  induction l as [| z l IH]; cbn [insert_sorted].
  - cbn. intuition.
  - destruct (Qle_bool x z); cbn [In]; [intuition |]. rewrite IH. intuition.
Qed.

Lemma insert_sorted_sorted (x : Q) (l : list Q) :
  Sorted Qle l -> Sorted Qle (insert_sorted x l).
Proof.
  induction l as [| z l IH]; intros Hs; cbn [insert_sorted].
  - repeat constructor.
  - destruct (Qle_bool x z) eqn:E.
    + constructor; [exact Hs |]. constructor. now apply Qle_bool_iff.
    + inversion Hs as [| ? ? Hs' Hhd]; subst.
      constructor; [now apply IH |].
      destruct l as [| w l]; cbn [insert_sorted].
      * constructor. now apply Qle_bool_false.
      * destruct (Qle_bool x w); constructor.
        -- now apply Qle_bool_false.
        -- now inversion Hhd.
Qed.

Lemma sort_sorted (l : list Q) : Sorted Qle (sort l).
Proof.
  induction l as [| x l IH]; [constructor |]. now apply insert_sorted_sorted.
Qed.

Lemma sort_in (y : Q) (l : list Q) : In y (sort l) <-> In y l.
Proof.
  induction l as [| x l IH]; [reflexivity |].
  unfold sort in *. cbn [fold_right In]. rewrite insert_sorted_in, IH. intuition.
Qed.

Lemma insert_sorted_length (x : Q) (l : list Q) :
  List.length (insert_sorted x l) = S (List.length l).
Proof.
  induction l as [| z l IH]; [reflexivity |]. cbn [insert_sorted].
  destruct (Qle_bool x z); cbn [List.length]; [reflexivity | now rewrite IH].
Qed.

Lemma sort_length (l : list Q) : List.length (sort l) = List.length l.
Proof.
  induction l as [| x l IH]; [reflexivity |].
  unfold sort in *. cbn [fold_right]. now rewrite insert_sorted_length, IH.
Qed.

Lemma sorted_nth (s : list Q) (d : Q) :
  Sorted Qle s ->
  forall i j, i <= j -> j < List.length s -> (nth i s d <= nth j s d)%Q.
Proof.
  intros Hs. apply Sorted_StronglySorted in Hs; [| exact Qle_trans].
  induction Hs as [| x s Hs IH Hall]; intros i j Hij Hj; [cbn in Hj; lia |].
  destruct i as [| i], j as [| j]; cbn [nth]; try lia.
  - apply Qle_refl.
  - rewrite Forall_forall in Hall. apply Hall, nth_In. cbn in Hj. lia.
  - apply IH; cbn in Hj; lia.
Qed.

Section Interpolate.
Variables (s : list Q) (x0 : Q).
Hypothesis s_sorted : Sorted Qle s.
Hypothesis s_nonempty : 0 < List.length s.

Local Notation n := (Z.of_nat (List.length s)).

Lemma floor_in_range (v : Q) :
  (0 <= v)%Q -> (v <= inject_Z (n - 1))%Q ->
  (0 <= Qfloor v <= n - 1)%Z /\
  (0 <= v - inject_Z (Qfloor v))%Q /\ (v - inject_Z (Qfloor v) <= 1)%Q.
Proof.
  intros H0 Hn. split; [split |].
  - rewrite <- (Qfloor_Z 0). now apply Qfloor_resp_le.
  - rewrite <- (Qfloor_Z (n - 1)). now apply Qfloor_resp_le.
  - pose proof (Qfloor_le v). pose proof (Qlt_floor v) as Hlt.
    rewrite inject_Z_plus in Hlt. change (inject_Z 1) with 1%Q in Hlt.
    split; lra.
Qed.

(** The interpolated value lies between the two order statistics around it. *)
Lemma interpolate_between (v : Q) :
  (0 <= v)%Q -> (v <= inject_Z (n - 1))%Q ->
  (nth (Z.to_nat (Qfloor v)) s x0 <= interpolate s x0 v)%Q /\
  (interpolate s x0 v <= nth (Z.to_nat (Z.min (Qfloor v + 1) (n - 1))) s x0)%Q.
Proof.
  intros H0 Hn. destruct (floor_in_range v H0 Hn) as ([Hlo0 Hlo1] & Hg0 & Hg1).
  unfold interpolate.
  set (lo := Qfloor v) in *. set (hi := Z.min (lo + 1) (n - 1)).
  set (g := (v - inject_Z lo)%Q) in *.
  assert (Hle : (nth (Z.to_nat lo) s x0 <= nth (Z.to_nat hi) s x0)%Q).
  { apply sorted_nth; [exact s_sorted | lia | lia]. }
  set (a := nth (Z.to_nat lo) s x0) in *. set (b := nth (Z.to_nat hi) s x0) in *.
  split; nra.
Qed.

Lemma interpolate_monotone (v w : Q) :
  (0 <= v)%Q -> (v <= w)%Q -> (w <= inject_Z (n - 1))%Q ->
  (interpolate s x0 v <= interpolate s x0 w)%Q.
Proof.
  intros H0 Hvw Hn.
  assert (Hv : (v <= inject_Z (n - 1))%Q) by lra.
  assert (Hw : (0 <= w)%Q) by lra.
  destruct (floor_in_range v H0 Hv) as ([Hv0 Hv1] & Hgv0 & Hgv1).
  destruct (floor_in_range w Hw Hn) as ([Hw0 Hw1] & Hgw0 & Hgw1).
  pose proof (Qfloor_resp_le v w Hvw) as Hfl.
  destruct (Z.eq_dec (Qfloor v) (Qfloor w)) as [Heq | Hne].
  - unfold interpolate. rewrite <- Heq.
    set (lo := Qfloor v) in *. set (hi := Z.min (lo + 1) (n - 1)).
    assert (Hle : (nth (Z.to_nat lo) s x0 <= nth (Z.to_nat hi) s x0)%Q).
    { apply sorted_nth; [exact s_sorted | lia | lia]. }
    set (a := nth (Z.to_nat lo) s x0) in *. set (b := nth (Z.to_nat hi) s x0) in *.
    nra.
  - destruct (interpolate_between v H0 Hv) as [_ Hup].
    destruct (interpolate_between w Hw Hn) as [Hlow _].
    eapply Qle_trans; [exact Hup |]. eapply Qle_trans; [| exact Hlow].
    apply sorted_nth; [exact s_sorted | lia | lia].
Qed.

End Interpolate.


Lemma sort_nonempty (a : list Q) : a <> [] -> exists x0 rest, sort a = x0 :: rest.
Proof.
  intros Ha. destruct (sort a) as [| x0 rest] eqn:E; [| now exists x0, rest].
  apply (f_equal (@List.length Q)) in E. rewrite sort_length in E.
  destruct a; [contradiction | discriminate].
Qed.

(** [quantile] on a sample that is not empty, for a level between 0 and 1. *)
Lemma quantile_interpolate (a : list Q) (q : Q) :
  a <> [] -> (0 <= q)%Q -> (q <= 1)%Q ->
  exists x0 rest,
    sort a = x0 :: rest /\
    quantile a q
    = Ok (interpolate (sort a) x0 (q * inject_Z (Z.of_nat (List.length (sort a)) - 1))).
Proof.
  intros Ha H0 H1. destruct (sort_nonempty a Ha) as (x0 & rest & Hs).
  exists x0, rest. split; [exact Hs |].
  unfold quantile.
  apply Qle_bool_iff in H0. apply Qle_bool_iff in H1. rewrite H0, H1. cbn [andb negb].
  rewrite Hs. reflexivity.
Qed.

Lemma virtual_index_range (q : Q) (n : Z) :
  (1 <= n)%Z -> (0 <= q)%Q -> (q <= 1)%Q ->
  (0 <= q * inject_Z (n - 1))%Q /\ (q * inject_Z (n - 1) <= inject_Z (n - 1))%Q.
Proof.
  intros Hn H0 H1.
  assert (Hc : (0 <= inject_Z (n - 1))%Q).
  { change 0%Q with (inject_Z 0). rewrite <- Zle_Qle. lia. }
  split; nra.
Qed.

(** Every quantile of a sample lies within any bounds of the sample. *)
Lemma quantile_bounds (a : list Q) (q m M : Q) :
  a <> [] -> (0 <= q)%Q -> (q <= 1)%Q ->
  Forall (fun x => (m <= x)%Q) a -> Forall (fun x => (x <= M)%Q) a ->
  exists v, quantile a q = Ok v /\ (m <= v)%Q /\ (v <= M)%Q.
Proof.
  intros Ha H0 H1 Hm HM.
  destruct (quantile_interpolate a q Ha H0 H1) as (x0 & rest & Hs & Hq).
  eexists. split; [exact Hq |].
  assert (Hlen : 0 < List.length (sort a)) by (rewrite Hs; cbn; lia).
  destruct (virtual_index_range q (Z.of_nat (List.length (sort a)))) as [Hv0 Hv1];
    [lia | assumption | assumption |].
  destruct (interpolate_between (sort a) x0 (sort_sorted a) Hlen _ Hv0 Hv1) as [Hlow Hup].
  destruct (floor_in_range (sort a) _ Hv0 Hv1) as ([Hf0 Hf1] & _).
  rewrite Forall_forall in Hm, HM. split.
  - eapply Qle_trans; [| exact Hlow]. apply Hm, sort_in, nth_In. lia.
  - eapply Qle_trans; [exact Hup |]. apply HM, sort_in, nth_In. lia.
Qed.

(** A higher level gives a quantile that is not lower. *)
Lemma quantile_monotone (a : list Q) (q1 q2 : Q) :
  a <> [] -> (0 <= q1)%Q -> (q1 <= q2)%Q -> (q2 <= 1)%Q ->
  exists v1 v2, quantile a q1 = Ok v1 /\ quantile a q2 = Ok v2 /\ (v1 <= v2)%Q.
Proof.
  intros Ha H0 H12 H1.
  destruct (quantile_interpolate a q1 Ha H0) as (x0 & rest & Hs & Hq1); [lra |].
  destruct (quantile_interpolate a q2 Ha) as (x0' & rest' & Hs' & Hq2); [lra | lra |].
  rewrite Hs in Hs'. injection Hs' as <- <-.
  do 2 eexists. split; [exact Hq1 |]. split; [exact Hq2 |].
  assert (Hlen : 0 < List.length (sort a)) by (rewrite Hs; cbn; lia).
  destruct (virtual_index_range q1 (Z.of_nat (List.length (sort a)))) as [Hv0 _];
    [lia | lra | lra |].
  destruct (virtual_index_range q2 (Z.of_nat (List.length (sort a)))) as [_ Hw1];
    [lia | lra | lra |].
  apply interpolate_monotone; [apply sort_sorted | exact Hlen | exact Hv0 | | exact Hw1].
  assert (Hc : (0 <= inject_Z (Z.of_nat (List.length (sort a)) - 1))%Q).
  { change 0%Q with (inject_Z 0). rewrite <- Zle_Qle. lia. }
  nra.
Qed.

Lemma slice_from_last {A} (old recent : list A) (k : Z) :
  (0 < k)%Z -> (k <= Z.of_nat (List.length recent))%Z ->
  slice_from (old ++ recent) (- k) = slice_from recent (- k).
Proof.
  intros Hk Hlen. unfold slice_from.
  destruct (Z.leb_spec 0 (- k)) as [Hneg | _]; [lia |].
  rewrite Z.opp_involutive, length_app, skipn_app.
  rewrite skipn_all2 by lia. cbn [app]. f_equal. lia.
Qed.

Lemma slice_from_forall {A} (P : A -> Prop) (l : list A) (k : Z) :
  Forall P l -> Forall P (slice_from l k).
Proof.
  intros H. unfold slice_from.
  destruct (0 <=? k)%Z;
    match goal with |- Forall _ (skipn ?n _) =>
      rewrite <- (firstn_skipn n l) in H; now apply Forall_app in H
    end.
Qed.

Lemma slice_from_nonempty {A} (l : list A) (k : Z) :
  (0 < k)%Z -> l <> [] -> slice_from l (- k) <> [].
Proof.
  intros Hk Hl Hnil. apply (f_equal (@List.length A)) in Hnil.
  unfold slice_from in Hnil.
  destruct (Z.leb_spec 0 (- k)) as [Hneg | _]; [lia |].
  rewrite length_skipn in Hnil. cbn in Hnil.
  destruct l; [contradiction |]. cbn [List.length] in Hnil. lia.
Qed.

Lemma percentiles_defined (l : list Q) :
  l <> [] -> exists p50 p90 p95, percentiles l = Ok (p50, p90, p95).
Proof.
  intros Hl.
  assert (Hw : slice_from l (-10000) <> [])
    by (apply (slice_from_nonempty l 10000); [lia | exact Hl]).
  destruct (quantile_interpolate _ (50 # 100) Hw) as (? & ? & _ & H50); [lra | lra |].
  destruct (quantile_interpolate _ (95 # 100) Hw) as (? & ? & _ & H95); [lra | lra |].
  destruct (quantile_interpolate _ (99 # 100) Hw) as (? & ? & _ & H99); [lra | lra |].
  unfold percentiles. rewrite H50, H95, H99. cbn [rbind]. now do 3 eexists.
Qed.

(** The percentiles of a run with at least one latency: defined, ordered,
    and within any bounds of the latencies. *)
Lemma percentiles_within (l : list Q) (m M : Q) :
  l <> [] ->
  Forall (fun x => (m <= x)%Q) l -> Forall (fun x => (x <= M)%Q) l ->
  exists p50 p90 p95,
    percentiles l = Ok (p50, p90, p95) /\
    (m * 1000 <= p50)%Q /\ (p50 <= p90)%Q /\ (p90 <= p95)%Q /\ (p95 <= M * 1000)%Q.
Proof.
  intros Hl Hm HM.
  set (w := slice_from l (-10000)).
  assert (Hw : w <> []) by (apply (slice_from_nonempty l 10000); [lia | exact Hl]).
  assert (Hwm : Forall (fun x => (m <= x)%Q) w) by now apply slice_from_forall.
  assert (HwM : Forall (fun x => (x <= M)%Q) w) by now apply slice_from_forall.
  destruct (quantile_monotone w (50 # 100) (95 # 100) Hw) as (v50 & v95 & H50 & H95 & Hle1);
    [lra | lra | lra |].
  destruct (quantile_monotone w (95 # 100) (99 # 100) Hw) as (v95' & v99 & H95' & H99 & Hle2);
    [lra | lra | lra |].
  rewrite H95 in H95'. injection H95' as <-.
  destruct (quantile_bounds w (50 # 100) m M Hw) as (v & Hv & Hlow & _);
    [lra | lra | assumption | assumption |].
  rewrite H50 in Hv. injection Hv as <-.
  destruct (quantile_bounds w (99 # 100) m M Hw) as (v & Hv & _ & Hup);
    [lra | lra | assumption | assumption |].
  rewrite H99 in Hv. injection Hv as <-.
  exists (v50 * 1000)%Q, (v95 * 1000)%Q, (v99 * 1000)%Q.
  split.
  - unfold percentiles. fold w. rewrite H50, H95, H99. reflexivity.
  - repeat split; lra.
Qed.

Lemma percentiles_ordered (l : list Q) :
  l <> [] ->
  exists p50 p90 p95,
    percentiles l = Ok (p50, p90, p95) /\ (p50 <= p90)%Q /\ (p90 <= p95)%Q.
Proof.
  intros Hl. destruct l as [| x l]; [contradiction |].
  set (w := slice_from (x :: l) (-10000)).
  assert (Hw : w <> []) by (apply (slice_from_nonempty (x :: l) 10000); [lia | discriminate]).
  destruct (quantile_monotone w (50 # 100) (95 # 100) Hw) as (v50 & v95 & H50 & H95 & Hle1);
    [lra | lra | lra |].
  destruct (quantile_monotone w (95 # 100) (99 # 100) Hw) as (v95' & v99 & H95' & H99 & Hle2);
    [lra | lra | lra |].
  rewrite H95 in H95'. injection H95' as <-.
  exists (v50 * 1000)%Q, (v95 * 1000)%Q, (v99 * 1000)%Q.
  split.
  - unfold percentiles. fold w. rewrite H50, H95, H99. reflexivity.
  - split; lra.
Qed.

(** X1: the three reported percentiles exist as soon as one latency was
    measured, they are ordered, and they lie within any bounds of the
    latencies, in milliseconds; without a latency there is none. *)
Theorem percentiles_ordered_and_bounded (l : list Q) (m M : Q) :
  (l = [] -> percentiles l = Raise IndexError) /\
  (l <> [] ->
   Forall (fun x => (m <= x)%Q) l -> Forall (fun x => (x <= M)%Q) l ->
   exists p50 p90 p95,
     percentiles l = Ok (p50, p90, p95) /\
     (m * 1000 <= p50)%Q /\ (p50 <= p90)%Q /\ (p90 <= p95)%Q /\ (p95 <= M * 1000)%Q).
Proof.
  split; [intros ->; reflexivity |]. apply percentiles_within.
Qed.

(** X2: only the last ten thousand latencies enter the percentiles. *)
Theorem percentiles_last_ten_thousand (old recent : list Q) :
  (10000 <= Z.of_nat (List.length recent))%Z ->
  percentiles (old ++ recent) = percentiles recent.
Proof.
  intros Hlen. unfold percentiles.
  change (-10000)%Z with (Z.opp 10000).
  rewrite (slice_from_last old recent 10000) by lia. reflexivity.
Qed.

End QuantileFacts.

(** ** The error percentage and the monitoring period *)

Module MetricsFacts.

Lemma sum_bool_range (l : list bool) :
  (0 <= sum_bool l <= Z.of_nat (List.length l))%Z.
Proof.
  unfold sum_bool. pose proof (count_occ_bound bool_dec true l). lia.
Qed.

(** Metrics of a run with at least one record. *)
Lemma compute_metrics_run (Response : Type) (avg : Q)
      (results : list (latency_record Response)) :
  results <> [] ->
  exists m,
    compute_metrics avg results = Ok m /\
    avg_throughput m = avg /\
    (error_p m * inject_Z (Z.of_nat (List.length results))
     == 100 * inject_Z (sum_bool (errors results)))%Q /\
    (0 <= error_p m)%Q /\ (error_p m <= 100)%Q /\
    percentiles (latencies results) = Ok (p50 m, p90 m, p95 m).
Proof.
  intros Hne.
  assert (Hn : 0 < List.length results) by (destruct results; [contradiction | cbn; lia]).
  destruct (sum_bool_range (errors results)) as [Hc0 Hc1].
  assert (Hlen : List.length (errors results) = List.length results)
    by (unfold errors; apply length_map).
  rewrite Hlen in Hc1.
  destruct (QuantileFacts.percentiles_defined (latencies results)) as (a & b & c & Hp).
  { unfold latencies. destruct results; [contradiction | discriminate]. }
  unfold compute_metrics, py_div. cbv zeta. rewrite Hlen.
  set (n := inject_Z (Z.of_nat (List.length results))).
  set (k := inject_Z (sum_bool (errors results))).
  assert (Hnpos : (0 < n)%Q).
  { unfold n. change 0%Q with (inject_Z 0). rewrite <- Zlt_Qlt. lia. }
  assert (Hk0 : (0 <= k)%Q).
  { unfold k. change 0%Q with (inject_Z 0). now rewrite <- Zle_Qle. }
  assert (Hkn : (k <= n)%Q) by (unfold k, n; now rewrite <- Zle_Qle).
  destruct (Qeq_bool n 0) eqn:E; [apply Qeq_bool_iff in E; lra |].
  cbn [rbind]. rewrite Hp. cbn [rbind].
  eexists. split; [reflexivity |]. cbn [avg_throughput error_p p50 p90 p95].
  split; [reflexivity |].
  assert (Hdiv : (k / n * n == k)%Q) by (field; lra).
  assert (Hq0 : (0 <= k / n)%Q) by (apply Qle_shift_div_l; lra).
  assert (Hq1 : (k / n <= 1)%Q) by (apply Qle_shift_div_r; lra).
  split; [| split; [| split]]; try lra; try reflexivity; nra.
Qed.

(** X3: the error percentage of a run with at least one record is the share
    of records flagged as errors, between 0 and 100; with no record at all the
    division by the number of records raises. *)
Theorem compute_metrics_error_rate (Response : Type) (avg : Q)
        (results : list (latency_record Response)) :
  (results = [] -> compute_metrics avg results = Raise ZeroDivisionError) /\
  (results <> [] ->
   exists m,
     compute_metrics avg results = Ok m /\
     avg_throughput m = avg /\
     (error_p m * inject_Z (Z.of_nat (List.length results))
      == 100 * inject_Z (sum_bool (errors results)))%Q /\
     (0 <= error_p m)%Q /\ (error_p m <= 100)%Q).
Proof.
  split.
  - intros ->. reflexivity.
  - intros Hne.
    destruct (compute_metrics_run Response avg results Hne)
      as (m & Hm & Havg & Hrate & H0 & H100 & _).
    exists m. repeat split; assumption.
Qed.

Lemma inject_Z_pred (c : Z) : (inject_Z (c - 1) == inject_Z c - 1)%Q.
Proof. unfold Z.sub. rewrite inject_Z_plus, inject_Z_opp. reflexivity. Qed.

(** The length of the monitoring period. *)
Lemma metric_period_ceiling (cw_start cw_end : Q) :
  Monitoring.metric_period cw_start cw_end
  = (Qceiling ((cw_end + 300 - cw_start) / 60) * 60)%Z.
Proof. reflexivity. Qed.

(** X4: the period of the monitoring query is a multiple of 60 seconds; when
    the clock did not go back during the run it is at least 300 and is the
    length of the queried window rounded up to the minute; when the clock went
    back by the five minutes of slack or more, it is not positive. *)
Theorem metric_period_covers_window (cw_start cw_end : Q) :
  (Monitoring.metric_period cw_start cw_end mod 60 = 0)%Z /\
  ((cw_start <= cw_end)%Q ->
   (300 <= Monitoring.metric_period cw_start cw_end)%Z /\
   (cw_end + 300 - cw_start <= inject_Z (Monitoring.metric_period cw_start cw_end))%Q /\
   (inject_Z (Monitoring.metric_period cw_start cw_end) < cw_end + 300 - cw_start + 60)%Q) /\
  ((cw_end + 300 <= cw_start)%Q ->
   (Monitoring.metric_period cw_start cw_end <= 0)%Z).
Proof.
  rewrite metric_period_ceiling.
  set (w := (cw_end + 300 - cw_start)%Q).
  pose proof (Qle_ceiling (w / 60)) as Hup.
  pose proof (Qceiling_lt (w / 60)) as Hlow.
  rewrite inject_Z_pred in Hlow.
  assert (Hd : (w / 60 * 60 == w)%Q) by (field; discriminate).
  set (d := (w / 60)%Q) in *.
  set (c := Qceiling d) in *.
  assert (Hinj : (inject_Z (c * 60) == inject_Z c * 60)%Q).
  { rewrite inject_Z_mult. reflexivity. }
  split; [apply Z.mod_mul; lia |]. split.
  - intros Hmono. assert (Hw : (300 <= w)%Q) by (unfold w; lra).
    split; [| split].
    + assert (Hc : (5 <= c)%Z); [| lia].
      rewrite Zle_Qle. change (inject_Z 5) with 5%Q. lra.
    + rewrite Hinj. lra.
    + rewrite Hinj. lra.
  - intros Hback. assert (Hw : (w <= 0)%Q) by (unfold w; lra).
    assert (Hc : (c <= 0)%Z); [| lia].
    assert (Hlt : (c - 1 < 0)%Z); [| lia].
    rewrite Zlt_Qlt, inject_Z_pred. change (inject_Z 0) with 0%Q. lra.
Qed.

End MetricsFacts.

(** ** A whole run of [benchmark] *)

Module BenchmarkRunFacts.
Import ListFacts Monitoring.

Lemma map_snd_combine_same {A B} : forall (l1 : list A) (l2 : list B),
  List.length l1 = List.length l2 -> map snd (combine l1 l2) = l2.
Proof.
  induction l1 as [| x l1 IH]; intros [| y l2] Hlen; try discriminate; [reflexivity |].
  cbn. rewrite IH; [reflexivity | now injection Hlen].
Qed.

(** The number of submissions in a trace whose invocation raised. *)
Lemma raised_permutation (new : list (payload * bool)) (tasks : list payload)
      (flags : list bool) :
  List.length tasks = List.length flags ->
  Permutation new (combine tasks flags) ->
  sum_bool flags = Z.of_nat (raised new).
Proof.
  intros Hlen Hperm. unfold sum_bool, raised. f_equal.
  apply (Permutation_map snd) in Hperm. rewrite map_snd_combine_same in Hperm by exact Hlen.
  symmetry. apply Permutation_count_occ. exact Hperm.
Qed.

Section BenchmarkRunFacts.
Variables Env Predictor Response Gen : Type.
Variable wall_clock : Env -> Q.
Variable invoke_endpoint : Predictor -> payload -> Env -> result Response * Env.
Variable raw : Gen -> nat.
Variable advance : Gen -> Gen.
Variable uniref : list string.
Variable cpu_count : nat.
Variable sched : nat -> nat.
Variable endpoint_name : Predictor -> string.
Variable cloudwatch : query -> nat -> list datapoint.
Variable predictor : Predictor.

Local Notation state := (Bench.state Env Gen).
Local Notation next_request := (@Bench.next_request Env Gen raw advance uniref).
Local Notation benchmark_requests :=
  (Bench.benchmark_requests wall_clock invoke_endpoint raw advance uniref
                            cpu_count sched predictor).
Local Notation benchmark :=
  (Bench.benchmark wall_clock endpoint_name invoke_endpoint raw advance uniref
                   cpu_count sched cloudwatch).

(** [benchmark] once its parallel clients have returned. *)
Lemma benchmark_after_requests (fuel : nat) (number_of_clients number_of_runs : Z)
      (s s' : state) (results : list (latency_record Response)) :
  benchmark_requests number_of_clients number_of_runs s = (Ok results, s') ->
  benchmark fuel predictor number_of_clients number_of_runs s =
    match py_div (inject_Z (Z.of_nat (Z.to_nat number_of_runs)))
                 (wall_clock (env s') - wall_clock (env s)) with
    | Raise e => (Raise e, s')
    | Ok avg =>
        match compute_metrics avg results with
        | Raise e => (Raise e, s')
        | Ok m =>
            (Ok (m, poll_loop cloudwatch
                              (Monitoring.metric_query (endpoint_name predictor)
                                 (wall_clock (env s)) (wall_clock (env s')))
                              fuel 0), s')
        end
    end.
Proof.
  intros Hrun. unfold Bench.benchmark, bind, time_time. rewrite Hrun. unfold lift.
  destruct (py_div _ _) as [avg | e]; [| reflexivity].
  destruct (compute_metrics avg results) as [m | e]; reflexivity.
Qed.

(** The period of the monitoring query when the clock has not gone back. *)
Lemma metric_period_at_least (cw_start cw_end : Q) :
  (cw_start <= cw_end)%Q ->
  (300 <= Monitoring.metric_period cw_start cw_end)%Z /\
  (Monitoring.metric_period cw_start cw_end mod 60 = 0)%Z.
Proof.
  intros Hmono. rewrite MetricsFacts.metric_period_ceiling.
  split; [| apply Z.mod_mul; lia].
  set (w := (cw_end + 300 - cw_start)%Q).
  pose proof (Qle_ceiling (w / 60)) as Hup.
  assert (Hd : (w / 60 * 60 == w)%Q) by (field; discriminate).
  assert (Hw : (300 <= w)%Q) by (unfold w; lra).
  set (d := (w / 60)%Q) in *.
  assert (Hc : (5 <= Qceiling d)%Z); [| lia].
  rewrite Zle_Qle. change (inject_Z 5) with 5%Q. lra.
Qed.

(** X6: a run of at least one request, on a clock that has advanced by the end
    of the requests, gets to its report: the throughput is the number of runs
    over the elapsed time, the error percentage is the share of the submitted
    requests whose invocation raised, the percentiles are those of the
    latencies of the records and are ordered, and the monitoring service is
    then polled for the window of the run plus five minutes, with a period
    that is a multiple of 60 and at least 300. *)
Theorem benchmark_returns (fuel : nat) (number_of_clients number_of_runs : Z)
        (s s1 : state) (tasks : list payload) :
  number_of_clients <> 0%Z ->
  generate (Z.to_nat number_of_runs) next_request s = (Ok tasks, s1) ->
  tasks <> [] ->
  let s' := snd (benchmark_requests number_of_clients number_of_runs s) in
  let elapsed := (wall_clock (env s') - wall_clock (env s))%Q in
  (wall_clock (env s) < wall_clock (env s'))%Q ->
  exists results m new q,
    benchmark_requests number_of_clients number_of_runs s = (Ok results, s') /\
    benchmark fuel predictor number_of_clients number_of_runs s
    = (Ok (m, poll_loop cloudwatch q fuel 0), s') /\
    q = Monitoring.metric_query (endpoint_name predictor)
          (wall_clock (env s)) (wall_clock (env s')) /\
    (300 <= Period q)%Z /\ (Period q mod 60 = 0)%Z /\
    sent s' = (sent s ++ new)%list /\
    Permutation (map fst new) tasks /\
    (avg_throughput m == inject_Z number_of_runs / elapsed)%Q /\
    (error_p m * inject_Z number_of_runs == 100 * inject_Z (Z.of_nat (raised new)))%Q /\
    (0 <= error_p m)%Q /\ (error_p m <= 100)%Q /\
    percentiles (latencies results) = Ok (p50 m, p90 m, p95 m) /\
    (p50 m <= p90 m)%Q /\ (p90 m <= p95 m)%Q.
Proof.
  intros Hclients Hgen Htasks s' elapsed Helapsed.
  destruct (BenchmarkFacts.benchmark_requests_run
              Env Predictor Response Gen wall_clock invoke_endpoint raw advance uniref
              cpu_count sched predictor number_of_clients number_of_runs s s1 tasks
              Hclients Hgen)
    as (results & new & s2 & Hrun & Hlen & Hres & Hsent & Hperm).
  assert (Hs' : s' = s2) by (unfold s'; now rewrite Hrun).
  clearbody s'. subst s2.
  assert (Hresults : results <> []).
  { destruct results; [| discriminate]. destruct tasks; [contradiction | discriminate]. }
  assert (Hruns : Z.of_nat (Z.to_nat number_of_runs) = number_of_runs).
  { destruct tasks; [contradiction |]. cbn [List.length] in Hlen. lia. }
  rewrite (benchmark_after_requests fuel _ _ s s' results Hrun).
  unfold py_div. fold elapsed. rewrite Hruns.
  destruct (Qeq_bool elapsed 0) eqn:E;
    [apply Qeq_bool_iff in E; unfold elapsed in E; lra |].
  destruct (MetricsFacts.compute_metrics_run Response
              (inject_Z number_of_runs / elapsed) results Hresults)
    as (m & Hm & Havg & Hrate & H0 & H100 & Hp).
  rewrite Hm.
  exists results, m, new,
    (Monitoring.metric_query (endpoint_name predictor)
       (wall_clock (env s)) (wall_clock (env s'))).
  assert (Hflags : List.length tasks = List.length (errors results))
    by (unfold errors; now rewrite length_map).
  destruct (QuantileFacts.percentiles_ordered (latencies results)) as (a & b & c & Hp' & Hab & Hbc).
  { unfold latencies. destruct results; [contradiction | discriminate]. }
  rewrite Hp in Hp'. injection Hp' as <- <- <-.
  destruct (metric_period_at_least (wall_clock (env s)) (wall_clock (env s')))
    as [H300 H60]; [lra |].
  split; [exact Hrun |]. split; [reflexivity |]. split; [reflexivity |].
  split; [exact H300 |]. split; [exact H60 |]. split; [exact Hsent |]. split.
  { rewrite (Permutation_map fst Hperm). now rewrite map_fst_combine_same. }
  split; [now rewrite Havg |]. split.
  { rewrite <- (raised_permutation new tasks (errors results) Hflags Hperm).
    rewrite <- Hruns at 1. rewrite <- Hlen, <- Hres. exact Hrate. }
  repeat split; assumption.
Qed.

End BenchmarkRunFacts.

End BenchmarkRunFacts.

(** ** What the polling loop reports; the edges of [random_sequence] *)

Module PollReportFacts.

Section PollReportFacts.
Variable cloudwatch : query -> nat -> list datapoint.
Variable q : query.

Lemma poll_loop_report_from (fuel : nat) : forall (k j : nat) (dp : datapoint) rest,
  (forall i, k <= i < k + j -> cloudwatch q i = []) ->
  cloudwatch q (k + j) = dp :: rest ->
  j < fuel ->
  poll_loop cloudwatch q fuel k
  = Some {| polls := S (k + j);
            side_avg := Average dp / 1000;
            side_p50 := ext_p50 dp / 1000;
            side_p90 := ext_p90 dp / 1000;
            side_p95 := ext_p95 dp / 1000;
            side_p100 := ext_p100 dp / 1000 |}.
Proof.
  induction fuel as [| fuel IH]; intros k j dp rest Hempty Hdata Hfuel; [lia |].
  destruct j as [| j].
  - rewrite Nat.add_0_r in *. cbn [poll_loop]. rewrite Hdata. reflexivity.
  - rewrite PollFacts.poll_loop_skip by (apply Hempty; lia).
    rewrite (IH (S k) j dp rest).
    + do 2 f_equal. lia.
    + intros i Hi. apply Hempty. lia.
    + now replace (S k + j) with (k + S j) by lia.
    + lia.
Qed.

(** X7: what the loop reports are the statistics of the first datapoint of
    the first answer that has one, divided by 1000; the other datapoints of
    that answer and all later answers play no part. *)
Theorem poll_loop_reports_first_datapoint (n fuel : nat) (dp : datapoint)
        (rest : list datapoint) :
  (forall i, i < n -> cloudwatch q i = []) ->
  cloudwatch q n = dp :: rest ->
  n < fuel ->
  poll_loop cloudwatch q fuel 0
  = Some {| polls := S n;
            side_avg := Average dp / 1000;
            side_p50 := ext_p50 dp / 1000;
            side_p90 := ext_p90 dp / 1000;
            side_p95 := ext_p95 dp / 1000;
            side_p100 := ext_p100 dp / 1000 |}.
Proof.
  intros Hempty Hdata Hfuel.
  apply (poll_loop_report_from fuel 0 n dp rest); [| exact Hdata | exact Hfuel].
  intros i Hi. apply Hempty. lia.
Qed.

End PollReportFacts.

Lemma poll_loop_reports_first_datapoint_witness :
  poll_loop third_answer sample_query 4 0
  = Some {| polls := 3; side_avg := 2500 / 1000; side_p50 := 2000 / 1000;
            side_p90 := 4000 / 1000; side_p95 := 4500 / 1000;
            side_p100 := 5000 / 1000 |}.
Proof.
  apply (poll_loop_reports_first_datapoint third_answer sample_query 2 4 one_datapoint []).
  - intros i Hi. unfold third_answer.
    destruct (Nat.ltb_spec i 2) as [_ | Hge]; [reflexivity | lia].
  - reflexivity.
  - lia.
Defined.

End PollReportFacts.

Module RandomSequenceEdges.
Import StringFacts.

Lemma slice_to_empty_iff {A} (l : list A) (stop : Z) :
  slice_to l stop = [] <->
  l = [] \/ stop = 0%Z \/ (stop <= - Z.of_nat (List.length l))%Z.
Proof.
  unfold slice_to. destruct l as [| x l].
  - split; [now left |]. intros _. destruct (0 <=? stop)%Z; apply firstn_nil.
  - destruct (Z.leb_spec 0 stop) as [Hpos | Hneg].
    + destruct (Z.to_nat stop) as [| k] eqn:Hk.
      * split; [intros _; right; left; lia | reflexivity].
      * split; [discriminate |].
        intros [H | [H | H]]; [discriminate | lia | cbn [List.length] in H; lia].
    + destruct (List.length (x :: l) - Z.to_nat (- stop)) as [| k] eqn:Hk.
      * split; [intros _; right; right; lia | reflexivity].
      * split; [discriminate |].
        intros [H | [H | H]]; [discriminate | lia | lia].
Qed.

Lemma string_of_list_ascii_empty (l : list ascii) :
  string_of_list_ascii l = "" <-> l = [].
Proof. destruct l; split; intros H; try reflexivity; discriminate. Qed.

Lemma length_list_ascii_of_string (s : string) :
  List.length (list_ascii_of_string s) = String.length s.
Proof. induction s as [| a s IH]; [reflexivity |]. cbn. now rewrite IH. Qed.

(** When the cut [s[:stop]] of a string is empty. *)
Lemma str_slice_to_empty_iff (s : string) (stop : Z) :
  str_slice_to s stop = "" <->
  s = "" \/ stop = 0%Z \/ (stop <= - Z.of_nat (String.length s))%Z.
Proof.
  unfold str_slice_to. rewrite string_of_list_ascii_empty, slice_to_empty_iff.
  rewrite length_list_ascii_of_string.
  assert (Hs : list_ascii_of_string s = [] <-> s = "").
  { destruct s; split; intros H; try reflexivity; discriminate. }
  rewrite Hs. reflexivity.
Qed.

Section RandomSequenceEdges.
Variables Env Gen : Type.
Variable raw : Gen -> nat.
Variable advance : Gen -> Gen.
Variable uniref : list string.

Local Notation state := (Bench.state Env Gen).
Local Notation random_sequence := (@Bench.random_sequence Env Gen raw advance uniref).
Local Notation advanced := (@Bench.advanced Env Gen advance).
Local Notation drawn := (@Bench.drawn Env Gen raw uniref).

(** X8: [random_sequence] raises in exactly two ways.  On an empty dataset
    the choice raises [IndexError] before any draw.  Otherwise it raises, with
    [ValueError] and after the one draw of the choice, exactly when the drawn
    sequence is empty, [max_length] is 0, or [max_length] is negative and
    drops every character; in every other case two draws are made and a
    string is returned. *)
Theorem random_sequence_failure_modes (max_length : Z) (s : state) :
  (uniref = [] -> random_sequence max_length s = (Raise IndexError, s)) /\
  (forall src,
      drawn s = Some src ->
      let empty_cut :=
        src = "" \/ max_length = 0%Z \/ (max_length <= - Z.of_nat (String.length src))%Z in
      (empty_cut -> random_sequence max_length s = (Raise ValueError, advanced 1 s)) /\
      (~ empty_cut ->
       exists masked, random_sequence max_length s = (Ok masked, advanced 2 s))).
Proof.
  split.
  - intros Hu. unfold Bench.random_sequence, bind, random_choice. rewrite Hu. reflexivity.
  - intros src Hsrc empty_cut.
    pose proof (RandomSequenceFacts.random_sequence_run
                  Env Gen raw advance uniref max_length s src Hsrc) as Hrun.
    cbv zeta in Hrun.
    pose proof (str_slice_to_empty_iff src max_length) as Hiff. fold empty_cut in Hiff.
    destruct (str_slice_to src max_length) as [| c cut] eqn:Hcut.
    + split; [intros _; exact Hrun |]. intros Hne. exfalso. apply Hne, Hiff. reflexivity.
    + split.
      * intros He. apply Hiff in He. discriminate.
      * intros _. cbn [String.length] in Hrun. eexists. exact Hrun.
Qed.

(** X9: a negative [max_length] does not cap the sequence, it drops that many
    characters from its end: one character of what is left is replaced, and
    the value is five characters longer than what is left. *)
Theorem random_sequence_negative_max_length (k : nat) (s : state) (src : string) :
  drawn s = Some src ->
  0 < k < String.length src ->
  exists pre c suf dropped,
    src = pre ++ String c suf ++ dropped /\
    String.length dropped = k /\
    fst (random_sequence (- Z.of_nat k) s) = Ok (pre ++ "<mask>" ++ suf) /\
    String.length (pre ++ "<mask>" ++ suf) = String.length src - k + 5.
Proof.
  intros Hsrc Hk.
  pose proof (RandomSequenceFacts.random_sequence_run
                Env Gen raw advance uniref (- Z.of_nat k) s src Hsrc) as Hrun.
  cbv zeta in Hrun.
  set (cut := str_slice_to src (- Z.of_nat k)) in *.
  assert (Hcut : cut = string_of_list_ascii
                         (firstn (String.length src - k) (list_ascii_of_string src))).
  { unfold cut, str_slice_to, slice_to.
    destruct (Z.leb_spec 0 (- Z.of_nat k)) as [Hpos | _]; [lia |].
    rewrite length_list_ascii_of_string. do 2 f_equal. lia. }
  assert (Hlen : String.length cut = String.length src - k).
  { rewrite Hcut, length_string_of_list_ascii, length_firstn.
    rewrite length_list_ascii_of_string. lia. }
  assert (Hsplit : src = cut ++ string_of_list_ascii
                                  (skipn (String.length src - k) (list_ascii_of_string src))).
  { rewrite Hcut, <- string_of_list_ascii_app, firstn_skipn.
    now rewrite string_of_list_ascii_of_string. }
  set (dropped := string_of_list_ascii
                    (skipn (String.length src - k) (list_ascii_of_string src))) in *.
  assert (Hdropped : String.length dropped = k).
  { unfold dropped. rewrite length_string_of_list_ascii, length_skipn.
    rewrite length_list_ascii_of_string. lia. }
  destruct (String.length cut) as [| n] eqn:Hn; [lia |].
  destruct (join_replace_nth "<mask>" cut (raw (advance (gen s)) mod S n))
    as (pre & c & suf & Hparts & _ & Hjoin).
  { rewrite Hn. apply Nat.mod_upper_bound. lia. }
  exists pre, c, suf, dropped. split; [| split; [exact Hdropped | split]].
  - rewrite Hsplit at 1. rewrite Hparts. now rewrite append_assoc.
  - rewrite Hrun. cbn [fst]. now rewrite Hjoin.
  - assert (Hl : String.length cut = S n) by exact Hn.
    rewrite Hparts in Hl. rewrite !length_append in *. cbn [String.length] in *. lia.
Qed.

End RandomSequenceEdges.

Lemma random_sequence_failure_modes_witness :
  Bench.random_sequence counter_raw counter_advance ["MKV"] 0 (gen_at 0)
  = (Raise ValueError, gen_at 1) /\
  (exists masked,
      Bench.random_sequence counter_raw counter_advance ["MKV"] 2 (gen_at 0)
      = (Ok masked, gen_at 2)).
Proof.
  destruct (proj2 (random_sequence_failure_modes unit nat counter_raw counter_advance
                     ["MKV"] 0 (gen_at 0)) "MKV" eq_refl) as [Hfail _].
  destruct (proj2 (random_sequence_failure_modes unit nat counter_raw counter_advance
                     ["MKV"] 2 (gen_at 0)) "MKV" eq_refl) as [_ Hok].
  split.
  - apply Hfail. right. left. reflexivity.
  - apply Hok. intros [H | [H | H]]; [discriminate | discriminate | cbn in H; lia].
Defined.

Lemma random_sequence_negative_max_length_witness :
  exists pre c suf dropped,
    "MKTAYIAK" = pre ++ String c suf ++ dropped /\
    String.length dropped = 3 /\
    fst (Bench.random_sequence counter_raw counter_advance ["MKTAYIAK"; "GHIK"] (-3)
                               (gen_at 4))
    = Ok (pre ++ "<mask>" ++ suf).
Proof.
  destruct (random_sequence_negative_max_length unit nat counter_raw counter_advance
              ["MKTAYIAK"; "GHIK"] 3 (gen_at 4) "MKTAYIAK" eq_refl)
    as (pre & c & suf & dropped & Hsrc & Hlen & Hrun & _).
  - cbn. lia.
  - exists pre, c, suf, dropped. repeat split; assumption.
Defined.

End RandomSequenceEdges.

(** ** Cleanup with unbound names; when [input_fn] returns *)

Module CleanupEdges.
Import Cleanup.

Section CleanupEdges.
Variables Cloud Predictor : Type.
Variable delete_endpoint_call : Predictor -> Cloud -> result unit * Cloud.

Local Notation state := (Cleanup.state Cloud Predictor).
Local Notation cleanup_deploy := (Cleanup.cleanup_deploy delete_endpoint_call).
Local Notation cleanup_finetune := (Cleanup.cleanup_finetune delete_endpoint_call).

(** X10: a predictor name that was never bound stops a cleanup cell silently.
    In the deployment notebook, without [inf2_predictor] nothing is deleted,
    the g5 endpoint included, and the hosting service is not called; with
    [inf2_predictor] bound and deleted but [g5_predictor] unbound, that one
    deletion is all the cell does.  In the fine-tuning notebook, without
    [predictor] the hosting service is not called. *)
Theorem cleanup_with_unbound_names (s : state) :
  (Dict.get "inf2_predictor" (namespace s) = None ->
   cleanup_deploy s = (Ok tt, s)) /\
  (forall inf2,
      Dict.get "inf2_predictor" (namespace s) = Some inf2 ->
      Dict.get "g5_predictor" (namespace s) = None ->
      fst (delete_endpoint_call inf2 (cloud s)) = Ok tt ->
      cleanup_deploy s =
        (Ok tt, {| namespace := namespace s;
                   cloud := snd (delete_endpoint_call inf2 (cloud s));
                   attempted := (attempted s ++ [inf2])%list |})) /\
  (Dict.get "predictor" (namespace s) = None ->
   cleanup_finetune s = (Ok tt, s)).
Proof.
  split; [| split].
  - intros Hinf2.
    unfold Cleanup.cleanup_deploy, try_except, bind, load_name. now rewrite Hinf2.
  - intros inf2 Hinf2 Hg5 Hok.
    unfold Cleanup.cleanup_deploy, try_except, bind, load_name, Cleanup.delete_endpoint.
    rewrite Hinf2.
    destruct (delete_endpoint_call inf2 (cloud s)) as [[[] | e] c1]; [| discriminate].
    cbn [fst snd namespace]. now rewrite Hg5.
  - intros Hp.
    unfold Cleanup.cleanup_finetune, try_except, bind, load_name. now rewrite Hp.
Qed.

End CleanupEdges.

Lemma cleanup_with_unbound_names_witness :
  Cleanup.cleanup_deploy refuse_inf2 only_g5 = (Ok tt, only_g5) /\
  attempted (snd (Cleanup.cleanup_deploy delete_any only_inf2)) = ["inf2"] /\
  Cleanup.cleanup_finetune delete_any only_g5 = (Ok tt, only_g5).
Proof.
  destruct (cleanup_with_unbound_names nat string refuse_inf2 only_g5) as (Hnone & _ & Hft).
  destruct (cleanup_with_unbound_names nat string delete_any only_inf2) as (_ & Hone & _).
  split; [apply Hnone; reflexivity |]. split; [| apply Hft; reflexivity].
  rewrite (Hone "inf2" eq_refl eq_refl eq_refl). reflexivity.
Defined.

End CleanupEdges.

Module InputFacts.
Import Inference.

Section InputFacts.
Variable json_loads : string -> result json.

Local Notation input_fn := (Inference.input_fn json_loads).

(** X11: [input_fn] returns a value exactly when the content type is
    ["application/json"] and the body parses to a JSON object; the value is
    then the ["inputs"] entry if there is one, the object otherwise.  Another
    content type raises the exception that names it, and a body that does not
    parse raises what the parser raised. *)
Theorem input_fn_returns_iff (body content_type : string) (v : json) :
  (input_fn body content_type = Ok v <->
   content_type = JSON_CONTENT_TYPE /\
   exists d, json_loads body = Ok (JObj d) /\ v = Inference.extracted d) /\
  (content_type <> JSON_CONTENT_TYPE ->
   input_fn body content_type
   = Raise (PlainException
              ("Requested unsupported ContentType in Accept: " ++ content_type))) /\
  (forall e, content_type = JSON_CONTENT_TYPE -> json_loads body = Raise e ->
             input_fn body content_type = Raise e).
Proof.
  unfold Inference.input_fn.
  destruct (String.eqb_spec content_type JSON_CONTENT_TYPE) as [Hct | Hct].
  - split; [| split].
    + split.
      * intros Hrun. split; [exact Hct |].
        destruct (json_loads body) as [parsed | e]; [| discriminate].
        cbn [rbind] in Hrun. destruct parsed; try discriminate.
        exists d. split; [reflexivity |].
        unfold pop in Hrun. unfold Inference.extracted.
        destruct (Dict.get "inputs" d); cbn [fst] in Hrun; now injection Hrun.
      * intros (_ & d & Hparsed & ->). rewrite Hparsed. cbn [rbind].
        unfold pop, Inference.extracted. destruct (Dict.get "inputs" d); reflexivity.
    + intros Hne. contradiction.
    + intros e _ He. now rewrite He.
  - split; [| split].
    + split; [discriminate |]. intros [Heq _]. contradiction.
    + intros _. reflexivity.
    + intros e Heq. contradiction.
Qed.

End InputFacts.

Lemma input_fn_returns_iff_witness :
  Inference.input_fn loads_table body_inputs "text/csv"
  = Raise (PlainException "Requested unsupported ContentType in Accept: text/csv").
Proof.
  apply (proj1 (proj2 (input_fn_returns_iff loads_table body_inputs "text/csv" JNull))).
  discriminate.
Defined.

End InputFacts.

(** ** The masked position read by [predict_fn] *)

Module MaskFacts.
Import Inference PredictFacts.

Lemma nonzero_from_before (mask_id : nat) : forall (before l : list nat) (i : nat),
  ~ In mask_id before ->
  nonzero_from i mask_id (before ++ l) = nonzero_from (i + List.length before) mask_id l.
Proof.
  induction before as [| t before IH]; intros l i Hnot.
  - cbn. now rewrite Nat.add_0_r.
  - cbn [app nonzero_from List.length].
    destruct (Nat.eqb_spec t mask_id) as [-> | _]; [exfalso; apply Hnot; now left |].
    rewrite IH by (intros Hin; apply Hnot; now right). f_equal. lia.
Qed.

Lemma nonzero_from_none (mask_id : nat) (ids : list nat) (i : nat) :
  ~ In mask_id ids -> nonzero_from i mask_id ids = [].
Proof.
  intros Hnot. rewrite <- (app_nil_r ids). now rewrite nonzero_from_before.
Qed.

Section MaskFacts.
Variables Tokenizer NeuronModel : Type.
Variable encode_plus : Tokenizer -> json -> nat -> result (list nat * list nat).
Variable mask_token_id : Tokenizer -> nat.
Variable get_vocab : Tokenizer -> list (string * nat).
Variable call_model : NeuronModel -> list nat -> list nat -> result (list (list Q)).
Variable sigmoid : Q -> Q.

Local Notation predict_fn :=
  (Inference.predict_fn encode_plus mask_token_id get_vocab call_model sigmoid).

(** X13: with its model in scope, [predict_fn] reads one position only.  When
    no input id is the mask token, reading the first masked position raises
    [IndexError]; when there are one or more, the mapping is built from the
    logits of the first one, whatever follows it. *)
Theorem predict_fn_reads_first_mask (globals : Dict.dict (pyobj NeuronModel))
        (m model_bert : NeuronModel) (tokenizer : Tokenizer) (input_data : json)
        (ids attention : list nat) (output : list (list Q)) :
  Dict.get "neuron_model" globals = Some (PyModel m) ->
  encode_plus tokenizer input_data 128 = Ok (ids, attention) ->
  call_model m ids attention = Ok output ->
  List.length output = List.length ids ->
  (~ In (mask_token_id tokenizer) ids ->
   predict_fn globals input_data (model_bert, tokenizer) = Raise IndexError) /\
  (forall before after row,
      ids = (before ++ mask_token_id tokenizer :: after)%list ->
      ~ In (mask_token_id tokenizer) before ->
      nth_error output (List.length before) = Some row ->
      predict_fn globals input_data (model_bert, tokenizer)
      = comprehension (Dict.keys (get_vocab tokenizer)) 0 (map sigmoid row) []).
Proof.
  intros Hglobal Htok Hcall Hlen. split.
  - intros Hnone.
    apply (predict_fn_without_mask _ _ encode_plus mask_token_id get_vocab call_model
             sigmoid globals m model_bert tokenizer input_data ids attention output);
      try assumption.
    now apply nonzero_from_none.
  - intros before after row Hids Hbefore Hrow.
    unfold Inference.predict_fn, load_global. rewrite Htok. cbn [rbind fst snd].
    rewrite Hglobal. cbn [rbind call_global]. rewrite Hcall. cbn [rbind].
    destruct (nonzero_from_bounds (mask_token_id tokenizer) ids 0) as [Hbounds _].
    rewrite Hids in Hbounds |- *.
    rewrite nonzero_from_before in Hbounds |- * by exact Hbefore.
    cbn [Nat.add nonzero_from] in Hbounds |- *. rewrite Nat.eqb_refl in Hbounds |- *.
    inversion Hbounds as [| ? ? _ Hrest]; subst.
    cbn [index_rows]. rewrite Hrow.
    destruct (index_rows_ok output
                (nonzero_from (S (List.length before)) (mask_token_id tokenizer) after))
      as (rows & Hrows & _).
    { eapply Forall_impl; [| exact Hrest]. cbn. intros j Hj. lia. }
    rewrite Hrows. reflexivity.
Qed.

(** X12: were [neuron_model] bound to the model in the module's globals, a
    tokenized input with a mask token in it would get the mapping of the
    contract.  The mapping pairs the vocabulary tokens, in the order of the
    vocabulary, with the sigmoid of the logits that the model gives for the
    first masked position, each rounded to three decimals; nothing else is
    in it, and all its values are probabilities when the sigmoid's are. *)
Lemma predict_fn_bound_model (globals : Dict.dict (pyobj NeuronModel))
      (m model_bert : NeuronModel) (tokenizer : Tokenizer) (input_data : json)
      (ids attention : list nat) (output : list (list Q)) :
  Dict.get "neuron_model" globals = Some (PyModel m) ->
  encode_plus tokenizer input_data 128 = Ok (ids, attention) ->
  call_model m ids attention = Ok output ->
  List.length output = List.length ids ->
  Forall (fun row => List.length row = List.length (get_vocab tokenizer)) output ->
  NoDup (Dict.keys (get_vocab tokenizer)) ->
  (forall x, 0 <= sigmoid x <= 1)%Q ->
  In (mask_token_id tokenizer) ids ->
  exists before after row d,
    ids = (before ++ mask_token_id tokenizer :: after)%list /\
    ~ In (mask_token_id tokenizer) before /\
    nth_error output (List.length before) = Some row /\
    predict_fn globals input_data (model_bert, tokenizer) = Ok d /\
    d = combine (Dict.keys (get_vocab tokenizer))
                (map (fun x => round3 (sigmoid x)) row) /\
    Dict.keys d = Dict.keys (get_vocab tokenizer) /\
    Forall2 (fun kv x => rounded3 (sigmoid x) (snd kv)) d row /\
    Forall unit_interval d.
Proof.
  intros Hglobal Htok Hcall Hlen Hrows Hnd Hsig Hmask.
  destruct (in_split_first (mask_token_id tokenizer) ids Hmask)
    as (before & after & Hids & Hbefore).
  destruct (nth_error output (List.length before)) as [row |] eqn:Hrow.
  2:{ apply nth_error_None in Hrow. rewrite Hlen, Hids, length_app in Hrow.
      cbn [List.length] in Hrow. lia. }
  assert (Hrl : List.length row = List.length (Dict.keys (get_vocab tokenizer))).
  { unfold Dict.keys. rewrite length_map.
    rewrite Forall_forall in Hrows. apply Hrows.
    eapply nth_error_In; eassumption. }
  exists before, after, row,
    (combine (Dict.keys (get_vocab tokenizer)) (map (fun x => round3 (sigmoid x)) row)).
  split; [exact Hids |]. split; [exact Hbefore |]. split; [exact Hrow |].
  split; [| split; [reflexivity | split; [| split]]].
  - unfold Inference.predict_fn, load_global. rewrite Htok. cbn [rbind fst snd].
    rewrite Hglobal. cbn [rbind call_global]. rewrite Hcall. cbn [rbind].
    destruct (nonzero_from_bounds (mask_token_id tokenizer) ids 0) as [Hbounds _].
    rewrite Hids in Hbounds |- *.
    rewrite nonzero_from_before in Hbounds |- * by exact Hbefore.
    cbn [Nat.add nonzero_from] in Hbounds |- *. rewrite Nat.eqb_refl in Hbounds |- *.
    inversion Hbounds as [| ? ? _ Hrest]; subst.
    cbn [index_rows]. rewrite Hrow.
    destruct (index_rows_ok output
                (nonzero_from (S (List.length before)) (mask_token_id tokenizer) after))
      as (rows & Hrows' & _).
    { eapply Forall_impl; [| exact Hrest]. cbn. intros j Hj. lia. }
    rewrite Hrows'. cbn [rbind map].
    rewrite (comprehension_spec (Dict.keys (get_vocab tokenizer)) Hnd);
      [| rewrite length_map; cbn [Nat.add]; lia | reflexivity].
    cbn [skipn app]. now rewrite map_map.
  - unfold Dict.keys at 1. apply ListFacts.map_fst_combine_same.
    now rewrite length_map.
  - clear - Hrl. revert Hrl. generalize (Dict.keys (get_vocab tokenizer)) as keys.
    induction row as [| x row IH]; intros [| k keys] Hrl; try discriminate;
      cbn [map combine]; constructor.
    + apply round3_rounded.
    + apply IH. cbn [List.length] in Hrl. lia.
  - apply Forall_forall. intros [k v] Hin. apply in_combine_r in Hin.
    apply in_map_iff in Hin. destruct Hin as (x & <- & _).
    apply round3_unit, Hsig.
Qed.

End MaskFacts.

Lemma step_unit (x : Q) : (0 <= step x <= 1)%Q.
Proof. unfold step. destruct (Qle_bool 0 x); split; discriminate. Qed.

Lemma predict_fn_bound_model_witness :
  exists row d,
    Inference.predict_fn mask_encode_plus (fun _ => 3) (fun _ => small_vocab)
                         small_model step kernel_globals (JStr "MK<mask>V") (tt, tt)
    = Ok d /\
    d = combine ["<cls>"; "<pad>"; "<eos>"; "<mask>"; "A"; "K"]
                (map (fun x => round3 (step x)) row) /\
    Forall2 (fun kv x => rounded3 (step x) (snd kv)) d row.
Proof.
  edestruct (predict_fn_bound_model unit unit mask_encode_plus (fun _ => 3)
               (fun _ => small_vocab) small_model step kernel_globals tt tt tt
               (JStr "MK<mask>V"))
    as (before & after & row & d & _ & _ & _ & Hd & Hvalues & _ & Hrounded & _).
  - reflexivity.
  - vm_compute. reflexivity.
  - vm_compute. reflexivity.
  - reflexivity.
  - repeat constructor.
  - change (Dict.keys small_vocab) with (nodup string_dec (Dict.keys small_vocab)).
    apply NoDup_nodup.
  - exact step_unit.
  - apply (nth_error_In _ 3). reflexivity.
  - exists row, d. split; [exact Hd |]. split; [exact Hvalues | exact Hrounded].
Defined.

Lemma predict_fn_reads_first_mask_witness :
  Inference.predict_fn mask_encode_plus (fun _ => 3) (fun _ => small_vocab)
                       small_model step kernel_globals (JStr "MKV") (tt, tt)
  = Raise IndexError.
Proof.
  edestruct (predict_fn_reads_first_mask unit unit mask_encode_plus (fun _ => 3)
               (fun _ => small_vocab) small_model step kernel_globals tt tt tt
               (JStr "MKV")) as [Hnone _].
  - reflexivity.
  - vm_compute. reflexivity.
  - vm_compute. reflexivity.
  - reflexivity.
  - apply Hnone. vm_compute. intuition discriminate.
Defined.

End MaskFacts.

(** ** The data cells of the fine-tuning notebook *)

Module FineTuneFacts.
Import FineTune.

Lemma between_spec (left right x : nat) :
  between left right x = true <-> left <= x <= right.
Proof.
  unfold between. rewrite andb_true_iff, !Nat.leb_le. reflexivity.
Qed.

Lemma length_filter_range (df : list raw_row) :
  Forall (fun r => 100 <= String.length (seq_ r) <= 512)
         (select_features (length_filter df)).
Proof.
  unfold select_features, length_filter. rewrite Forall_map, Forall_forall.
  intros r Hr. apply filter_In in Hr. cbn [seq_]. now apply between_spec.
Qed.

Lemma group_count_positive (df : list row) (r : row) :
  In r df -> 0 < group_count df (membrane_ r).
Proof.
  intros Hin. unfold group_count.
  assert (Hr : In r (filter (fun r0 => (membrane_ r0 =? membrane_ r)%Z) df)).
  { apply filter_In. split; [exact Hin | apply Z.eqb_refl]. }
  destruct (filter _ df); [contradiction | cbn; lia].
Qed.

Lemma group_count_cons (r : row) (part : list row) (m : Z) :
  group_count (r :: part) m
  = (if Z.eqb (membrane_ r) m then 1 else 0) + group_count part m.
Proof.
  unfold group_count. cbn [filter]. destruct (membrane_ r =? m)%Z; reflexivity.
Qed.

(** The weight of a group inside any part of the frame: as many times the
    inverse of the size of the group as the part has rows of the group. *)
Lemma group_weight_part (whole : list row) (m : Z) : forall part : list row,
  (group_weight m part
     (map (fun c => 1 / inject_Z (Z.of_nat c))
          (map (fun r => group_count whole (membrane_ r)) part))
   == inject_Z (Z.of_nat (group_count part m)) * (1 / inject_Z (Z.of_nat (group_count whole m))))%Q.
Proof.
  induction part as [| r part IH]; [reflexivity |].
  cbn [map group_weight]. rewrite IH, group_count_cons.
  destruct (Z.eqb_spec (membrane_ r) m) as [-> | _].
  - rewrite Nat2Z.inj_add, inject_Z_plus. change (inject_Z (Z.of_nat 1)) with 1%Q. ring.
  - cbn [Nat.add]. ring.
Qed.

Lemma group_count_count_occ (df : list row) (m : Z) :
  group_count df m = count_occ Z.eq_dec (map membrane_ df) m.
Proof.
  induction df as [| r df IH]; [reflexivity |].
  rewrite group_count_cons, IH. cbn [map count_occ].
  destruct (Z.eq_dec (membrane_ r) m) as [-> | Hne].
  - now rewrite Z.eqb_refl.
  - apply Z.eqb_neq in Hne. now rewrite Hne.
Qed.

(** X14: the frame prepared for sampling.  A row is kept exactly when its
    sequence has between 100 and 512 characters, both bounds included, and
    it is kept with its sequence, kingdom and membrane label; there is one
    weight per row, the inverse of the number of kept rows with the row's
    [Membrane] value, so positive and at most 1; and the weights of the
    rows of a [Membrane] value that occurs add up to 1, so that every value
    has the same total weight. *)
Theorem prepared_weights_balance (df : list raw_row) :
  let rows := fst (prepared df) in
  let w := snd (prepared df) in
  (forall r, In r rows <->
             exists raw, In raw df /\
                         100 <= String.length (Sequence raw) <= 512 /\
                         r = {| seq_ := Sequence raw; kingdom_ := Kingdom raw;
                                membrane_ := Membrane raw |}) /\
  Forall (fun r => 100 <= String.length (seq_ r) <= 512) rows /\
  List.length w = List.length rows /\
  Forall2 (fun r x =>
             x = (1 / inject_Z (Z.of_nat (count_occ Z.eq_dec (map membrane_ rows)
                                                    (membrane_ r))))%Q) rows w /\
  Forall (fun x => (0 < x)%Q /\ (x <= 1)%Q) w /\
  forall r, In r rows -> (group_weight (membrane_ r) rows w == 1)%Q.
Proof.
  cbv zeta. unfold prepared. cbn [fst snd].
  set (rows := select_features (length_filter df)).
  split; [| split; [apply length_filter_range | split; [| split; [| split]]]].
  - intros r. unfold rows, select_features, length_filter. rewrite in_map_iff. split.
    + intros (raw & <- & Hin). apply filter_In in Hin. destruct Hin as [Hin Hb].
      exists raw. split; [exact Hin |]. split; [now apply between_spec | reflexivity].
    + intros (raw & Hin & Hb & ->). exists raw. split; [reflexivity |].
      apply filter_In. split; [exact Hin | now apply between_spec].
  - unfold weights, transform_count. now rewrite !length_map.
  - unfold weights, transform_count. rewrite map_map.
    assert (Hpart : forall part : list row,
               Forall2 (fun r x =>
                          x = (1 / inject_Z (Z.of_nat (count_occ Z.eq_dec (map membrane_ rows)
                                                                 (membrane_ r))))%Q)
                       part
                       (map (fun r => (1 / inject_Z (Z.of_nat (group_count rows (membrane_ r))))%Q)
                            part)).
    { induction part as [| r part IH]; constructor.
      - now rewrite group_count_count_occ.
      - exact IH. }
    apply Hpart.
  - unfold weights, transform_count. rewrite !Forall_map, Forall_forall.
    intros r Hr. pose proof (group_count_positive rows r Hr) as Hpos.
    assert (Hc : (1 <= inject_Z (Z.of_nat (group_count rows (membrane_ r))))%Q).
    { change 1%Q with (inject_Z 1). rewrite <- Zle_Qle. lia. }
    split.
    + apply Qlt_shift_div_l; lra.
    + apply Qle_shift_div_r; lra.
  - intros r Hr. unfold weights, transform_count. rewrite group_weight_part.
    pose proof (group_count_positive rows r Hr) as Hpos.
    assert (Hc : (0 < inject_Z (Z.of_nat (group_count rows (membrane_ r))))%Q).
    { change 0%Q with (inject_Z 0). rewrite <- Zlt_Qlt. lia. }
    field. lra.
Qed.

Lemma prepared_weights_balance_witness :
  (List.length (fst (prepared small_frame)) = 3 /\
   (group_weight 0 (fst (prepared small_frame)) (snd (prepared small_frame)) == 1)%Q /\
   (group_weight 1 (fst (prepared small_frame)) (snd (prepared small_frame)) == 1)%Q) /\
  (In {| seq_ := FineTune.Sequence (sized_row 100 0); kingdom_ := "Fungi"; membrane_ := 0 |}
      (fst (prepared bounds_frame)) /\
   In {| seq_ := FineTune.Sequence (sized_row 512 1); kingdom_ := "Fungi"; membrane_ := 1 |}
      (fst (prepared bounds_frame)) /\
   ~ In {| seq_ := FineTune.Sequence (sized_row 99 0); kingdom_ := "Fungi"; membrane_ := 0 |}
        (fst (prepared bounds_frame)) /\
   ~ In {| seq_ := FineTune.Sequence (sized_row 513 1); kingdom_ := "Fungi"; membrane_ := 1 |}
        (fst (prepared bounds_frame))).
Proof.
  split.
  - destruct (prepared_weights_balance small_frame) as (_ & _ & _ & _ & _ & Hsum).
    split; [reflexivity |]. split.
    + apply (Hsum {| seq_ := FineTune.Sequence (long_row 0); kingdom_ := "Fungi";
                     membrane_ := 0 |}).
      left. reflexivity.
    + apply (Hsum {| seq_ := FineTune.Sequence (long_row 1); kingdom_ := "Fungi";
                     membrane_ := 1 |}).
      right. left. reflexivity.
  - destruct (prepared_weights_balance bounds_frame) as (Hkept & _).
    split; [| split; [| split]].
    + apply Hkept. exists (sized_row 100 0).
      split; [right; left; reflexivity |]. split; [vm_compute; lia | reflexivity].
    + apply Hkept. exists (sized_row 512 1).
      split; [right; right; left; reflexivity |]. split; [vm_compute; lia | reflexivity].
    + intros Hin. apply Hkept in Hin. destruct Hin as (raw & Hraw & Hlen & Heq).
      destruct Hraw as [<- | [<- | [<- | [<- | []]]]];
        first [vm_compute in Hlen; lia | vm_compute in Heq; discriminate].
    + intros Hin. apply Hkept in Hin. destruct Hin as (raw & Hraw & Hlen & Heq).
      destruct Hraw as [<- | [<- | [<- | [<- | []]]]];
        first [vm_compute in Hlen; lia | vm_compute in Heq; discriminate].
Defined.

Lemma get_set_same {V} (k : string) (v : V) (d : Dict.dict V) :
  Dict.get k (Dict.set k v d) = Some v.
Proof.
  induction d as [| [k' v'] d IH]; cbn [Dict.set Dict.get].
  - now rewrite String.eqb_refl.
  - destruct (String.eqb k k') eqn:E; cbn [Dict.get].
    + now rewrite String.eqb_refl.
    + now rewrite E.
Qed.

Lemma get_set_other {V} (k k0 : string) (v : V) (d : Dict.dict V) :
  k0 <> k -> Dict.get k0 (Dict.set k v d) = Dict.get k0 d.
Proof.
  intros Hne. induction d as [| [k' v'] d IH]; cbn [Dict.set Dict.get].
  - destruct (String.eqb_spec k0 k); [contradiction | reflexivity].
  - destruct (String.eqb_spec k k') as [<- | _]; cbn [Dict.get].
    + destruct (String.eqb_spec k0 k); [contradiction | reflexivity].
    + now rewrite IH.
Qed.

Lemma keys_set_present {V} (k : string) (v : V) (d : Dict.dict V) :
  In k (Dict.keys d) -> Dict.keys (Dict.set k v d) = Dict.keys d.
Proof.
  unfold Dict.keys. induction d as [| [k' v'] d IH]; intros Hin; [contradiction |].
  cbn [Dict.set map fst] in *. destruct (String.eqb_spec k k') as [-> | Hne].
  - reflexivity.
  - cbn [map fst]. f_equal. apply IH. destruct Hin; [congruence | assumption].
Qed.

Section FineTuneFacts.
Variable tokenizer : column -> nat -> result (Dict.dict column).

Local Notation preprocess_data := (FineTune.preprocess_data tokenizer).

(** X15: [preprocess_data] on a batch.  Without a ["Sequence"] column it raises
    [KeyError] for it before the tokenizer is called; an exception of the
    tokenizer comes through; without a ["Membrane"] column it raises
    [KeyError] for that one.  Otherwise the value is the encoding of the
    tokenizer with the ["Membrane"] column under ["labels"]: every other entry
    is the tokenizer's, and ["labels"] is added last unless the encoding had
    the key already, in which case it is overwritten in place. *)
Theorem preprocess_data_labels (examples : Dict.dict column) (max_length : nat) :
  match Dict.get "Sequence" examples with
  | None => preprocess_data examples max_length = Raise (KeyError "Sequence")
  | Some text =>
      match tokenizer text max_length with
      | Raise e => preprocess_data examples max_length = Raise e
      | Ok encoding =>
          match Dict.get "Membrane" examples with
          | None => preprocess_data examples max_length = Raise (KeyError "Membrane")
          | Some labels =>
              exists out,
                preprocess_data examples max_length = Ok out /\
                Dict.get "labels" out = Some labels /\
                (forall k, k <> "labels" -> Dict.get k out = Dict.get k encoding) /\
                Dict.keys out
                = if in_dec string_dec "labels" (Dict.keys encoding)
                  then Dict.keys encoding
                  else (Dict.keys encoding ++ ["labels"])%list
          end
      end
  end.
Proof.
  unfold FineTune.preprocess_data, getitem.
  destruct (Dict.get "Sequence" examples) as [text |]; [| reflexivity].
  cbn [rbind]. destruct (tokenizer text max_length) as [encoding | e]; [| reflexivity].
  cbn [rbind]. destruct (Dict.get "Membrane" examples) as [labels |]; [| reflexivity].
  cbn [rbind]. eexists. split; [reflexivity |]. split; [apply get_set_same |].
  split; [intros k Hk; now apply get_set_other |].
  destruct (in_dec string_dec "labels" (Dict.keys encoding)) as [Hin | Hout].
  - now apply keys_set_present.
  - rewrite PredictFacts.set_fresh by exact Hout.
    unfold Dict.keys. now rewrite map_app.
Qed.

End FineTuneFacts.

Lemma preprocess_data_labels_witness :
  exists out,
    FineTune.preprocess_data length_tokenizer small_batch 512 = Ok out /\
    Dict.get "labels" out = Some (Ints [1; 0]%Z) /\
    Dict.keys out = ["input_ids"; "attention_mask"; "labels"].
Proof.
  destruct (preprocess_data_labels length_tokenizer small_batch 512)
    as (out & Hrun & Hlabels & _ & Hkeys).
  exists out. split; [exact Hrun |]. split; [exact Hlabels | exact Hkeys].
Defined.

Section ViewExample.
Variables Env Gen : Type.
Variable raw : Gen -> nat.
Variable advance : Gen -> Gen.

Local Notation state := (Bench.state Env Gen).
Local Notation view_example := (@FineTune.view_example Env Gen raw advance).

(** X16: the cell that shows a training record draws its index between 3 and
    the number of records, both included.  With fewer than 3 records the draw
    has an empty range and raises [ValueError]; otherwise the first three
    records are never shown, and when the draw is the number of records
    itself, one past the last index, reading the record raises [IndexError]. *)
Theorem view_example_index_range {A} (train : list A) (s : state) :
  let n := List.length train in
  (n < 3 -> fst (view_example train s) = Raise ValueError) /\
  (3 <= n ->
   let d := raw (gen s) mod (n - 2) in
   (d = n - 3 -> fst (view_example train s) = Raise IndexError) /\
   (d < n - 3 ->
    exists x, nth_error train (3 + d) = Some x /\
              fst (view_example train s) = Ok (Z.of_nat (3 + d), x))).
Proof.
  cbv zeta. unfold FineTune.view_example, random_randint, bind. split.
  - intros Hn. destruct (Z.ltb_spec (Z.of_nat (List.length train)) 3) as [_ | Hge]; [| lia].
    reflexivity.
  - intros Hn. destruct (Z.ltb_spec (Z.of_nat (List.length train)) 3) as [Hlt | _]; [lia |].
    unfold bind, randbelow, ret, lift. cbn [fst snd gen].
    replace (Z.to_nat (Z.of_nat (List.length train) - 3 + 1)) with (List.length train - 2)
      by lia.
    set (d := raw (gen s) mod (List.length train - 2)).
    assert (Hd : d < List.length train - 2) by (apply Nat.mod_upper_bound; lia).
    unfold list_getitem.
    destruct (Z.ltb_spec (3 + Z.of_nat d) 0) as [Hneg | _]; [lia |].
    split.
    + intros Hlast.
      destruct (Z.leb_spec 0 (3 + Z.of_nat d)) as [_ | Hneg]; [| lia].
      destruct (Z.ltb_spec (3 + Z.of_nat d) (Z.of_nat (List.length train))) as [Hin | _];
        [lia | reflexivity].
    + intros Hin.
      destruct (Z.leb_spec 0 (3 + Z.of_nat d)) as [_ | Hneg]; [| lia].
      destruct (Z.ltb_spec (3 + Z.of_nat d) (Z.of_nat (List.length train))) as [_ | Hout];
        [| lia].
      cbn [andb]. replace (Z.to_nat (3 + Z.of_nat d)) with (3 + d) by lia.
      destruct (nth_error train (3 + d)) as [x |] eqn:Hx;
        [| apply nth_error_None in Hx; lia].
      exists x. split; [reflexivity |]. cbn [fst]. do 2 f_equal. lia.
Qed.

End ViewExample.

Lemma view_example_index_range_witness :
  fst (FineTune.view_example counter_raw counter_advance [10; 11; 12; 13; 14] (gen_at 2))
  = Raise IndexError /\
  fst (FineTune.view_example counter_raw counter_advance [10; 11] (gen_at 2))
  = Raise ValueError.
Proof.
  split.
  - apply (proj2 (view_example_index_range unit nat counter_raw counter_advance
                    [10; 11; 12; 13; 14] (gen_at 2))); [cbn; lia | reflexivity].
  - apply (proj1 (view_example_index_range unit nat counter_raw counter_advance
                    [10; 11] (gen_at 2))). cbn. lia.
Defined.

End FineTuneFacts.

(** ** Runs of the benchmark helpers on concrete inputs *)

Module RunWitnesses.

Lemma percentiles_ordered_and_bounded_witness :
  exists p50 p90 p95,
    percentiles [2; 1; 3]%Q = Ok (p50, p90, p95) /\
    (1 * 1000 <= p50)%Q /\ (p50 <= p90)%Q /\ (p90 <= p95)%Q /\ (p95 <= 3 * 1000)%Q.
Proof.
  apply (proj2 (QuantileFacts.percentiles_ordered_and_bounded [2; 1; 3]%Q 1 3)).
  - discriminate.
  - repeat constructor; discriminate.
  - repeat constructor; discriminate.
Defined.

Lemma percentiles_last_ten_thousand_witness :
  percentiles ([7; 9]%Q ++ repeat 1%Q (Z.to_nat 10000))
  = percentiles (repeat 1%Q (Z.to_nat 10000)).
Proof.
  apply QuantileFacts.percentiles_last_ten_thousand.
  rewrite repeat_length. lia.
Defined.

Lemma compute_metrics_error_rate_witness :
  exists m,
    compute_metrics 2
      [{| latency := 1; error := true; result_ := EmptyList nat |};
       {| latency := 2; error := false; result_ := Returned 7 |}] = Ok m /\
    (0 <= error_p m)%Q /\ (error_p m <= 100)%Q.
Proof.
  destruct (proj2 (MetricsFacts.compute_metrics_error_rate nat 2
                     [{| latency := 1; error := true; result_ := EmptyList nat |};
                      {| latency := 2; error := false; result_ := Returned 7 |}]))
    as (m & Hm & _ & _ & H0 & H100); [discriminate |].
  exists m. repeat split; assumption.
Defined.

Lemma metric_period_covers_window_witness :
  (300 <= Monitoring.metric_period 10 75)%Z /\
  (75 + 300 - 10 <= inject_Z (Monitoring.metric_period 10 75))%Q.
Proof.
  destruct (proj1 (proj2 (MetricsFacts.metric_period_covers_window 10 75)))
    as (H300 & Hcover & _); [discriminate |].
  split; assumption.
Defined.

Lemma benchmark_without_runs_witness :
  fst (Bench.benchmark tick_clock (fun _ : unit => "esm2-inf2") flaky_endpoint
                       counter_raw counter_advance two_sequences 4 out_of_order
                       third_answer 5 tt 2 0 fresh)
  = Raise ZeroDivisionError.
Proof.
  apply BenchmarkFacts.benchmark_without_runs; [discriminate | lia].
Defined.

Lemma benchmark_returns_witness :
  exists results m report,
    Bench.benchmark_requests tick_clock flaky_endpoint counter_raw counter_advance
                             two_sequences 4 overlapping tt 2 3 fresh
    = (Ok results, {| env := 3%nat; gen := 10%nat;
                      sent := [({| inputs := "MKTAYIA<mask>" |}, false);
                               ({| inputs := "MKTAY<mask>AK" |}, true);
                               ({| inputs := "M<mask>TAYIAK" |}, false)] |}) /\
    fst (Bench.benchmark tick_clock (fun _ : unit => "esm2-inf2") flaky_endpoint
                         counter_raw counter_advance two_sequences 4 overlapping
                         third_answer 5 tt 2 3 fresh)
    = Ok (m, report) /\
    percentiles (latencies results) = Ok (p50 m, p90 m, p95 m) /\
    (p50 m <= p90 m)%Q /\ (p90 m <= p95 m)%Q.
Proof.
  destruct (BenchmarkRunFacts.benchmark_returns
              nat unit nat nat tick_clock flaky_endpoint counter_raw counter_advance
              two_sequences 4 overlapping (fun _ : unit => "esm2-inf2") third_answer tt
              5 2 3 fresh after_three three_requests)
    as (results & m & new & q & Hreq & Hrun & _ & _ & _ & _ & _ & _ & _ & _ & _ & Hp & H1 & H2).
  - discriminate.
  - reflexivity.
  - discriminate.
  - vm_compute. reflexivity.
  - exists results, m. eexists. split; [exact Hreq |].
    split; [rewrite Hrun; reflexivity |]. split; [exact Hp |]. split; assumption.
Defined.

End RunWitnesses.
